(** * Shallow embedding of tsuru's [provision/kubernetes/deploy.go]

    The Go code talks to a Kubernetes cluster through a typed client.  The
    embedding follows the way the repository's own tests drive that code: the
    cluster is a fake clientset (an object store per resource, a reactor that
    may inject failures, and the list of actions issued so far), effects are
    threaded through a small state-and-error monad, and formatted output is
    kept as the format string of the call site together with its arguments. *)

From Stdlib Require Import ZArith String Ascii List Bool Lia.
From stdpp Require Import base option gmap strings list.

Local Open Scope Z_scope.
Local Set Warnings "-register-all".

(** ** Go primitives *)

Module Go.

(** [int32(z)]: two's complement wrap-around of a 32-bit signed integer. *)
Definition int32 (z : Z) : Z := (z + 2 ^ 31) mod 2 ^ 32 - 2 ^ 31.

(** [int64(z)]: two's complement wrap-around of a 64-bit signed integer. *)
Definition int64 (z : Z) : Z := (z + 2 ^ 63) mod 2 ^ 64 - 2 ^ 63.

Definition sub32 (a b : Z) : Z := int32 (a - b).

(** [a / b] on int64: truncated division; [None] is the run-time panic of a
    division by zero. *)
Definition div64 (a b : Z) : option Z :=
  if Z.eqb b 0 then None else Some (int64 (Z.quot a b)).

(** [strings.Split(s, sep)] for a one-character separator. *)
Fixpoint Split (s : string) (sep : ascii) : list string :=
  match s with
  | EmptyString => [EmptyString]
  | String c rest =>
      if Ascii.eqb c sep then EmptyString :: Split rest sep
      else match Split rest sep with
           | [] => [String c EmptyString]
           | w :: ws => String c w :: ws
           end
  end.

(** [strings.Join(l, sep)]. *)
Fixpoint Join (l : list string) (sep : string) : string :=
  match l with
  | [] => ""
  | [w] => w
  | w :: ws => w +:+ sep +:+ Join ws sep
  end.

Definition HasPrefix (s p : string) : bool := String.prefix p s.

Definition HasSuffix (s p : string) : bool :=
  let n := String.length s in
  let k := String.length p in
  if (k <=? n)%nat then String.eqb (String.substring (n - k) k s) p else false.

(** [l[i:]] for a slice; out of range panics in Go, callers check lengths. *)
Definition slice_from {A} (i : nat) (l : list A) : list A := drop i l.

End Go.

(** ** Errors and formatted output *)

Inductive StatusReason : Type :=
| StatusReasonUnknown
| StatusReasonNotFound
| StatusReasonAlreadyExists
| StatusReasonForbidden
| StatusReasonConflict
| StatusReasonInternalError.

(** An argument handed to a [fmt] verb, and the error values of the program.
    [Errorf] covers [errors.Errorf], [errors.New] and [fmt.Errorf]: the value
    is the format string of the call site together with its arguments. *)
Inductive FmtArg : Type :=
| ArgString (s : string)
| ArgInt (z : Z)
| ArgStrings (l : list string)
| ArgDuration (d : Z)
| ArgError (e : error)
with error : Type :=
| StatusError (reason : StatusReason) (message : string)
| Errorf (format : string) (args : list FmtArg)
| WithStack (cause : error)
| WithMessage (cause : error) (message : string)
| Wrapf (cause : error) (format : string) (args : list FmtArg)
| ErrUnitStartup (Err : error)
| MultiError (errs : list error).

(** What one call writes to an output sink: a [fmt.Fprintf] or [fmt.Fprintln]
    with its format and arguments, or what an attached stream delivered on
    its standard output and on its standard error. *)
Inductive Line : Type :=
| Fprintf (format : string) (args : list FmtArg)
| Stream (stdout stderr : string).

Definition line_format (l : Line) : string :=
  match l with
  | Fprintf format _ => format
  | Stream _ _ => EmptyString
  end.

(** [k8sErrors.IsNotFound]: looks at the reason of an API status error, and
    does not unwrap. *)
Definition IsNotFound (e : error) : bool :=
  match e with
  | StatusError StatusReasonNotFound _ => true
  | _ => false
  end.

Definition IsAlreadyExists (e : error) : bool :=
  match e with
  | StatusError StatusReasonAlreadyExists _ => true
  | _ => false
  end.

(** A Go [(value, error)] result. *)
Inductive result (A : Type) : Type :=
| Ok (a : A)
| Err (e : error).
Arguments Ok {A} a.
Arguments Err {A} e.

Definition result_error {A} (r : result A) : option error :=
  match r with Ok _ => None | Err e => Some e end.

(** ** Kubernetes objects (the fields deploy.go reads or writes) *)

Record ObjectMeta : Type := {
  om_Name : string;
  om_Namespace : string;
  om_Labels : gmap string string;
  om_Annotations : gmap string string;
}.

Record LocalObjectReference : Type := { lor_Name : string }.

Record Secret : Type := {
  secret_Name : string;
  secret_Data : gmap string string;
  secret_Type : string;
}.

Record ServiceAccount : Type := {
  sa_Name : string;
  sa_Labels : gmap string string;
}.

Inductive VolumeSource : Type :=
| HostPath (path : string)
| EmptyDir
| PersistentVolumeClaim (claim : string).

Record Volume : Type := { vol_Name : string; vol_Source : VolumeSource }.

Record VolumeMount : Type := { vm_Name : string; vm_MountPath : string }.

Record EnvVar : Type := { ev_Name : string; ev_Value : string }.

Record Probe : Type := {
  probe_FailureThreshold : Z;
  probe_Path : string;
  probe_Port : Z;
  probe_Scheme : string;
}.

Inductive RestartPolicy : Type := RestartPolicyNever | RestartPolicyAlways.

(** [c_SecurityContext]: [None] is a nil [*SecurityContext]; inside, the
    [RunAsUser] pointer may be nil as well. *)
Record Container : Type := {
  c_Name : string;
  c_Image : string;
  c_Command : list string;
  c_Env : list EnvVar;
  c_SecurityContext : option (option Z);
  c_VolumeMounts : list VolumeMount;
  c_Stdin : bool;
  c_StdinOnce : bool;
  c_ReadinessProbe : option Probe;
  c_LivenessProbe : option Probe;
  c_Limits : gmap string Z;
  c_Requests : gmap string Z;
  c_Ports : list Z;
}.

Record PodSpec : Type := {
  ps_ImagePullSecrets : list LocalObjectReference;
  ps_ServiceAccountName : string;
  ps_SecurityContext : option (option Z);
  ps_NodeSelector : gmap string string;
  ps_Volumes : list Volume;
  ps_RestartPolicy : RestartPolicy;
  ps_Subdomain : string;
  ps_Containers : list Container;
}.

Record Pod : Type := { pod_Meta : ObjectMeta; pod_Spec : PodSpec }.

Record DeploymentCondition : Type := {
  cond_Type : string;
  cond_Reason : string;
}.

Record DeploymentStatus : Type := {
  st_ObservedGeneration : Z;
  st_Replicas : Z;
  st_UpdatedReplicas : Z;
  st_UnavailableReplicas : Z;
  st_Conditions : list DeploymentCondition;
}.

(** An [intstr.IntOrString]. *)
Inductive IntOrString : Type := FromInt (z : Z) | FromString (s : string).

Record DeploymentSpec : Type := {
  ds_MaxSurge : IntOrString;
  ds_MaxUnavailable : IntOrString;
  ds_Replicas : option Z;
  ds_RevisionHistoryLimit : option Z;
  ds_Selector : gmap string string;
  ds_TemplateMeta : ObjectMeta;
  ds_TemplateSpec : PodSpec;
}.

Record Deployment : Type := {
  dep_Meta : ObjectMeta;
  dep_Generation : Z;
  dep_Spec : DeploymentSpec;
  dep_Status : DeploymentStatus;
}.

Record ServicePort : Type := {
  sp_Protocol : string;
  sp_Port : Z;
  sp_TargetPort : IntOrString;
}.

Record Service : Type := {
  svc_Meta : ObjectMeta;
  svc_Selector : gmap string string;
  svc_Ports : list ServicePort;
  svc_ClusterIP : string;
  svc_Type : string;
}.

Record EventList : Type := { el_ResourceVersion : string }.

(** A [watch.Event] whose object is an [*apiv1.Event] ([evt_IsEvent]) or
    something else. *)
Record Event : Type := {
  evt_IsEvent : bool;
  evt_Name : string;
  evt_InvolvedName : string;
  evt_InvolvedFieldPath : string;
  evt_Message : string;
  evt_SourceComponent : string;
  evt_SourceHost : string;
}.

(** ** The cluster: a fake clientset

    [Tracker] is the object store of the fake.  [cc_Background] stands for the
    controllers of the cluster (the deployment controller, the kubelet): they
    run before every request and may rewrite the store, as a function of the
    requests seen so far.  [cc_Reactor] may answer a request with a failure
    before the store is consulted.  [cc_Actions] lists the requests issued. *)

Inductive Verb : Type :=
| VerbGet | VerbList | VerbCreate | VerbUpdate | VerbDelete | VerbWatch
| VerbRollback.

Inductive Resource : Type :=
| ResSecrets | ResServiceAccounts | ResPods | ResDeployments | ResServices
| ResEvents.

(** The object a create or an update request carries. *)
Inductive Object : Type :=
| ObjSecret (s : Secret)
| ObjServiceAccount (s : ServiceAccount)
| ObjPod (p : Pod)
| ObjDeployment (d : Deployment)
| ObjService (s : Service).

Record Action : Type := {
  act_Verb : Verb;
  act_Resource : Resource;
  act_Name : string;
  act_Object : option Object;
}.

Record Tracker : Type := {
  tr_Secrets : gmap string Secret;
  tr_ServiceAccounts : gmap string ServiceAccount;
  tr_Pods : gmap string Pod;
  tr_Deployments : gmap string Deployment;
  tr_Services : gmap string Service;
  tr_EventsResourceVersion : string;
}.

Record ClusterClient : Type := {
  cc_Namespace : string;
  cc_Tracker : Tracker;
  cc_Background : list Action -> Tracker -> Tracker;
  cc_Reactor : list Action -> Action -> option error;
  cc_Actions : list Action;
}.

Definition with_Secrets (f : gmap string Secret -> gmap string Secret) (t : Tracker) : Tracker :=
  {| tr_Secrets := f (tr_Secrets t);
     tr_ServiceAccounts := tr_ServiceAccounts t;
     tr_Pods := tr_Pods t;
     tr_Deployments := tr_Deployments t;
     tr_Services := tr_Services t;
     tr_EventsResourceVersion := tr_EventsResourceVersion t |}.

Definition with_ServiceAccounts (f : gmap string ServiceAccount -> gmap string ServiceAccount)
    (t : Tracker) : Tracker :=
  {| tr_Secrets := tr_Secrets t;
     tr_ServiceAccounts := f (tr_ServiceAccounts t);
     tr_Pods := tr_Pods t;
     tr_Deployments := tr_Deployments t;
     tr_Services := tr_Services t;
     tr_EventsResourceVersion := tr_EventsResourceVersion t |}.

Definition with_Pods (f : gmap string Pod -> gmap string Pod) (t : Tracker) : Tracker :=
  {| tr_Secrets := tr_Secrets t;
     tr_ServiceAccounts := tr_ServiceAccounts t;
     tr_Pods := f (tr_Pods t);
     tr_Deployments := tr_Deployments t;
     tr_Services := tr_Services t;
     tr_EventsResourceVersion := tr_EventsResourceVersion t |}.

Definition with_Deployments (f : gmap string Deployment -> gmap string Deployment)
    (t : Tracker) : Tracker :=
  {| tr_Secrets := tr_Secrets t;
     tr_ServiceAccounts := tr_ServiceAccounts t;
     tr_Pods := tr_Pods t;
     tr_Deployments := f (tr_Deployments t);
     tr_Services := tr_Services t;
     tr_EventsResourceVersion := tr_EventsResourceVersion t |}.

Definition with_Services (f : gmap string Service -> gmap string Service) (t : Tracker) : Tracker :=
  {| tr_Secrets := tr_Secrets t;
     tr_ServiceAccounts := tr_ServiceAccounts t;
     tr_Pods := tr_Pods t;
     tr_Deployments := tr_Deployments t;
     tr_Services := f (tr_Services t);
     tr_EventsResourceVersion := tr_EventsResourceVersion t |}.

Definition with_Tracker (t : Tracker) (cl : ClusterClient) : ClusterClient :=
  {| cc_Namespace := cc_Namespace cl;
     cc_Tracker := t;
     cc_Background := cc_Background cl;
     cc_Reactor := cc_Reactor cl;
     cc_Actions := cc_Actions cl |}.

Definition with_Actions (l : list Action) (cl : ClusterClient) : ClusterClient :=
  {| cc_Namespace := cc_Namespace cl;
     cc_Tracker := cc_Tracker cl;
     cc_Background := cc_Background cl;
     cc_Reactor := cc_Reactor cl;
     cc_Actions := l |}.

(** *** The monad of the embedding

    A computation runs against the cluster, writes lines to the output sink of
    the function it belongs to, and ends the way a Go call does: it returns a
    value, returns an error, or panics. *)

Inductive outcome (A : Type) : Type :=
| Returns (a : A)
| Errors (e : error)
| Panics (reason : string).
Arguments Returns {A} a.
Arguments Errors {A} e.
Arguments Panics {A} reason.

Definition M (A : Type) : Type := ClusterClient -> ClusterClient * list Line * outcome A.

Definition ret {A} (a : A) : M A := fun cl => (cl, [], Returns a).

Definition fail {A} (e : error) : M A := fun cl => (cl, [], Errors e).

Definition panic {A} (reason : string) : M A := fun cl => (cl, [], Panics reason).

Definition bind {A B} (m : M A) (k : A -> M B) : M B :=
  fun cl =>
    match m cl with
    | (cl1, out1, Returns a) => let '(cl2, out2, r) := k a cl1 in (cl2, out1 ++ out2, r)
    | (cl1, out1, Errors e) => (cl1, out1, Errors e)
    | (cl1, out1, Panics s) => (cl1, out1, Panics s)
    end.

(** Runs [m] and hands its [(value, error)] pair to the caller, which inspects
    the error itself instead of returning it. *)
Definition attempt {A} (m : M A) : M (result A) :=
  fun cl =>
    match m cl with
    | (cl1, out1, Returns a) => (cl1, out1, Returns (Ok a))
    | (cl1, out1, Errors e) => (cl1, out1, Returns (Err e))
    | (cl1, out1, Panics s) => (cl1, out1, Panics s)
    end.

(** [v, err := f(); if err != nil { return err }] for a collaborator. *)
Definition lift {A} (r : result A) : M A :=
  match r with
  | Ok a => ret a
  | Err e => fail e
  end.

(** [if err != nil { return err }] for a call that yields only an error. *)
Definition check (e : option error) : M unit :=
  match e with
  | None => ret tt
  | Some e => fail e
  end.

Definition get_client : M ClusterClient := fun cl => (cl, [], Returns cl).

(** [fmt.Fprintf(w, format, args...)] on the sink of the running function. *)
Definition tell (format : string) (args : list FmtArg) : M unit :=
  fun cl => (cl, [Fprintf format args], Returns tt).

(** The output of a stream attached with the sink as stdout and stderr. *)
Definition stream (stdout stderr : string) : M unit :=
  fun cl => (cl, [Stream stdout stderr], Returns tt).

Definition when (b : bool) (m : M unit) : M unit := if b then m else ret tt.

Notation "'let*' x ':=' m 'in' k" := (bind m (fun x => k))
  (at level 10, x pattern, m at level 100, k at level 200).

(** One request: it is recorded, the controllers run, the reactor may fail it,
    otherwise [handler] serves it from the store. *)
Definition invoke {A} (a : Action) (handler : Tracker -> Tracker * result A) : M A :=
  fun cl =>
    let history := cc_Actions cl in
    let t := cc_Background cl history (cc_Tracker cl) in
    let cl1 := with_Actions (history ++ [a]) (with_Tracker t cl) in
    match cc_Reactor cl history a with
    | Some e => (cl1, [], Errors e)
    | None =>
        match handler t with
        | (t', Ok v) => (with_Tracker t' cl1, [], Returns v)
        | (t', Err e) => (with_Tracker t' cl1, [], Errors e)
        end
    end.

Definition NewNotFound (resource name : string) : error :=
  StatusError StatusReasonNotFound (resource +:+ " " +:+ name +:+ " not found").

Definition NewAlreadyExists (resource name : string) : error :=
  StatusError StatusReasonAlreadyExists (resource +:+ " " +:+ name +:+ " already exists").

Definition Secrets_Update (s : Secret) : M Secret :=
  invoke {| act_Verb := VerbUpdate; act_Resource := ResSecrets; act_Name := secret_Name s;
            act_Object := Some (ObjSecret s) |}
    (fun t => match tr_Secrets t !! secret_Name s with
              | Some _ => (with_Secrets (insert (secret_Name s) s) t, Ok s)
              | None => (t, Err (NewNotFound "secrets" (secret_Name s)))
              end).

Definition Secrets_Create (s : Secret) : M Secret :=
  invoke {| act_Verb := VerbCreate; act_Resource := ResSecrets; act_Name := secret_Name s;
            act_Object := Some (ObjSecret s) |}
    (fun t => match tr_Secrets t !! secret_Name s with
              | Some _ => (t, Err (NewAlreadyExists "secrets" (secret_Name s)))
              | None => (with_Secrets (insert (secret_Name s) s) t, Ok s)
              end).

Definition ServiceAccounts_Create (s : ServiceAccount) : M ServiceAccount :=
  invoke {| act_Verb := VerbCreate; act_Resource := ResServiceAccounts; act_Name := sa_Name s;
            act_Object := Some (ObjServiceAccount s) |}
    (fun t => match tr_ServiceAccounts t !! sa_Name s with
              | Some _ => (t, Err (NewAlreadyExists "serviceaccounts" (sa_Name s)))
              | None => (with_ServiceAccounts (insert (sa_Name s) s) t, Ok s)
              end).

Definition Pods_Create (p : Pod) : M Pod :=
  invoke {| act_Verb := VerbCreate; act_Resource := ResPods; act_Name := om_Name (pod_Meta p);
            act_Object := Some (ObjPod p) |}
    (fun t => match tr_Pods t !! om_Name (pod_Meta p) with
              | Some _ => (t, Err (NewAlreadyExists "pods" (om_Name (pod_Meta p))))
              | None => (with_Pods (insert (om_Name (pod_Meta p)) p) t, Ok p)
              end).

Definition Pods_Delete (name : string) : M unit :=
  invoke {| act_Verb := VerbDelete; act_Resource := ResPods; act_Name := name;
            act_Object := None |}
    (fun t => match tr_Pods t !! name with
              | Some _ => (with_Pods (delete name) t, Ok tt)
              | None => (t, Err (NewNotFound "pods" name))
              end).

Definition Deployments_Get (name : string) : M Deployment :=
  invoke {| act_Verb := VerbGet; act_Resource := ResDeployments; act_Name := name;
            act_Object := None |}
    (fun t => match tr_Deployments t !! name with
              | Some d => (t, Ok d)
              | None => (t, Err (NewNotFound "deployments" name))
              end).

Definition Deployments_Create (d : Deployment) : M Deployment :=
  invoke {| act_Verb := VerbCreate; act_Resource := ResDeployments;
            act_Name := om_Name (dep_Meta d); act_Object := Some (ObjDeployment d) |}
    (fun t => match tr_Deployments t !! om_Name (dep_Meta d) with
              | Some _ => (t, Err (NewAlreadyExists "deployments" (om_Name (dep_Meta d))))
              | None => (with_Deployments (insert (om_Name (dep_Meta d)) d) t, Ok d)
              end).

Definition Deployments_Update (d : Deployment) : M Deployment :=
  invoke {| act_Verb := VerbUpdate; act_Resource := ResDeployments;
            act_Name := om_Name (dep_Meta d); act_Object := Some (ObjDeployment d) |}
    (fun t => match tr_Deployments t !! om_Name (dep_Meta d) with
              | Some _ => (with_Deployments (insert (om_Name (dep_Meta d)) d) t, Ok d)
              | None => (t, Err (NewNotFound "deployments" (om_Name (dep_Meta d))))
              end).

(** The rollback sub-resource of the extensions API: the store keeps no
    revision history, so a served rollback leaves it as it is. *)
Definition Deployments_Rollback (name : string) : M unit :=
  invoke {| act_Verb := VerbRollback; act_Resource := ResDeployments; act_Name := name;
            act_Object := None |}
    (fun t => match tr_Deployments t !! name with
              | Some _ => (t, Ok tt)
              | None => (t, Err (NewNotFound "deployments" name))
              end).

Definition Services_Create (s : Service) : M Service :=
  invoke {| act_Verb := VerbCreate; act_Resource := ResServices;
            act_Name := om_Name (svc_Meta s); act_Object := Some (ObjService s) |}
    (fun t => match tr_Services t !! om_Name (svc_Meta s) with
              | Some _ => (t, Err (NewAlreadyExists "services" (om_Name (svc_Meta s))))
              | None => (with_Services (insert (om_Name (svc_Meta s)) s) t, Ok s)
              end).

Definition Events_List : M EventList :=
  invoke {| act_Verb := VerbList; act_Resource := ResEvents; act_Name := "";
            act_Object := None |}
    (fun t => (t, Ok {| el_ResourceVersion := tr_EventsResourceVersion t |})).

(** Opens a watch on events; what it delivers arrives through the schedule of
    the caller. *)
Definition Events_Watch (fieldSelector : gmap string string) (resourceVersion : string) : M unit :=
  invoke {| act_Verb := VerbWatch; act_Resource := ResEvents; act_Name := "";
            act_Object := None |}
    (fun t => (t, Ok tt)).

(** ** Applications, label sets and configuration *)

(** A [provision.App], through the getters deploy.go calls. *)
Record App : Type := {
  app_Name : string;
  app_Pool : string;
  app_Memory : Z;
  app_Envs : gmap string string;
}.

Record LabelSet : Type := {
  ls_Labels : gmap string string;
  ls_Prefix : string;
}.

Record TsuruYamlHealthcheck : Type := {
  hc_Path : string;
  hc_Scheme : string;
  hc_Method : string;
  hc_AllowedFailures : Z;
}.

(** The keys read through [config.GetString] and [config.GetInt]; the lookup
    error is discarded at every call site, so an unset key reads as the empty
    string or as 0. *)
Record Config : Type := {
  docker_registry : string;
  docker_registry_auth_username : string;
  docker_registry_auth_password : string;
  docker_healthcheck_max_time : Z;
  host : string;
}.

(** What [getKubeConfig] returns. *)
Record KubeConfig : Type := {
  DeploySidecarImage : string;
  DeployInspectImage : string;
  PodRunningTimeout : Z;
  PodReadyTimeout : Z;
  DeploymentProgressTimeout : Z;
}.

Record AuthConfig : Type := {
  auth_Username : string;
  auth_Password : string;
  auth_Auth : string;
}.

(** What the inspect sidecar prints on its standard output, once decoded. *)
Record InspectData : Type := {
  data_Image : string;
  data_TsuruYaml : string;
  data_Procfile : string;
}.

(** ** Collaborators

    Functions deploy.go calls that live in other files of the package, in other
    packages of the repository or in libraries.  They are parameters of the
    development: every theorem holds whatever they compute.  Those that talk
    to the cluster touch resources the store above does not track, and are
    taken as functions of the client they are handed. *)
Class Collaborators : Type := {
  (* constants of the package *)
  tsuruLabelPrefix : string;
  provisionerName : string;
  (* helpers.go *)
  registrySecretName : string -> string;
  deploymentNameForApp : App -> string -> string;
  headlessServiceNameForApp : App -> string -> string;
  serviceAccountNameForApp : App -> string;
  buildPodNameForApp : App -> string -> result string;
  deployPodNameForApp : App -> result string;
  labelSetFromMeta : ObjectMeta -> LabelSet;
  waitForPodContainersRunning : ClusterClient -> string -> Z -> option error;
  waitForPod : ClusterClient -> string -> bool -> Z -> option error;
  notReadyPodEvents : ClusterClient -> App -> string -> result (list string);
  allNewPodsRunning : ClusterClient -> App -> string -> Z -> bool * option error;
  (* other files of the package *)
  getKubeConfig : KubeConfig;
  createVolumesForApp : ClusterClient -> App -> result (list Volume * list VolumeMount);
  ensureNodeContainers : option error;
  OvercommitFactor : ClusterClient -> string -> Z * option error;
  NewClusterClient : ClusterClient -> option error;
  SetTimeout : Z -> option error;
  (* package provision *)
  ServiceLabels : App -> bool -> string -> string -> result LabelSet;
  ServiceAccountLabels : App -> string -> string -> LabelSet;
  ExtendServiceLabels : LabelSet -> string -> string -> LabelSet;
  SplitServiceLabelsAnnotations : LabelSet -> LabelSet * LabelSet;
  SetBuildImage : LabelSet -> string -> LabelSet;
  SetIsHeadlessService : LabelSet -> LabelSet;
  ToLabels : LabelSet -> gmap string string;
  ToSelector : LabelSet -> gmap string string;
  ToNodeByPoolSelector : string -> string -> gmap string string;
  EnvsForApp : App -> string -> bool -> list EnvVar;
  WebProcessDefaultPort : string;
  DefaultHealthcheckScheme : string;
  (* packages app/image and provision/dockercommon *)
  SplitImageName : string -> string * string;
  GetImageWebProcessName : string -> result string;
  GetImageTsuruYamlData : string -> result TsuruYamlHealthcheck;
  GetImageExposedPort : string -> string;
  ArchiveBuildCmds : App -> string -> list string;
  DeployCmds : App -> list string;
  LeanContainerCmdsWithExtra : string -> string -> App -> list string -> result (list string);
  UserForContainer : string * option Z;
  (* libraries *)
  base64_EncodeToString : string -> string;
  json_Marshal : gmap string (gmap string AuthConfig) -> result string;
  json_Decode : string -> result InspectData;
  strconv_Atoi : string -> Z;
  strconv_FormatInt : Z -> string;
  strings_ToUpper : string -> string;
  rest_RESTClientFor : option error;
  rest_TLSConfigFor : option error;
  rest_HTTPWrappersForConfig : option error;
  remotecommand_NewSPDYExecutorForTransports : option error;
  (* [exec.Stream]: what reaches stdout and stderr, and the error *)
  exec_Stream : ClusterClient -> string -> string -> option string -> bool ->
                string * string * option error;
}.

Definition dockerSockPath : string := "/var/run/docker.sock".
Definition buildIntercontainerPath : string := "/tmp/intercontainer".
Definition buildIntercontainerDone : string := buildIntercontainerPath +:+ "/done".
Definition deadlineExeceededProgressCond : string := "ProgressDeadlineExceeded".

(** Constants of the Kubernetes API packages. *)
Definition DockerConfigJsonKey : string := ".dockerconfigjson".
Definition SecretTypeDockerConfigJson : string := "kubernetes.io/dockerconfigjson".
Definition DeploymentProgressing : string := "Progressing".
Definition ResourceMemory : string := "memory".
Definition ServiceTypeNodePort : string := "NodePort".
Definition ServiceTypeClusterIP : string := "ClusterIP".

Definition nl : string := String (ascii_of_nat 10) EmptyString.
Definition tab : string := String (ascii_of_nat 9) EmptyString.
Definition dquote : string := String (ascii_of_nat 34) EmptyString.

Fixpoint tabs (n : nat) : string :=
  match n with
  | O => EmptyString
  | S n' => tab +:+ tabs n'
  end.

(** [time.Second] and [time.Hour], in nanoseconds. *)
Definition Second : Z := 1000000000.
Definition Hour : Z := 3600 * Second.

(** [strings.SplitN(s, sep, 2)] for a one-character separator. *)
Definition SplitN2 (s : string) (sep : ascii) : list string :=
  match Go.Split s sep with
  | [] => []
  | [w] => [w]
  | w :: ws => [w; Go.Join ws (String sep EmptyString)]
  end.

(** ** The functions of deploy.go *)

Section Deploy.

Context `{Collaborators}.
Variable cfg : Config.

Definition keepAliveSpdyExecutor : option error :=
  match rest_TLSConfigFor with
  | Some e => Some e
  | None =>
      match rest_HTTPWrappersForConfig with
      | Some e => Some e
      | None => remotecommand_NewSPDYExecutorForTransports
      end
  end.

(** Returns what the stream delivered on stdout and on stderr together with
    the error of the Go function. *)
Definition doAttach (stdin : option string) (podName container : string) (tty : bool)
    : M (string * string * option error) :=
  match rest_RESTClientFor with
  | Some e => ret (EmptyString, EmptyString, Some (WithStack e))
  | None =>
      match keepAliveSpdyExecutor with
      | Some e => ret (EmptyString, EmptyString, Some (WithStack e))
      | None =>
          let* cl := get_client in
          let '(out, errOut, err) := exec_Stream cl podName container stdin tty in
          ret (out, errOut, WithStack <$> err)
      end
  end.

(** [createPodParams] without [client] (the state of the monad) and
    [attachOutput] (its output sink). *)
Record createPodParams : Type := {
  cp_app : App;
  cp_podName : string;
  cp_cmds : list string;
  cp_sourceImage : string;
  cp_destinationImages : list string;
  cp_inputFile : string;
  cp_attachInput : option string;
}.

Definition imgDomainOf (image : string) : string :=
  default EmptyString (head (Go.Split image "/"%char)).

(** The loop of [getImagePullSecrets] that sets [useSecret]. *)
Fixpoint useSecret (registry : string) (images : list string) : bool :=
  match images with
  | [] => false
  | image :: rest =>
      if String.eqb (imgDomainOf image) registry then true
      else useSecret registry rest
  end.

Definition authSecret (serializedConf : string) : Secret :=
  {| secret_Name := registrySecretName (docker_registry cfg);
     secret_Data := {[ DockerConfigJsonKey := serializedConf ]};
     secret_Type := SecretTypeDockerConfigJson |}.

Definition authConf : gmap string (gmap string AuthConfig) :=
  let username := docker_registry_auth_username cfg in
  let password := docker_registry_auth_password cfg in
  let authEncoded := base64_EncodeToString (username +:+ ":" +:+ password) in
  {[ "auths" := {[ docker_registry cfg :=
       {| auth_Username := username; auth_Password := password; auth_Auth := authEncoded |} ]} ]}.

Definition ensureAuthSecret : M unit :=
  let username := docker_registry_auth_username cfg in
  let password := docker_registry_auth_password cfg in
  if Nat.eqb (String.length username) 0 && Nat.eqb (String.length password) 0 then ret tt
  else
    let* serializedConf := lift (json_Marshal authConf) in
    let secret := authSecret serializedConf in
    let* updated := attempt (Secrets_Update secret) in
    let* written :=
      match updated with
      | Err e => if IsNotFound e then attempt (Secrets_Create secret) else ret updated
      | Ok _ => ret updated
      end in
    match written with
    | Err e => fail (WithStack e)
    | Ok _ => ret tt
    end.

Definition getImagePullSecrets (images : list string) : M (list LocalObjectReference) :=
  let registry := docker_registry cfg in
  if negb (useSecret registry images) then ret []
  else
    let* _ := ensureAuthSecret in
    let secretName := registrySecretName registry in
    ret [ {| lor_Name := secretName |} ].

Definition registryAuth (img : string) : string * string * string :=
  let imgDomain := imgDomainOf img in
  let r := docker_registry cfg in
  if negb (String.eqb imgDomain r) then (EmptyString, EmptyString, EmptyString)
  else
    let username := docker_registry_auth_username cfg in
    let password := docker_registry_auth_password cfg in
    if Nat.eqb (String.length username) 0 && Nat.eqb (String.length password) 0
    then (EmptyString, EmptyString, EmptyString)
    else (username, password, imgDomain).

Definition ensureServiceAccount (name : string) (labels : LabelSet) : M unit :=
  let svcAccount := {| sa_Name := name; sa_Labels := ToLabels labels |} in
  let* created := attempt (ServiceAccounts_Create svcAccount) in
  match created with
  | Err e => if negb (IsAlreadyExists e) then fail (WithStack e) else ret tt
  | Ok _ => ret tt
  end.

Definition ensureServiceAccountForApp (a : App) : M unit :=
  let labels := ServiceAccountLabels a provisionerName tsuruLabelPrefix in
  ensureServiceAccount (serviceAccountNameForApp a) labels.

Definition filteredPodEvents (evtResourceVersion podName : string) : M unit :=
  let* cl := get_client in
  let* _ := check (NewClusterClient cl) in
  let* _ := check (SetTimeout Hour) in
  let selector : gmap string string := {[ "involvedObject.kind" := "Pod" ]} in
  let selector :=
    if negb (String.eqb podName EmptyString)
    then <[ "involvedObject.name" := podName ]> selector
    else selector in
  Events_Watch selector evtResourceVersion.

Definition waitForSentinel : string :=
  "while [ ! -f " +:+ buildIntercontainerDone +:+ " ]; do sleep 5; done".

(** The pod literal of [createPod]. *)
Definition createPod_pod (params : createPodParams) (destination0 : string)
    (labels annotations : LabelSet) (volumes : list Volume) (mounts : list VolumeMount)
    (pullSecrets : list LocalObjectReference) (client : ClusterClient) : Pod :=
  let baseName := cp_podName params in
  let appEnvs := EnvsForApp (cp_app params) EmptyString true in
  let envs := map (fun envData => {| ev_Name := ev_Name envData; ev_Value := ev_Value envData |})
                  appEnvs in
  let nodeSelector := ToNodeByPoolSelector (app_Pool (cp_app params)) tsuruLabelPrefix in
  let commitContainer := "committer-cont" in
  let uid := snd UserForContainer in
  let kubeConf := getKubeConfig in
  let runAsUser := match uid with Some u => strconv_FormatInt u | None => EmptyString end in
  let '(regUser, regPass, regDomain) := registryAuth destination0 in
  {| pod_Meta :=
       {| om_Name := baseName;
          om_Namespace := cc_Namespace client;
          om_Labels := ToLabels labels;
          om_Annotations := ToLabels annotations |};
     pod_Spec :=
       {| ps_ImagePullSecrets := pullSecrets;
          ps_ServiceAccountName := serviceAccountNameForApp (cp_app params);
          ps_SecurityContext := None;
          ps_NodeSelector := nodeSelector;
          ps_Volumes :=
            [ {| vol_Name := "dockersock"; vol_Source := HostPath dockerSockPath |};
              {| vol_Name := "intercontainer"; vol_Source := EmptyDir |} ] ++ volumes;
          ps_RestartPolicy := RestartPolicyNever;
          ps_Subdomain := EmptyString;
          ps_Containers :=
            [ {| c_Name := baseName;
                 c_Image := cp_sourceImage params;
                 c_Command := ["/bin/sh"; "-ec"; waitForSentinel];
                 c_Env := envs;
                 c_SecurityContext := Some uid;
                 c_VolumeMounts :=
                   [ {| vm_Name := "intercontainer"; vm_MountPath := buildIntercontainerPath |} ]
                   ++ mounts;
                 c_Stdin := false;
                 c_StdinOnce := false;
                 c_ReadinessProbe := None;
                 c_LivenessProbe := None;
                 c_Limits := ∅;
                 c_Requests := ∅;
                 c_Ports := [] |};
              {| c_Name := commitContainer;
                 c_Image := DeploySidecarImage kubeConf;
                 c_Command :=
                   [ "sh"; "-ec";
                     nl +:+ tabs 7 +:+ "end() { touch " +:+ buildIntercontainerDone +:+ "; }" +:+ nl
                     +:+ tabs 7 +:+ "trap end EXIT" +:+ nl
                     +:+ tabs 7 +:+ "mkdir -p $(dirname " +:+ cp_inputFile params +:+ ") && cat >"
                     +:+ cp_inputFile params +:+ " && "
                     +:+ Go.Join (Go.slice_from 2 (cp_cmds params)) " " +:+ nl
                     +:+ tabs 6 ];
                 c_Env :=
                   [ {| ev_Name := "DEPLOYAGENT_RUN_AS_SIDECAR"; ev_Value := "true" |};
                     {| ev_Name := "DEPLOYAGENT_DESTINATION_IMAGES";
                        ev_Value := Go.Join (cp_destinationImages params) "," |};
                     {| ev_Name := "DEPLOYAGENT_INPUT_FILE"; ev_Value := cp_inputFile params |};
                     {| ev_Name := "DEPLOYAGENT_RUN_AS_USER"; ev_Value := runAsUser |};
                     {| ev_Name := "DEPLOYAGENT_REGISTRY_AUTH_USER"; ev_Value := regUser |};
                     {| ev_Name := "DEPLOYAGENT_REGISTRY_AUTH_PASS"; ev_Value := regPass |};
                     {| ev_Name := "DEPLOYAGENT_REGISTRY_ADDRESS"; ev_Value := regDomain |} ];
                 c_SecurityContext := None;
                 c_VolumeMounts :=
                   [ {| vm_Name := "dockersock"; vm_MountPath := dockerSockPath |};
                     {| vm_Name := "intercontainer"; vm_MountPath := buildIntercontainerPath |} ]
                   ++ mounts;
                 c_Stdin := true;
                 c_StdinOnce := true;
                 c_ReadinessProbe := None;
                 c_LivenessProbe := None;
                 c_Limits := ∅;
                 c_Requests := ∅;
                 c_Ports := [] |} ] |} |}.

(** The goroutine that prints the events of the pod while [createPod] waits
    runs concurrently with it; its lines are not part of the output below. *)
Definition createPod (params : createPodParams) : M unit :=
  if negb (Nat.eqb (length (cp_cmds params)) 3)
  then fail (Errorf "unexpected cmds list: %#v" [ArgStrings (cp_cmds params)])
  else
    match cp_destinationImages params with
    | [] => fail (Errorf "no destination images provided" [])
    | destination0 :: _ =>
        let* _ := ensureServiceAccountForApp (cp_app params) in
        let* labels := lift (ServiceLabels (cp_app params) true tsuruLabelPrefix provisionerName) in
        let '(labels, annotations) := SplitServiceLabelsAnnotations labels in
        let* cl := get_client in
        let* (volumes, mounts) := lift (createVolumesForApp cl (cp_app params)) in
        let annotations := SetBuildImage annotations destination0 in
        let commitContainer := "committer-cont" in
        let kubeConf := getKubeConfig in
        let* pullSecrets :=
          getImagePullSecrets [cp_sourceImage params; DeploySidecarImage kubeConf] in
        let* cl := get_client in
        let pod := createPod_pod params destination0 labels annotations volumes mounts
                                 pullSecrets cl in
        let* created := attempt (Pods_Create pod) in
        match created with
        | Err e => fail (WithStack e)
        | Ok _ =>
            let* _ := filteredPodEvents EmptyString (cp_podName params) in
            let* cl := get_client in
            let* _ := check (waitForPodContainersRunning cl (om_Name (pod_Meta pod))
                               (PodRunningTimeout kubeConf)) in
            let* _ :=
              match cp_attachInput params with
              | Some input =>
                  let* (out, errOut, err) :=
                    doAttach (Some input) (om_Name (pod_Meta pod)) commitContainer false in
                  let* _ := stream out errOut in
                  match err with
                  | Some e =>
                      fail (Errorf "error attaching to %s/%s: %v"
                              [ArgString (om_Name (pod_Meta pod)); ArgString commitContainer;
                               ArgError e])
                  | None => tell (" ---> Cleaning up" +:+ nl) []
                  end
              | None => ret tt
              end in
            let* cl := get_client in
            check (waitForPod cl (om_Name (pod_Meta pod)) false (PodReadyTimeout kubeConf))
        end
    end.

Definition with_podName_cmds (podName : string) (cmds : list string)
    (params : createPodParams) : createPodParams :=
  {| cp_app := cp_app params;
     cp_podName := podName;
     cp_cmds := cmds;
     cp_sourceImage := cp_sourceImage params;
     cp_destinationImages := cp_destinationImages params;
     cp_inputFile := cp_inputFile params;
     cp_attachInput := cp_attachInput params |}.

Definition with_destinationImages (images : list string)
    (params : createPodParams) : createPodParams :=
  {| cp_app := cp_app params;
     cp_podName := cp_podName params;
     cp_cmds := cp_cmds params;
     cp_sourceImage := cp_sourceImage params;
     cp_destinationImages := images;
     cp_inputFile := cp_inputFile params;
     cp_attachInput := cp_attachInput params |}.

Definition createBuildPod (params : createPodParams) : M unit :=
  let cmds := ArchiveBuildCmds (cp_app params) "file:///home/application/archive.tar.gz" in
  let* podName :=
    if String.eqb (cp_podName params) EmptyString
    then lift (buildPodNameForApp (cp_app params) EmptyString)
    else ret (cp_podName params) in
  createPod (with_podName_cmds podName cmds params).

Definition createDeployPod (params : createPodParams) : M unit :=
  match cp_destinationImages params with
  | [] => fail (Errorf "no destination images provided" [])
  | destination0 :: _ =>
      let cmds := DeployCmds (cp_app params) in
      let* podName :=
        if String.eqb (cp_podName params) EmptyString
        then lift (deployPodNameForApp (cp_app params))
        else ret (cp_podName params) in
      let params := with_podName_cmds podName cmds params in
      let '(repository, tag) := SplitImageName destination0 in
      let params :=
        if negb (String.eqb tag "latest")
        then with_destinationImages
               (cp_destinationImages params ++ [repository +:+ ":latest"]) params
        else params in
      createPod params
  end.

Definition extraRegisterCmds (a : App) : string :=
  let host := host cfg in
  let host := if negb (Go.HasPrefix host "http") then "http://" +:+ host else host in
  let host := if negb (Go.HasSuffix host "/") then host +:+ "/" else host in
  let token := default EmptyString (app_Envs a !! "TSURU_APP_TOKEN") in
  "curl -sSL -m15 -XPOST -d" +:+ dquote +:+ "hostname=$(hostname)" +:+ dquote
  +:+ " -o/dev/null -H" +:+ dquote +:+ "Content-Type:application/x-www-form-urlencoded" +:+ dquote
  +:+ " -H" +:+ dquote +:+ "Authorization:bearer " +:+ token +:+ dquote
  +:+ " " +:+ host +:+ "apps/" +:+ app_Name a +:+ "/units/register || true".

Definition probeFromHC (hc : TsuruYamlHealthcheck) (port : Z) : result (option Probe) :=
  if String.eqb (hc_Path hc) EmptyString then Ok None
  else
    let scheme := hc_Scheme hc in
    let scheme := if String.eqb scheme EmptyString then DefaultHealthcheckScheme else scheme in
    let scheme := strings_ToUpper scheme in
    let method := strings_ToUpper (hc_Method hc) in
    if negb (String.eqb method EmptyString) && negb (String.eqb method "GET")
    then Err (Errorf "healthcheck: only GET method is supported in kubernetes provisioner" [])
    else Ok (Some {| probe_FailureThreshold := Go.int32 (hc_AllowedFailures hc);
                     probe_Path := hc_Path hc;
                     probe_Port := port;
                     probe_Scheme := scheme |}).

Definition getTargetPortForImage (imgName : string) : Z :=
  let port := WebProcessDefaultPort in
  let exposedPort := GetImageExposedPort imgName in
  let port :=
    if negb (String.eqb exposedPort EmptyString)
    then match SplitN2 exposedPort "/"%char with
         | [first; _] => first
         | _ => port
         end
    else port in
  strconv_Atoi port.

(** [memory / overcommit], an int64 division. *)
Definition divide (a b : Z) : M Z :=
  match Go.div64 a b with
  | Some q => ret q
  | None => panic "runtime error: integer divide by zero"
  end.

(** [errors.WithStack] around a collaborator's [(value, error)]. *)
Definition lift_WithStack {A} (r : result A) : M A :=
  match r with
  | Ok a => ret a
  | Err e => fail (WithStack e)
  end.

(** The deployment literal of [createAppDeployment]; the status of the object
    sent to the cluster is empty. *)
Definition createAppDeployment_deployment (a : App) (process imageName : string)
    (realReplicas : Z) (labels annotations : LabelSet) (cmds : list string)
    (probe : option Probe) (resourceLimits resourceRequests : gmap string Z)
    (volumes : list Volume) (mounts : list VolumeMount)
    (pullSecrets : list LocalObjectReference) (client : ClusterClient) : Deployment :=
  let appEnvs := EnvsForApp a process false in
  let envs := map (fun envData => {| ev_Name := ev_Name envData; ev_Value := ev_Value envData |})
                  appEnvs in
  let depName := deploymentNameForApp a process in
  let tenRevs := Go.int32 10 in
  let portInt := getTargetPortForImage imageName in
  let nodeSelector := ToNodeByPoolSelector (app_Pool a) tsuruLabelPrefix in
  let uid := snd UserForContainer in
  {| dep_Meta :=
       {| om_Name := depName;
          om_Namespace := cc_Namespace client;
          om_Labels := ToLabels labels;
          om_Annotations := ToLabels annotations |};
     dep_Generation := 0;
     dep_Spec :=
       {| ds_MaxSurge := FromString "100%";
          ds_MaxUnavailable := FromInt 0;
          ds_Replicas := Some realReplicas;
          ds_RevisionHistoryLimit := Some tenRevs;
          ds_Selector := ToSelector labels;
          ds_TemplateMeta :=
            {| om_Name := EmptyString;
               om_Namespace := EmptyString;
               om_Labels := ToLabels labels;
               om_Annotations := ToLabels annotations |};
          ds_TemplateSpec :=
            {| ps_ImagePullSecrets := pullSecrets;
               ps_ServiceAccountName := serviceAccountNameForApp a;
               ps_SecurityContext := Some uid;
               ps_NodeSelector := nodeSelector;
               ps_Volumes := volumes;
               ps_RestartPolicy := RestartPolicyAlways;
               ps_Subdomain := headlessServiceNameForApp a process;
               ps_Containers :=
                 [ {| c_Name := depName;
                      c_Image := imageName;
                      c_Command := cmds;
                      c_Env := envs;
                      c_SecurityContext := None;
                      c_VolumeMounts := mounts;
                      c_Stdin := false;
                      c_StdinOnce := false;
                      c_ReadinessProbe := probe;
                      c_LivenessProbe := probe;
                      c_Limits := resourceLimits;
                      c_Requests := resourceRequests;
                      c_Ports := [Go.int32 portInt] |} ] |} |};
     dep_Status :=
       {| st_ObservedGeneration := 0;
          st_Replicas := 0;
          st_UpdatedReplicas := 0;
          st_UnavailableReplicas := 0;
          st_Conditions := [] |} |}.

Definition createAppDeployment (oldDeployment : option Deployment) (a : App)
    (process imageName : string) (replicas : Z) (labels : LabelSet)
    : M (Deployment * LabelSet * LabelSet) :=
  let labels := ExtendServiceLabels labels provisionerName tsuruLabelPrefix in
  let realReplicas := Go.int32 replicas in
  let extra := [extraRegisterCmds a] in
  let* cmds := lift_WithStack (LeanContainerCmdsWithExtra process imageName a extra) in
  let* webProcessName := lift_WithStack (GetImageWebProcessName imageName) in
  let portInt := getTargetPortForImage imageName in
  let* probe :=
    if String.eqb process webProcessName
    then
      let* yamlHealthcheck := lift_WithStack (GetImageTsuruYamlData imageName) in
      lift (probeFromHC yamlHealthcheck portInt)
    else ret None in
  let* cl := get_client in
  let '(overcommit, err) := OvercommitFactor cl (app_Pool a) in
  match err with
  | Some e => fail (WithMessage e "misconfigured cluster overcommit factor")
  | None =>
      let memory := app_Memory a in
      let* (resourceLimits, resourceRequests) :=
        if negb (Z.eqb memory 0)
        then
          let* request := divide memory overcommit in
          ret (({[ ResourceMemory := memory ]} : gmap string Z),
               ({[ ResourceMemory := request ]} : gmap string Z))
        else ret ((∅ : gmap string Z), (∅ : gmap string Z)) in
      let* cl := get_client in
      let* (volumes, mounts) := lift (createVolumesForApp cl a) in
      let* pullSecrets := getImagePullSecrets [imageName] in
      let '(labels, annotations) := SplitServiceLabelsAnnotations labels in
      let* cl := get_client in
      let deployment :=
        createAppDeployment_deployment a process imageName realReplicas labels annotations
          cmds probe resourceLimits resourceRequests volumes mounts pullSecrets cl in
      let* applied :=
        attempt (match oldDeployment with
                 | None => Deployments_Create deployment
                 | Some _ => Deployments_Update deployment
                 end) in
      match applied with
      | Err e => fail (WithStack e)
      | Ok newDep => ret (newDep, labels, annotations)
      end
  end.

(** An [io.Writer]: [ioutil.Discard], or a buffer the caller reads back. *)
Inductive Writer : Type :=
| Discard
| Buffer (written : list Line).

Definition Fprint (w : Writer) (lines : list Line) : Writer :=
  match w with
  | Discard => Discard
  | Buffer written => Buffer (written ++ lines)
  end.

(** [sm_writer] is [None] for a nil writer. *)
Record serviceManager : Type := {
  sm_client : ClusterClient;
  sm_writer : option Writer;
}.

Definition CurrentLabels (a : App) (process : string) : M (option LabelSet) :=
  let depName := deploymentNameForApp a process in
  let* got := attempt (Deployments_Get depName) in
  match got with
  | Err e => if IsNotFound e then ret None else fail (WithStack e)
  | Ok dep => ret (Some (labelSetFromMeta (ds_TemplateMeta (dep_Spec dep))))
  end.

Fixpoint tell_each (format : string) (messages : list string) : M unit :=
  match messages with
  | [] => ret tt
  | m :: rest => let* _ := tell format [ArgString m] in tell_each format rest
  end.

Definition createDeployTimeoutError (a : App) (processName : string) (timeout : Z)
    (label : string) : M error :=
  let* cl := get_client in
  let* msgErrorPart :=
    match notReadyPodEvents cl a processName with
    | Ok messages =>
        let* _ := tell_each (" ---> Pod not ready in time: %s" +:+ nl) messages in
        ret (if Nat.ltb 0 (length messages) then ": " +:+ Go.Join messages ", "
             else EmptyString)
    | Err _ => ret EmptyString
    end in
  ret (Errorf "timeout waiting %s after %v waiting for units%s"
         [ArgString label; ArgDuration timeout; ArgString msgErrorPart]).

Definition isDeploymentEvent (msg : Event) (dep : Deployment) : bool :=
  evt_IsEvent msg && Go.HasPrefix (evt_Name msg) (om_Name (dep_Meta dep)).

Definition formatEvtMessage (msg : Event) (showSub : bool) : string :=
  if negb (evt_IsEvent msg) then EmptyString
  else
    let subStr :=
      if showSub && negb (String.eqb (evt_InvolvedFieldPath msg) EmptyString)
      then " - " +:+ evt_InvolvedFieldPath msg
      else EmptyString in
    let component := [evt_SourceComponent msg] in
    let component :=
      if negb (String.eqb (evt_SourceHost msg) EmptyString)
      then component ++ [evt_SourceHost msg]
      else component in
    evt_InvolvedName msg +:+ subStr +:+ " - " +:+ evt_Message msg +:+ " ["
    +:+ Go.Join component ", " +:+ "]".

(** *** The rollout monitor

    [monitorDeployment] blocks in [select] statements.  Which case fires is
    decided outside the program: a schedule lists, select after select, the
    case that fires.  A timer case carries the time elapsed since the loop
    started, which the timeout error reports. *)
Inductive Select : Type :=
| Tick
| WatchMessage (msg : Event)
| WatchClosed
| HealthcheckTimeout (elapsed : Z)
| ProgressTimeout (elapsed : Z).

(** How a function that waits ends under a finite schedule: it returned, or
    it is still blocked in a select for which the schedule holds no case
    that can fire. *)
Inductive Completion : Type :=
| Completed
| Blocked.

(** The local variables of the convergence loop.  [healthcheckTimeout] is
    [None] for the nil channel and holds the duration of the timer once it is
    armed; [watchCh] is [false] once the channel was set to nil. *)
Record rollout : Type := {
  oldUpdatedReplicas : Z;
  oldReadyUnits : Z;
  oldPendingTermination : Z;
  healthcheckTimeout : option Z;
  watchCh : bool;
}.

(** The loop over [dep.Status.Conditions]. *)
Fixpoint deadlineExceeded (conditions : list DeploymentCondition) : bool :=
  match conditions with
  | [] => false
  | c :: rest =>
      if String.eqb (cond_Type c) DeploymentProgressing
         && String.eqb (cond_Reason c) deadlineExeceededProgressCond
      then true
      else deadlineExceeded rest
  end.

Definition updatedLine : string := " ---> %d of %d new units created" +:+ nl.
Definition healthcheckLine : string := " ---> waiting healthcheck on %d created units" +:+ nl.
Definition readyLine : string := " ---> %d of %d new units ready" +:+ nl.
Definition pendingLine : string := " ---> %d old units pending termination" +:+ nl.

(** The body of the convergence loop up to its [break]: the new values of the
    local variables, and whether the loop is left. *)
Definition monitorDeployment_status (a : App) (processName : string) (specReplicas : Z)
    (maxWaitTimeDuration : Z) (st : rollout) (dep : Deployment) : M (rollout * bool) :=
  let status := dep_Status dep in
  if deadlineExceeded (st_Conditions status)
  then fail (Errorf "deployment %q exceeded its progress deadline"
               [ArgString (om_Name (dep_Meta dep))])
  else
    let* _ := when (negb (Z.eqb (oldUpdatedReplicas st) (st_UpdatedReplicas status)))
                (tell updatedLine [ArgInt (st_UpdatedReplicas status); ArgInt specReplicas]) in
    let* healthcheckTimeout :=
      match healthcheckTimeout st with
      | None =>
          if Z.eqb (st_UpdatedReplicas status) specReplicas
          then
            let* cl := get_client in
            let '(allInit, err) :=
              allNewPodsRunning cl a processName (st_ObservedGeneration status) in
            match allInit, err with
            | true, None =>
                let* _ := tell healthcheckLine [ArgInt specReplicas] in
                ret (Some maxWaitTimeDuration)
            | _, _ => ret None
            end
          else ret None
      | Some armed => ret (Some armed)
      end in
    let readyUnits := Go.sub32 (st_UpdatedReplicas status) (st_UnavailableReplicas status) in
    let* _ := when (negb (Z.eqb (oldReadyUnits st) readyUnits) && Z.leb 0 readyUnits)
                (tell readyLine [ArgInt readyUnits; ArgInt specReplicas]) in
    let pendingTermination := Go.sub32 (st_Replicas status) (st_UpdatedReplicas status) in
    let* _ := when (negb (Z.eqb (oldPendingTermination st) pendingTermination)
                    && Z.ltb 0 pendingTermination)
                (tell pendingLine [ArgInt pendingTermination]) in
    ret ({| oldUpdatedReplicas := st_UpdatedReplicas status;
            oldReadyUnits := readyUnits;
            oldPendingTermination := pendingTermination;
            healthcheckTimeout := healthcheckTimeout;
            watchCh := watchCh st |},
         Z.eqb readyUnits specReplicas && Z.eqb (st_Replicas status) specReplicas).

(** The [select] of the convergence loop and the [Get] that follows it.
    [None]: the scheduled case cannot fire (its channel is nil). *)
Definition monitorDeployment_select (a : App) (processName : string) (st : rollout)
    (dep : Deployment) (fired : Select) : M (option (rollout * Deployment)) :=
  let refresh (st : rollout) : M (option (rollout * Deployment)) :=
    let* dep := Deployments_Get (om_Name (dep_Meta dep)) in
    ret (Some (st, dep)) in
  match fired with
  | Tick => refresh st
  | WatchMessage msg =>
      if watchCh st
      then
        let* _ := when (isDeploymentEvent msg dep)
                    (tell ("  ---> %s" +:+ nl) [ArgString (formatEvtMessage msg false)]) in
        refresh st
      else ret None
  | WatchClosed =>
      if watchCh st
      then refresh {| oldUpdatedReplicas := oldUpdatedReplicas st;
                      oldReadyUnits := oldReadyUnits st;
                      oldPendingTermination := oldPendingTermination st;
                      healthcheckTimeout := healthcheckTimeout st;
                      watchCh := false |}
      else ret None
  | HealthcheckTimeout elapsed =>
      match healthcheckTimeout st with
      | Some _ =>
          let* err := createDeployTimeoutError a processName elapsed "healthcheck" in
          fail err
      | None => ret None
      end
  | ProgressTimeout elapsed =>
      let* err := createDeployTimeoutError a processName elapsed "full rollout" in
      fail err
  end.

(** The convergence loop [for { ... }]. *)
Fixpoint monitorDeployment_converge (a : App) (processName : string) (specReplicas : Z)
    (maxWaitTimeDuration : Z) (schedule : list Select) (st : rollout) (dep : Deployment)
    : M Completion :=
  let* (st, done) :=
    monitorDeployment_status a processName specReplicas maxWaitTimeDuration st dep in
  if done then ret Completed
  else
    match schedule with
    | [] => ret Blocked
    | fired :: schedule =>
        let* next := monitorDeployment_select a processName st dep fired in
        match next with
        | None => ret Blocked
        | Some (st, dep) =>
            monitorDeployment_converge a processName specReplicas maxWaitTimeDuration
              schedule st dep
        end
    end.

(** The loop [for dep.Status.ObservedGeneration < dep.Generation { ... }]:
    the deployment once its generation is observed and the rest of the
    schedule, or [None] when it is blocked. *)
Fixpoint monitorDeployment_generation (schedule : list Select) (dep : Deployment)
    : M (option (list Select * Deployment)) :=
  if Z.ltb (st_ObservedGeneration (dep_Status dep)) (dep_Generation dep)
  then
    let* dep := Deployments_Get (om_Name (dep_Meta dep)) in
    match schedule with
    | Tick :: schedule => monitorDeployment_generation schedule dep
    | ProgressTimeout _ :: _ =>
        fail (Errorf "timeout waiting for deployment generation to update" [])
    | _ => ret None
    end
  else ret (Some (schedule, dep)).

(** The local variables as the convergence loop starts. *)
Definition initialRollout : rollout :=
  {| oldUpdatedReplicas := Go.int32 (-1);
     oldReadyUnits := Go.int32 (-1);
     oldPendingTermination := Go.int32 (-1);
     healthcheckTimeout := None;
     watchCh := true |}.

Definition maxWaitTimeDuration : Z :=
  let maxWaitTime := docker_healthcheck_max_time cfg in
  let maxWaitTime := if Z.eqb maxWaitTime 0 then 120 else maxWaitTime in
  Go.int64 (maxWaitTime * Second).

Definition monitorDeployment (schedule : list Select) (dep : Deployment) (a : App)
    (processName : string) (evtResourceVersion : string) : M Completion :=
  let* _ := filteredPodEvents evtResourceVersion EmptyString in
  let* _ := tell (nl +:+ "---- Updating units [%s] ----" +:+ nl) [ArgString processName] in
  let* observed := monitorDeployment_generation schedule dep in
  match observed with
  | None => ret Blocked
  | Some (schedule, dep) =>
      let specReplicas := default 0 (ds_Replicas (dep_Spec dep)) in
      let* converged :=
        monitorDeployment_converge a processName specReplicas maxWaitTimeDuration schedule
          initialRollout dep in
      match converged with
      | Blocked => ret Blocked
      | Completed =>
          let* _ := tell (" ---> Done updating units" +:+ nl) [] in
          ret Completed
      end
  end.

Definition serviceFor (name : string) (labels annotations : LabelSet) (port targetPort : Z)
    (clusterIP type : string) (client : ClusterClient) : Service :=
  {| svc_Meta :=
       {| om_Name := name;
          om_Namespace := cc_Namespace client;
          om_Labels := ToLabels labels;
          om_Annotations := ToLabels annotations |};
     svc_Selector := ToSelector labels;
     svc_Ports := [ {| sp_Protocol := "TCP";
                       sp_Port := Go.int32 port;
                       sp_TargetPort := FromInt targetPort |} ];
     svc_ClusterIP := clusterIP;
     svc_Type := type |}.

Definition rollbackBanner : string :=
  nl +:+ "**** ROLLING BACK AFTER FAILURE ****" +:+ nl +:+ " ---> %s <---" +:+ nl.
Definition rollbackErrorBanner : string :=
  nl +:+ "**** ERROR DURING ROLLBACK ****" +:+ nl +:+ " ---> %s <---" +:+ nl.

(** [DeployService] up to the call of [createAppDeployment]: the deployment
    the cluster answered with, the label sets, the resource version of the
    event list. *)
Definition DeployService_apply (a : App) (process : string) (labels : LabelSet)
    (replicas : Z) (img : string) : M (Deployment * LabelSet * LabelSet * string) :=
  let* _ := check ensureNodeContainers in
  let* _ := ensureServiceAccountForApp a in
  let depName := deploymentNameForApp a process in
  let* got := attempt (Deployments_Get depName) in
  let* dep :=
    match got with
    | Err e => if negb (IsNotFound e) then fail (WithStack e) else ret None
    | Ok dep => ret (Some dep)
    end in
  let* events := Events_List in
  let* (dep, labels, annotations) := createAppDeployment dep a process img replicas labels in
  ret (dep, labels, annotations, el_ResourceVersion events).

(** [DeployService] after a rollout that converged: the load-balanced and
    the headless service. *)
Definition DeployService_expose (a : App) (process img : string)
    (labels annotations : LabelSet) : M Completion :=
  let depName := deploymentNameForApp a process in
  let targetPort := getTargetPortForImage img in
  let port := strconv_Atoi WebProcessDefaultPort in
  let* cl := get_client in
  let* created :=
    attempt (Services_Create
               (serviceFor depName labels annotations port targetPort EmptyString
                           ServiceTypeNodePort cl)) in
  let* _ :=
    match created with
    | Err e => if negb (IsAlreadyExists e) then fail e else ret tt
    | Ok _ => ret tt
    end in
  let labels := SetIsHeadlessService labels in
  let* cl := get_client in
  let* created :=
    attempt (Services_Create
               (serviceFor (headlessServiceNameForApp a process) labels annotations port
                           targetPort "None" ServiceTypeClusterIP cl)) in
  let* _ :=
    match created with
    | Err e => if negb (IsAlreadyExists e) then fail e else ret tt
    | Ok _ => ret tt
    end in
  ret Completed.

(** [DeployService] from the call of [monitorDeployment] on; its output is
    what is written to [m.writer]. *)
Definition DeployService_rollout (schedule : list Select) (a : App) (process img : string)
    (dep : Deployment) (labels annotations : LabelSet) (evtResourceVersion : string)
    : M Completion :=
  let depName := deploymentNameForApp a process in
  let* monitored := attempt (monitorDeployment schedule dep a process evtResourceVersion) in
  match monitored with
  | Err err =>
      let* _ := tell rollbackBanner [ArgError err] in
      let* rolledBack := attempt (Deployments_Rollback depName) in
      let* _ :=
        match rolledBack with
        | Err rollbackErr => tell rollbackErrorBanner [ArgError rollbackErr]
        | Ok _ => ret tt
        end in
      fail (ErrUnitStartup err)
  | Ok Blocked => ret Blocked
  | Ok Completed => DeployService_expose a process img labels annotations
  end.

(** The method: [m.writer] is replaced by [ioutil.Discard] when it is nil,
    once the deployment has been applied. *)
Definition DeployService (m : serviceManager) (schedule : list Select) (a : App)
    (process : string) (labels : LabelSet) (replicas : Z) (img : string)
    : serviceManager * outcome Completion :=
  match DeployService_apply a process labels replicas img (sm_client m) with
  | (cl, _, Returns (dep, labels, annotations, evtResourceVersion)) =>
      let writer := default Discard (sm_writer m) in
      let '(cl, out, r) :=
        DeployService_rollout schedule a process img dep labels annotations
          evtResourceVersion cl in
      ({| sm_client := cl; sm_writer := Some (Fprint writer out) |}, r)
  | (cl, _, Errors e) => ({| sm_client := cl; sm_writer := sm_writer m |}, Errors e)
  | (cl, _, Panics reason) => ({| sm_client := cl; sm_writer := sm_writer m |}, Panics reason)
  end.

(** [inspectParams] without [client], [stdout] and [stderr]: what reaches the
    two buffers is returned. *)
Record inspectParams : Type := {
  ip_sourceImage : string;
  ip_podName : string;
  ip_destinationImages : list string;
  ip_labels : LabelSet;
  ip_app : App;
}.

(** Modelled from the spec: [cleanupPod] is a helper of the package that is
    not in deploy.go; section 4.3 describes it as the deferred deletion of the
    pod, and the call site discards what it returns. *)
Definition cleanupPod (podName : string) : M unit :=
  let* _ := attempt (Pods_Delete podName) in
  ret tt.

(** The pod literal of [runInspectSidecar]. *)
Definition runInspectSidecar_pod (params : inspectParams) (destination0 : string)
    (labels annotations : LabelSet) (pullSecrets : list LocalObjectReference)
    (client : ClusterClient) : Pod :=
  let baseName := ip_podName params in
  let nodeSelector := ToNodeByPoolSelector (app_Pool (ip_app params)) tsuruLabelPrefix in
  let inspectContainer := "inspect-cont" in
  let kubeConf := getKubeConfig in
  let '(regUser, regPass, regDomain) := registryAuth destination0 in
  {| pod_Meta :=
       {| om_Name := baseName;
          om_Namespace := cc_Namespace client;
          om_Labels := ToLabels labels;
          om_Annotations := ToLabels annotations |};
     pod_Spec :=
       {| ps_ImagePullSecrets := pullSecrets;
          ps_ServiceAccountName := serviceAccountNameForApp (ip_app params);
          ps_SecurityContext := None;
          ps_NodeSelector := nodeSelector;
          ps_Volumes :=
            [ {| vol_Name := "dockersock"; vol_Source := HostPath dockerSockPath |};
              {| vol_Name := "intercontainer"; vol_Source := EmptyDir |} ];
          ps_RestartPolicy := RestartPolicyNever;
          ps_Subdomain := EmptyString;
          ps_Containers :=
            [ {| c_Name := baseName;
                 c_Image := ip_sourceImage params;
                 c_Command := ["/bin/sh"; "-ec"; waitForSentinel];
                 c_Env := [];
                 c_SecurityContext := None;
                 c_VolumeMounts :=
                   [ {| vm_Name := "intercontainer"; vm_MountPath := buildIntercontainerPath |} ];
                 c_Stdin := false;
                 c_StdinOnce := false;
                 c_ReadinessProbe := None;
                 c_LivenessProbe := None;
                 c_Limits := ∅;
                 c_Requests := ∅;
                 c_Ports := [] |};
              {| c_Name := inspectContainer;
                 c_Image := DeployInspectImage kubeConf;
                 c_Command :=
                   [ "sh"; "-ec";
                     nl +:+ tabs 7 +:+ "end() { touch " +:+ buildIntercontainerDone +:+ "; }" +:+ nl
                     +:+ tabs 7 +:+ "trap end EXIT" +:+ nl
                     +:+ tabs 7 +:+ "cat >/dev/null && /bin/deploy-agent" +:+ nl
                     +:+ tabs 6 ];
                 c_Env :=
                   [ {| ev_Name := "DEPLOYAGENT_RUN_AS_SIDECAR"; ev_Value := "true" |};
                     {| ev_Name := "DEPLOYAGENT_DESTINATION_IMAGES";
                        ev_Value := Go.Join (ip_destinationImages params) "," |};
                     {| ev_Name := "DEPLOYAGENT_SOURCE_IMAGE"; ev_Value := ip_sourceImage params |};
                     {| ev_Name := "DEPLOYAGENT_REGISTRY_AUTH_USER"; ev_Value := regUser |};
                     {| ev_Name := "DEPLOYAGENT_REGISTRY_AUTH_PASS"; ev_Value := regPass |};
                     {| ev_Name := "DEPLOYAGENT_REGISTRY_ADDRESS"; ev_Value := regDomain |} ];
                 c_SecurityContext := None;
                 c_VolumeMounts :=
                   [ {| vm_Name := "dockersock"; vm_MountPath := dockerSockPath |};
                     {| vm_Name := "intercontainer"; vm_MountPath := buildIntercontainerPath |} ];
                 c_Stdin := true;
                 c_StdinOnce := true;
                 c_ReadinessProbe := None;
                 c_LivenessProbe := None;
                 c_Limits := ∅;
                 c_Requests := ∅;
                 c_Ports := [] |} ] |} |}.

(** [runInspectSidecar] up to the creation of the pod. *)
Definition runInspectSidecar_create (params : inspectParams) (destination0 : string) : M Pod :=
  let* _ := ensureServiceAccountForApp (ip_app params) in
  let* labels := lift (ServiceLabels (ip_app params) true tsuruLabelPrefix provisionerName) in
  let '(labels, annotations) := SplitServiceLabelsAnnotations labels in
  let annotations := SetBuildImage annotations destination0 in
  let kubeConf := getKubeConfig in
  let* pullSecrets :=
    getImagePullSecrets [ip_sourceImage params; DeploySidecarImage kubeConf] in
  let* cl := get_client in
  let pod := runInspectSidecar_pod params destination0 labels annotations pullSecrets cl in
  let* created := attempt (Pods_Create pod) in
  match created with
  | Err e => fail (WithStack e)
  | Ok _ => ret pod
  end.

(** Returns what reached [params.stdout] and [params.stderr] together with
    the error of the Go function. *)
Definition runInspectSidecar (params : inspectParams) : M (string * string * option error) :=
  match ip_destinationImages params with
  | [] => ret (EmptyString, EmptyString, Some (Errorf "no destination images provided" []))
  | destination0 :: _ =>
      let* created := attempt (runInspectSidecar_create params destination0) in
      match created with
      | Err e => ret (EmptyString, EmptyString, Some e)
      | Ok pod =>
          let podName := om_Name (pod_Meta pod) in
          let kubeConf := getKubeConfig in
          let* cl := get_client in
          let multiErr :=
            match waitForPodContainersRunning cl podName (PodRunningTimeout kubeConf) with
            | Some e => [WithStack e]
            | None => []
            end in
          let* (out, errOut, err) := doAttach (Some ".") podName "inspect-cont" false in
          let multiErr :=
            match err with
            | Some e => multiErr ++ [WithStack e]
            | None => multiErr
            end in
          let* cl := get_client in
          let returned :=
            if Nat.ltb 0 (length multiErr) then Some (MultiError multiErr)
            else waitForPod cl podName false (PodReadyTimeout kubeConf) in
          let* _ := cleanupPod podName in
          ret (out, errOut, returned)
      end
  end.

(** [imageTagAndPush] once [runInspectSidecar] has returned. *)
Definition imageTagAndPush_decode (inspected : string * string * option error)
    : M InspectData :=
  let '(stdout, stderr, err) := inspected in
  match err with
  | Some e =>
      fail (Wrapf e "unable to pull and tag image: stdout: %q, stderr: %q"
              [ArgString stdout; ArgString stderr])
  | None =>
      match json_Decode stdout with
      | Err e => fail (Wrapf e "invalid image inspect response: %q" [ArgString stdout])
      | Ok data => ret data
      end
  end.

Definition imageTagAndPush (a : App) (oldImage newImage : string) : M InspectData :=
  let* deployPodName := lift (deployPodNameForApp a) in
  let* labels := lift (ServiceLabels a true tsuruLabelPrefix provisionerName) in
  let destImages := [newImage] in
  let '(repository, tag) := SplitImageName newImage in
  let destImages :=
    if negb (String.eqb tag "latest") then destImages ++ [repository +:+ ":latest"]
    else destImages in
  let* inspected :=
    runInspectSidecar {| ip_sourceImage := oldImage;
                         ip_podName := deployPodName;
                         ip_destinationImages := destImages;
                         ip_labels := labels;
                         ip_app := a |} in
  imageTagAndPush_decode inspected.

End Deploy.

(** ** Observations on a run *)

(** The requests [m] issues when it is run on [cl]. *)
Definition issued {A} (m : M A) (cl : ClusterClient) : list Action :=
  drop (length (cc_Actions cl)) (cc_Actions (m cl).1.1).

Definition result_of {A} (m : M A) (cl : ClusterClient) : outcome A := (m cl).2.

Definition output_of {A} (m : M A) (cl : ClusterClient) : list Line := (m cl).1.2.

(** Every request [m] issues satisfies [P], and [m] only appends to the list
    of requests. *)
Definition issues {A} (P : Action -> Prop) (m : M A) : Prop :=
  forall cl, exists new, cc_Actions (m cl).1.1 = cc_Actions cl ++ new /\ Forall P new.




(** Every pod a request carries satisfies [Q]. *)
Definition podsSatisfy (Q : Pod -> Prop) (a : Action) : Prop :=
  forall p, act_Object a = Some (ObjPod p) -> Q p.

Definition rollbackOf (name : string) : Action :=
  {| act_Verb := VerbRollback; act_Resource := ResDeployments; act_Name := name;
     act_Object := None |}.

(** The path at which a container mounts the scratch volume that holds the
    sentinel file. *)
Definition sentinelMount (c : Container) : option string :=
  vm_MountPath <$> List.find (fun m => String.eqb (vm_Name m) "intercontainer") (c_VolumeMounts c).

(** A pod of exactly two containers that both mount the sentinel volume at
    [path]. *)
Definition sidecarShape (path : string) (p : Pod) : Prop :=
  exists target sidecar,
    ps_Containers (pod_Spec p) = [target; sidecar]
    /\ sentinelMount target = Some path
    /\ sentinelMount sidecar = Some path.

Definition envOf (name : string) (c : Container) : option string :=
  ev_Value <$> List.find (fun e => String.eqb (ev_Name e) name) (c_Env c).

(** The destination images a pod hands to its sidecar. *)
Definition destinationImagesOf (p : Pod) : option string :=
  match ps_Containers (pod_Spec p) with
  | [_; sidecar] => envOf "DEPLOYAGENT_DESTINATION_IMAGES" sidecar
  | _ => None
  end.

(** [readyUnits] and [pendingTermination] of the convergence loop, on a
    status, and its exit test. *)
Definition readyUnitsOf (s : DeploymentStatus) : Z :=
  Go.sub32 (st_UpdatedReplicas s) (st_UnavailableReplicas s).

Definition pendingTerminationOf (s : DeploymentStatus) : Z :=
  Go.sub32 (st_Replicas s) (st_UpdatedReplicas s).

Definition converged (specReplicas : Z) (s : DeploymentStatus) : Prop :=
  readyUnitsOf s = specReplicas /\ st_Replicas s = specReplicas.

(** Some line of [out] was written with [format]. *)
Definition emits (format : string) (out : list Line) : Prop :=
  exists args, In (Fprintf format args) out.

(** A username or a password is configured for the registry. *)
Definition credentialsConfigured (cfg : Config) : Prop :=
  docker_registry_auth_username cfg <> EmptyString
  \/ docker_registry_auth_password cfg <> EmptyString.


Section Observations.

Context `{Collaborators}.
Variable cfg : Config.




(** Whether one pass over a status arms the health-check timer. *)
Definition armsTimer (a : App) (pn : string) (spec : Z) (st : rollout) (s : DeploymentStatus)
    (cl : ClusterClient) : bool :=
  match healthcheckTimeout st with
  | Some _ => false
  | None =>
      Z.eqb (st_UpdatedReplicas s) spec
      && match allNewPodsRunning cl a pn (st_ObservedGeneration s) with
         | (true, None) => true
         | _ => false
         end
  end.

(** The lines one pass over a status writes, in the order of the source. *)
Definition statusLines (spec : Z) (st : rollout) (s : DeploymentStatus) (armedNow : bool)
    : list Line :=
  (if negb (Z.eqb (oldUpdatedReplicas st) (st_UpdatedReplicas s))
   then [Fprintf updatedLine [ArgInt (st_UpdatedReplicas s); ArgInt spec]] else [])
  ++ (if armedNow then [Fprintf healthcheckLine [ArgInt spec]] else [])
  ++ (if negb (Z.eqb (oldReadyUnits st) (readyUnitsOf s)) && Z.leb 0 (readyUnitsOf s)
      then [Fprintf readyLine [ArgInt (readyUnitsOf s); ArgInt spec]] else [])
  ++ (if negb (Z.eqb (oldPendingTermination st) (pendingTerminationOf s))
         && Z.ltb 0 (pendingTerminationOf s)
      then [Fprintf pendingLine [ArgInt (pendingTerminationOf s)]] else []).

(** The local variables after one pass over a status. *)
Definition statusNext (maxWait : Z) (st : rollout) (s : DeploymentStatus) (armedNow : bool)
    : rollout :=
  {| oldUpdatedReplicas := st_UpdatedReplicas s;
     oldReadyUnits := readyUnitsOf s;
     oldPendingTermination := pendingTerminationOf s;
     healthcheckTimeout :=
       match healthcheckTimeout st with
       | Some armed => Some armed
       | None => if armedNow then Some maxWait else None
       end;
     watchCh := watchCh st |}.

Definition deadlineError (dep : Deployment) : error :=
  Errorf "deployment %q exceeded its progress deadline" [ArgString (om_Name (dep_Meta dep))].

End Observations.

(** ** [RemoveService]

    The method calls [cleanupDeployment], a helper of the package that removes
    the deployment with its replica sets and pods, and collects errors in a
    [MultiError] of the repository's package errors.  Both live outside
    deploy.go and are parameters: what [cleanupDeployment] does to the cluster
    and which error [ToError] makes of the collected ones is left open. *)
Class RemovalCollaborators : Type := {
  cleanupDeployment : ClusterClient -> App -> string -> ClusterClient * option error;
  MultiError_ToError : list error -> option error;
}.

Definition Services_Delete (name : string) : M unit :=
  invoke {| act_Verb := VerbDelete; act_Resource := ResServices; act_Name := name;
            act_Object := None |}
    (fun t => match tr_Services t !! name with
              | Some _ => (with_Services (delete name) t, Ok tt)
              | None => (t, Err (NewNotFound "services" name))
              end).

Section Removal.

Context `{Collaborators} `{RemovalCollaborators}.

(** [multiErrors.Add(wrap(err))] under [err != nil && !IsNotFound(err)]. *)
Definition addUnlessNotFound (multiErrors : list error) (wrap : error -> error)
    (err : option error) : list error :=
  match err with
  | Some e => if negb (IsNotFound e) then multiErrors ++ [wrap e] else multiErrors
  | None => multiErrors
  end.

Definition RemoveService (a : App) (process : string) : M unit :=
  let multiErrors : list error := [] in
  let* err := (fun cl => let '(cl1, err) := cleanupDeployment cl a process in
                         (cl1, [], Returns err)) in
  let multiErrors := addUnlessNotFound multiErrors (fun e => e) err in
  let depName := deploymentNameForApp a process in
  let* deleted := attempt (Services_Delete depName) in
  let multiErrors := addUnlessNotFound multiErrors WithStack (result_error deleted) in
  let headlessSvcName := headlessServiceNameForApp a process in
  let* deleted := attempt (Services_Delete headlessSvcName) in
  let multiErrors := addUnlessNotFound multiErrors WithStack (result_error deleted) in
  check (MultiError_ToError multiErrors).

End Removal.

(** ** More observations on a run *)

(** The controllers of the cluster leave the store alone. *)
Definition idleControllers (cl : ClusterClient) : Prop :=
  forall history t, cc_Background cl history t = t.

(** The reactor fails no request. *)
Definition noFaults (cl : ClusterClient) : Prop :=
  forall history a, cc_Reactor cl history a = None.

(** [cl'] is the client [cl] after some requests: the namespace, the
    controllers and the reactor are those of [cl]. *)
Definition sameCluster (cl cl' : ClusterClient) : Prop :=
  cc_Namespace cl' = cc_Namespace cl
  /\ cc_Background cl' = cc_Background cl
  /\ cc_Reactor cl' = cc_Reactor cl.

(** [m] changes nothing of the client but its store and its list of
    requests. *)
Definition stable {A} (m : M A) : Prop := forall cl, sameCluster cl (m cl).1.1.

(** Every line [m] writes satisfies [L]. *)
Definition writes {A} (L : Line -> Prop) (m : M A) : Prop :=
  forall cl, Forall L (m cl).1.2.


(** Every deployment a request carries satisfies [Q], with the verb of the
    request. *)
Definition deploymentsSatisfy (Q : Verb -> Deployment -> Prop) (a : Action) : Prop :=
  forall d, act_Object a = Some (ObjDeployment d) -> Q (act_Verb a) d.

Definition deleteOf (resource : Resource) (name : string) : Action :=
  {| act_Verb := VerbDelete; act_Resource := resource; act_Name := name; act_Object := None |}.

(** The sidecar of a pod of two containers. *)
Definition sidecarOf (p : Pod) : option Container :=
  match ps_Containers (pod_Spec p) with
  | [_; sidecar] => Some sidecar
  | _ => None
  end.

(** The registry user, password and address a pod hands to its sidecar. *)
Definition registryEnvOf (p : Pod) : option (string * string * string) :=
  match sidecarOf p with
  | Some sidecar =>
      match envOf "DEPLOYAGENT_REGISTRY_AUTH_USER" sidecar,
            envOf "DEPLOYAGENT_REGISTRY_AUTH_PASS" sidecar,
            envOf "DEPLOYAGENT_REGISTRY_ADDRESS" sidecar with
      | Some user, Some pass, Some address => Some (user, pass, address)
      | _, _, _ => None
      end
  | None => None
  end.

(** The only container of the pods of a deployment. *)
Definition containerOf (d : Deployment) : option Container :=
  match ps_Containers (ds_TemplateSpec (dep_Spec d)) with
  | [c] => Some c
  | _ => None
  end.

Definition doneLine : string := " ---> Done updating units" +:+ nl.
Definition podNotReadyLine : string := " ---> Pod not ready in time: %s" +:+ nl.

(** The error of [createDeployTimeoutError] for the timer [label]. *)
Definition isTimeoutOf (label : string) (e : error) : Prop :=
  exists timeout part,
    e = Errorf "timeout waiting %s after %v waiting for units%s"
          [ArgString label; ArgDuration timeout; ArgString part].

(** The errors the cluster answers with are API status errors. *)
Definition statusFaults (cl : ClusterClient) : Prop :=
  forall history a e, cc_Reactor cl history a = Some e -> exists reason message,
    e = StatusError reason message.

(** Every value [m] returns satisfies [R]. *)
Definition yields {A} (R : A -> Prop) (m : M A) : Prop :=
  forall cl cl' out a, m cl = (cl', out, Returns a) -> R a.

Section DeploymentObservations.

Context `{Collaborators}.

(** [probe] is what [createAppDeployment] computes for the process of an
    image: the probe of the health check of the image for its web process,
    none for another process. *)
Definition probeFor (process imageName : string) (probe : option Probe) : Prop :=
  exists webProcessName,
    GetImageWebProcessName imageName = Ok webProcessName
    /\ if String.eqb process webProcessName
       then exists hc,
              GetImageTsuruYamlData imageName = Ok hc
              /\ probeFromHC hc (getTargetPortForImage imageName) = Ok probe
       else probe = None.

(** [limits] and [requests] are the resource lists [createAppDeployment]
    computes for an application: empty without declared memory, the memory
    and its quotient by the overcommit factor of the pool otherwise. *)
Definition resourcesFor (a : App) (limits requests : gmap string Z) : Prop :=
  if Z.eqb (app_Memory a) 0 then limits = ∅ /\ requests = ∅
  else exists cl overcommit request,
         OvercommitFactor cl (app_Pool a) = (overcommit, None)
         /\ Go.div64 (app_Memory a) overcommit = Some request
         /\ limits = {[ ResourceMemory := app_Memory a ]}
         /\ requests = {[ ResourceMemory := request ]}.

End DeploymentObservations.


(** When [m] returns, the client it leaves and the value it returns satisfy
    [Post]. *)
Definition ensures {A} (Post : ClusterClient -> A -> Prop) (m : M A) : Prop :=
  forall cl cl' out a, m cl = (cl', out, Returns a) -> Post cl' a.

Definition headerLine : string := nl +:+ "---- Updating units [%s] ----" +:+ nl.
Definition eventLine : string := "  ---> %s" +:+ nl.

(** The lines [monitorDeployment] writes before it is done: the header, the
    lines of the three counters and of the health-check timer, the events of
    the deployment, and the messages of the pods that are not ready. *)
Inductive progressLine : Line -> Prop :=
| line_header processName : progressLine (Fprintf headerLine [ArgString processName])
| line_updated updated spec : progressLine (Fprintf updatedLine [ArgInt updated; ArgInt spec])
| line_healthcheck spec : progressLine (Fprintf healthcheckLine [ArgInt spec])
| line_ready ready spec :
    0 <= ready -> progressLine (Fprintf readyLine [ArgInt ready; ArgInt spec])
| line_pending pending :
    0 < pending -> progressLine (Fprintf pendingLine [ArgInt pending])
| line_event message : progressLine (Fprintf eventLine [ArgString message])
| line_podNotReady message : progressLine (Fprintf podNotReadyLine [ArgString message]).

(** The requests of the monitor: the watch on events, the read of a
    deployment. *)
Definition monitorRequest (a : Action) : Prop :=
  act_Object a = None
  /\ (act_Verb a = VerbWatch /\ act_Resource a = ResEvents
      \/ act_Verb a = VerbGet /\ act_Resource a = ResDeployments).

(** A computation of the monitor that writes progress lines and, exactly when
    it returns [Completed], the closing line after them. *)
Definition endsWithDone (m : M Completion) : Prop :=
  forall cl,
    match (m cl).2 with
    | Returns Completed =>
        exists lines, (m cl).1.2 = lines ++ [Fprintf doneLine []] /\ Forall progressLine lines
    | _ => Forall progressLine (m cl).1.2
    end.




(** A request that leaves the services alone. *)
Definition noService (a : Action) : Prop := act_Resource a <> ResServices.

(** The error a call ended with, if any. *)
Definition outcome_error {A} (o : outcome A) : option error :=
  match o with
  | Errors e => Some e
  | _ => None
  end.

(** The string holds no slash. *)
Definition noSlash (s : string) : Prop := ~ In "/"%char (list_ascii_of_string s).

(** A select that delivers from the event watch. *)
Definition isWatchSelect (s : Select) : bool :=
  match s with
  | WatchMessage _ | WatchClosed => true
  | _ => false
  end.

(** The local variables once the channel of the watch is set to nil. *)
Definition closeWatch (st : rollout) : rollout :=
  {| oldUpdatedReplicas := oldUpdatedReplicas st;
     oldReadyUnits := oldReadyUnits st;
     oldPendingTermination := oldPendingTermination st;
     healthcheckTimeout := healthcheckTimeout st;
     watchCh := false |}.

(** ** A concrete cluster, used to run the functions on examples *)

Module Demo.

(** [image.SplitImageName] as the examples need it: the tag is what follows
    the last colon, unless a slash follows that colon. *)
Definition splitImageName (imageName : string) : string * string :=
  match rev (Go.Split imageName ":"%char) with
  | [] | [_] => (imageName, "latest")
  | last :: before =>
      match Go.Split last "/"%char with
      | [_] => (Go.Join (rev before) ":", last)
      | _ => (imageName, "latest")
      end
  end.

Definition collaborators (overcommit : Z * option error) : Collaborators :=
  {| tsuruLabelPrefix := "tsuru.io/";
     provisionerName := "kubernetes";
     registrySecretName := fun registry => "registry-" +:+ registry;
     deploymentNameForApp := fun a process => app_Name a +:+ "-" +:+ process;
     headlessServiceNameForApp := fun a process => app_Name a +:+ "-" +:+ process +:+ "-units";
     serviceAccountNameForApp := fun a => "app-" +:+ app_Name a;
     buildPodNameForApp := fun a _ => Ok (app_Name a +:+ "-build");
     deployPodNameForApp := fun a => Ok (app_Name a +:+ "-deploy");
     labelSetFromMeta := fun meta => {| ls_Labels := om_Labels meta; ls_Prefix := "tsuru.io/" |};
     waitForPodContainersRunning := fun _ _ _ => None;
     waitForPod := fun _ _ _ _ => None;
     notReadyPodEvents := fun _ _ _ => Ok [];
     allNewPodsRunning := fun _ _ _ _ => (true, None);
     getKubeConfig :=
       {| DeploySidecarImage := "tsuru/deploy-agent:0.8.4";
          DeployInspectImage := "tsuru/deploy-agent:0.8.4";
          PodRunningTimeout := 600 * Second;
          PodReadyTimeout := 60 * Second;
          DeploymentProgressTimeout := 600 * Second |};
     createVolumesForApp := fun _ _ => Ok ([], []);
     ensureNodeContainers := None;
     OvercommitFactor := fun _ _ => overcommit;
     NewClusterClient := fun _ => None;
     SetTimeout := fun _ => None;
     ServiceLabels := fun a _ prefix _ =>
       Ok {| ls_Labels := {[ "app-name" := app_Name a ]}; ls_Prefix := prefix |};
     ServiceAccountLabels := fun a _ prefix =>
       {| ls_Labels := {[ "app-name" := app_Name a ]}; ls_Prefix := prefix |};
     ExtendServiceLabels := fun labels _ _ => labels;
     SplitServiceLabelsAnnotations := fun labels =>
       (labels, {| ls_Labels := ∅; ls_Prefix := ls_Prefix labels |});
     SetBuildImage := fun annotations image =>
       {| ls_Labels := <[ "build-image" := image ]> (ls_Labels annotations);
          ls_Prefix := ls_Prefix annotations |};
     SetIsHeadlessService := fun labels =>
       {| ls_Labels := <[ "is-headless-service" := "true" ]> (ls_Labels labels);
          ls_Prefix := ls_Prefix labels |};
     ToLabels := ls_Labels;
     ToSelector := ls_Labels;
     ToNodeByPoolSelector := fun pool _ => {[ "pool" := pool ]};
     EnvsForApp := fun _ _ _ => [];
     WebProcessDefaultPort := "8888";
     DefaultHealthcheckScheme := "http";
     SplitImageName := splitImageName;
     GetImageWebProcessName := fun _ => Ok "web";
     GetImageTsuruYamlData := fun _ =>
       Ok {| hc_Path := EmptyString; hc_Scheme := EmptyString; hc_Method := EmptyString;
             hc_AllowedFailures := 0 |};
     GetImageExposedPort := fun _ => EmptyString;
     ArchiveBuildCmds := fun _ archive => ["download " +:+ archive; "extract"; "build"];
     DeployCmds := fun _ => ["/bin/sh"; "-lc"; "tsuru_unit_agent deploy-only"];
     LeanContainerCmdsWithExtra := fun _ _ _ extra => Ok (["/bin/sh"; "-lc"] ++ extra);
     UserForContainer := ("ubuntu", Some 1000);
     base64_EncodeToString := fun s => "base64(" +:+ s +:+ ")";
     json_Marshal := fun _ => Ok "{auths}";
     json_Decode := fun s =>
       Ok {| data_Image := s; data_TsuruYaml := EmptyString; data_Procfile := EmptyString |};
     strconv_Atoi := fun _ => 8888;
     strconv_FormatInt := fun _ => "1000";
     strings_ToUpper := fun s => s;
     rest_RESTClientFor := None;
     rest_TLSConfigFor := None;
     rest_HTTPWrappersForConfig := None;
     remotecommand_NewSPDYExecutorForTransports := None;
     exec_Stream := fun _ _ _ _ _ => (EmptyString, EmptyString, None) |}.

Definition config : Config :=
  {| docker_registry := "registry.example.com";
     docker_registry_auth_username := "user";
     docker_registry_auth_password := "secret";
     docker_healthcheck_max_time := 0;
     host := "tsuru.example.com" |}.

Definition configNoAuth : Config :=
  {| docker_registry := "registry.example.com";
     docker_registry_auth_username := EmptyString;
     docker_registry_auth_password := EmptyString;
     docker_healthcheck_max_time := 0;
     host := "tsuru.example.com" |}.

Definition emptyTracker : Tracker :=
  {| tr_Secrets := ∅;
     tr_ServiceAccounts := ∅;
     tr_Pods := ∅;
     tr_Deployments := ∅;
     tr_Services := ∅;
     tr_EventsResourceVersion := "1" |}.

(** A cluster whose controllers do nothing and whose reactor is [reactor]. *)
Definition clusterWith (reactor : list Action -> Action -> option error)
    (t : Tracker) : ClusterClient :=
  {| cc_Namespace := "default";
     cc_Tracker := t;
     cc_Background := fun _ t => t;
     cc_Reactor := reactor;
     cc_Actions := [] |}.

Definition cluster : ClusterClient := clusterWith (fun _ _ => None) emptyTracker.

(** A cluster that holds the deployment [d] and nothing else. *)
Definition clusterHolding (d : Deployment) : ClusterClient :=
  clusterWith (fun _ _ => None)
    (with_Deployments (insert (om_Name (dep_Meta d)) d) emptyTracker).


Definition myapp : App :=
  {| app_Name := "myapp"; app_Pool := "pool1"; app_Memory := 536870912; app_Envs := ∅ |}.

Definition collab : Collaborators := collaborators (2, None).

(** The same collaborators, with an overcommit factor of 0 for every pool. *)
Definition collabZeroOvercommit : Collaborators := collaborators (0, None).


(** A reactor that refuses every read of a deployment. *)
Definition forbidDeploymentGet (history : list Action) (a : Action) : option error :=
  match act_Verb a, act_Resource a with
  | VerbGet, ResDeployments => Some (StatusError StatusReasonForbidden "deployments is forbidden")
  | _, _ => None
  end.

Definition labels : LabelSet :=
  {| ls_Labels := {[ "app-name" := "myapp" ]}; ls_Prefix := "tsuru.io/" |}.

Definition emptyPodSpec : PodSpec :=
  {| ps_ImagePullSecrets := [];
     ps_ServiceAccountName := "app-myapp";
     ps_SecurityContext := None;
     ps_NodeSelector := ∅;
     ps_Volumes := [];
     ps_RestartPolicy := RestartPolicyAlways;
     ps_Subdomain := EmptyString;
     ps_Containers := [] |}.

(** The deployment [myapp-web], its generation observed, with [replicas]
    desired replicas and the status [status]. *)
Definition deployment (replicas : Z) (status : DeploymentStatus) : Deployment :=
  {| dep_Meta := {| om_Name := "myapp-web"; om_Namespace := "default";
                    om_Labels := ∅; om_Annotations := ∅ |};
     dep_Generation := 1;
     dep_Spec :=
       {| ds_MaxSurge := FromString "100%";
          ds_MaxUnavailable := FromInt 0;
          ds_Replicas := Some replicas;
          ds_RevisionHistoryLimit := Some 10;
          ds_Selector := ∅;
          ds_TemplateMeta := {| om_Name := EmptyString; om_Namespace := EmptyString;
                                om_Labels := ∅; om_Annotations := ∅ |};
          ds_TemplateSpec := emptyPodSpec |};
     dep_Status := status |}.

Definition deadlineExceededCondition : DeploymentCondition :=
  {| cond_Type := "Progressing"; cond_Reason := "ProgressDeadlineExceeded" |}.

(** A condition of another type that carries the same reason. *)
Definition availableCondition : DeploymentCondition :=
  {| cond_Type := "Available"; cond_Reason := "ProgressDeadlineExceeded" |}.

Definition podParams (cmds : list string) : createPodParams :=
  {| cp_app := myapp;
     cp_podName := "myapp-v2-build";
     cp_cmds := cmds;
     cp_sourceImage := "tsuru/python";
     cp_destinationImages := ["tsuru/app-myapp:v2"];
     cp_inputFile := "/home/application/archive.tar.gz";
     cp_attachInput := None |}.

Definition inspectionParams : inspectParams :=
  {| ip_sourceImage := "tsuru/app-myapp:v1";
     ip_podName := "myapp-deploy";
     ip_destinationImages := ["tsuru/app-myapp:v2"];
     ip_labels := labels;
     ip_app := myapp |}.

Definition statusOf (replicas updated unavailable : Z)
    (conditions : list DeploymentCondition) : DeploymentStatus :=
  {| st_ObservedGeneration := 1;
     st_Replicas := replicas;
     st_UpdatedReplicas := updated;
     st_UnavailableReplicas := unavailable;
     st_Conditions := conditions |}.


(** [strconv.Atoi] on decimal digits; as the call sites drop its error, what
    is not a number reads as 0. *)
Fixpoint atoi_digits (s : string) (acc : Z) : option Z :=
  match s with
  | EmptyString => Some acc
  | String c rest =>
      let n := Z.of_N (N_of_ascii c) in
      if Z.leb 48 n && Z.leb n 57 then atoi_digits rest (10 * acc + (n - 48)) else None
  end.

Definition atoi (s : string) : Z :=
  match s with
  | EmptyString => 0
  | _ => default 0 (atoi_digits s 0)
  end.

(** The collaborators of [collab] for an image whose health check is [hc]
    and whose exposed port is [exposedPort], on a cluster whose pods that
    are not ready report [notReady]. *)
Definition variant (hc : TsuruYamlHealthcheck) (exposedPort : string)
    (notReady : result (list string)) : Collaborators :=
  {| tsuruLabelPrefix := @tsuruLabelPrefix collab;
     provisionerName := @provisionerName collab;
     registrySecretName := @registrySecretName collab;
     deploymentNameForApp := @deploymentNameForApp collab;
     headlessServiceNameForApp := @headlessServiceNameForApp collab;
     serviceAccountNameForApp := @serviceAccountNameForApp collab;
     buildPodNameForApp := @buildPodNameForApp collab;
     deployPodNameForApp := @deployPodNameForApp collab;
     labelSetFromMeta := @labelSetFromMeta collab;
     waitForPodContainersRunning := @waitForPodContainersRunning collab;
     waitForPod := @waitForPod collab;
     notReadyPodEvents := fun _ _ _ => notReady;
     allNewPodsRunning := @allNewPodsRunning collab;
     getKubeConfig := @getKubeConfig collab;
     createVolumesForApp := @createVolumesForApp collab;
     ensureNodeContainers := @ensureNodeContainers collab;
     OvercommitFactor := @OvercommitFactor collab;
     NewClusterClient := @NewClusterClient collab;
     SetTimeout := @SetTimeout collab;
     ServiceLabels := @ServiceLabels collab;
     ServiceAccountLabels := @ServiceAccountLabels collab;
     ExtendServiceLabels := @ExtendServiceLabels collab;
     SplitServiceLabelsAnnotations := @SplitServiceLabelsAnnotations collab;
     SetBuildImage := @SetBuildImage collab;
     SetIsHeadlessService := @SetIsHeadlessService collab;
     ToLabels := @ToLabels collab;
     ToSelector := @ToSelector collab;
     ToNodeByPoolSelector := @ToNodeByPoolSelector collab;
     EnvsForApp := @EnvsForApp collab;
     WebProcessDefaultPort := @WebProcessDefaultPort collab;
     DefaultHealthcheckScheme := @DefaultHealthcheckScheme collab;
     SplitImageName := @SplitImageName collab;
     GetImageWebProcessName := @GetImageWebProcessName collab;
     GetImageTsuruYamlData := fun _ => Ok hc;
     GetImageExposedPort := fun _ => exposedPort;
     ArchiveBuildCmds := @ArchiveBuildCmds collab;
     DeployCmds := @DeployCmds collab;
     LeanContainerCmdsWithExtra := @LeanContainerCmdsWithExtra collab;
     UserForContainer := @UserForContainer collab;
     base64_EncodeToString := @base64_EncodeToString collab;
     json_Marshal := @json_Marshal collab;
     json_Decode := @json_Decode collab;
     strconv_Atoi := atoi;
     strconv_FormatInt := @strconv_FormatInt collab;
     strings_ToUpper := @strings_ToUpper collab;
     rest_RESTClientFor := @rest_RESTClientFor collab;
     rest_TLSConfigFor := @rest_TLSConfigFor collab;
     rest_HTTPWrappersForConfig := @rest_HTTPWrappersForConfig collab;
     remotecommand_NewSPDYExecutorForTransports := @remotecommand_NewSPDYExecutorForTransports collab;
     exec_Stream := @exec_Stream collab |}.

Definition healthcheck (method : string) : TsuruYamlHealthcheck :=
  {| hc_Path := "/healthcheck"; hc_Scheme := EmptyString; hc_Method := method;
     hc_AllowedFailures := 3 |}.

(** Controllers that roll out every deployment at once: its generation is
    observed, and all the replicas it asks for are updated and available. *)
Definition rolledOut (d : Deployment) : Deployment :=
  {| dep_Meta := dep_Meta d;
     dep_Generation := dep_Generation d;
     dep_Spec := dep_Spec d;
     dep_Status :=
       {| st_ObservedGeneration := dep_Generation d;
          st_Replicas := default 0 (ds_Replicas (dep_Spec d));
          st_UpdatedReplicas := default 0 (ds_Replicas (dep_Spec d));
          st_UnavailableReplicas := 0;
          st_Conditions := [] |} |}.

Definition rolloutController (history : list Action) (t : Tracker) : Tracker :=
  with_Deployments (fmap rolledOut) t.

Definition clusterRollingOut : ClusterClient :=
  {| cc_Namespace := "default";
     cc_Tracker := emptyTracker;
     cc_Background := rolloutController;
     cc_Reactor := fun _ _ => None;
     cc_Actions := [] |}.

(** The deployment [d] as the cluster has not observed it yet. *)
Definition unobserved (d : Deployment) : Deployment :=
  {| dep_Meta := dep_Meta d;
     dep_Generation := dep_Generation d;
     dep_Spec := dep_Spec d;
     dep_Status :=
       {| st_ObservedGeneration := dep_Generation d - 1;
          st_Replicas := st_Replicas (dep_Status d);
          st_UpdatedReplicas := st_UpdatedReplicas (dep_Status d);
          st_UnavailableReplicas := st_UnavailableReplicas (dep_Status d);
          st_Conditions := st_Conditions (dep_Status d) |} |}.

(** [cleanupDeployment] that deletes the deployment of the process, and a
    [ToError] that answers nil for no error, the error for one, and the multi
    error for more. *)
Definition removal : RemovalCollaborators :=
  {| cleanupDeployment := fun cl a process =>
       let name := app_Name a +:+ "-" +:+ process in
       match tr_Deployments (cc_Tracker cl) !! name with
       | Some _ => (with_Tracker (with_Deployments (delete name) (cc_Tracker cl)) cl, None)
       | None => (cl, Some (NewNotFound "deployments" name))
       end;
     MultiError_ToError := fun errs =>
       match errs with
       | [] => None
       | [e] => Some e
       | _ => Some (MultiError errs)
       end |}.

(** A reactor that refuses every deletion of a service. *)
Definition refuseServiceDelete (history : list Action) (a : Action) : option error :=
  match act_Verb a, act_Resource a with
  | VerbDelete, ResServices => Some (StatusError StatusReasonForbidden "services is forbidden")
  | _, _ => None
  end.

End Demo.


(** * Theorems *)

(** ** The Go primitives on examples *)

Example Split_image_reference :
  Go.Split "registry.example.com/tsuru/app:v1" "/"%char
  = ["registry.example.com"; "tsuru"; "app:v1"].
Proof. reflexivity. Qed.

Example Split_empty_string : Go.Split EmptyString "/"%char = [EmptyString].
Proof. reflexivity. Qed.

Example Join_destination_images : Go.Join ["a:v2"; "a:latest"] "," = "a:v2,a:latest".
Proof. reflexivity. Qed.

Example SplitN2_exposed_port :
  SplitN2 "8080/tcp" "/"%char = ["8080"; "tcp"] /\ SplitN2 "8080" "/"%char = ["8080"].
Proof. split; reflexivity. Qed.

Example HasSuffix_slash :
  Go.HasSuffix "http://host/" "/" = true /\ Go.HasSuffix "http://host" "/" = false.
Proof. split; reflexivity. Qed.

Example int32_wraps : Go.int32 (2 ^ 31) = - 2 ^ 31 /\ Go.sub32 (- 2 ^ 31) 1 = 2 ^ 31 - 1.
Proof. split; reflexivity. Qed.

Example div64_truncates :
  Go.div64 (-7) 2 = Some (-3) /\ Go.div64 (- 2 ^ 63) (-1) = Some (- 2 ^ 63)
  /\ Go.div64 5 0 = None.
Proof. repeat split; reflexivity. Qed.

Lemma Split_not_nil (s : string) (sep : ascii) : Go.Split s sep <> [].
Proof.
  induction s as [| c rest IH]; simpl; [discriminate |].
  destruct (Ascii.eqb c sep); [discriminate |].
  destruct (Go.Split rest sep); [contradiction | discriminate].
Qed.

(** ** Requests issued by a computation *)

Section Issues.

Context {A B : Type} (P : Action -> Prop).

Lemma issues_ret (a : A) : issues P (ret a).
Proof. intros cl. exists []. simpl. rewrite app_nil_r. split; [reflexivity | constructor]. Qed.

Lemma issues_fail (e : error) : issues P (@fail A e).
Proof. intros cl. exists []. simpl. rewrite app_nil_r. split; [reflexivity | constructor]. Qed.

Lemma issues_panic (s : string) : issues P (@panic A s).
Proof. intros cl. exists []. simpl. rewrite app_nil_r. split; [reflexivity | constructor]. Qed.

Lemma issues_lift (r : result A) : issues P (lift r).
Proof. destruct r; [apply issues_ret | apply issues_fail]. Qed.

Lemma issues_bind (m : M A) (k : A -> M B) :
  issues P m -> (forall a, issues P (k a)) -> issues P (bind m k).
Proof.
  intros Hm Hk cl. unfold bind.
  destruct (Hm cl) as (n1 & E1 & F1).
  destruct (m cl) as [[cl1 o1] [a | e | s]]; simpl in *.
  - destruct (Hk a cl1) as (n2 & E2 & F2).
    destruct (k a cl1) as [[cl2 o2] r2]; simpl in *.
    exists (n1 ++ n2). rewrite E2, E1, app_assoc. split; [reflexivity |].
    apply Forall_app; auto.
  - exists n1; auto.
  - exists n1; auto.
Qed.

Lemma issues_attempt (m : M A) : issues P m -> issues P (attempt m).
Proof.
  intros Hm cl. unfold attempt. destruct (Hm cl) as (n1 & E1 & F1).
  destruct (m cl) as [[cl1 o1] [a | e | s]]; simpl in *; exists n1; auto.
Qed.

Lemma issues_invoke (a : Action) (handler : Tracker -> Tracker * result A) :
  P a -> issues P (invoke a handler).
Proof.
  intros Pa cl. unfold invoke. exists [a].
  split; [| repeat constructor; assumption].
  destruct (cc_Reactor cl (cc_Actions cl) a); [reflexivity |].
  destruct (handler _) as [t' [v | e]]; reflexivity.
Qed.

End Issues.

Lemma issues_check (P : Action -> Prop) (e : option error) : issues P (check e).
Proof. destruct e; [apply issues_fail | apply issues_ret]. Qed.

Lemma issues_get_client (P : Action -> Prop) : issues P get_client.
Proof. intros cl. exists []. simpl. rewrite app_nil_r. split; [reflexivity | constructor]. Qed.

Lemma issues_tell (P : Action -> Prop) (format : string) (args : list FmtArg) :
  issues P (tell format args).
Proof. intros cl. exists []. simpl. rewrite app_nil_r. split; [reflexivity | constructor]. Qed.

Lemma issues_stream (P : Action -> Prop) (out errOut : string) : issues P (stream out errOut).
Proof. intros cl. exists []. simpl. rewrite app_nil_r. split; [reflexivity | constructor]. Qed.

Lemma issues_when (P : Action -> Prop) (b : bool) (m : M unit) : issues P m -> issues P (when b m).
Proof. intros Hm. destruct b; [assumption | apply issues_ret]. Qed.

Lemma issues_weaken {A} (P Q : Action -> Prop) (m : M A) :
  (forall a, P a -> Q a) -> issues P m -> issues Q m.
Proof.
  intros HPQ Hm cl. destruct (Hm cl) as (new & E & F). exists new. split; [assumption |].
  eapply Forall_impl; eauto.
Qed.

Lemma issues_issued {A} (P : Action -> Prop) (m : M A) (cl : ClusterClient) :
  issues P m -> Forall P (issued m cl).
Proof.
  intros Hm. destruct (Hm cl) as (new & E & F). unfold issued. rewrite E.
  rewrite drop_app_length. assumption.
Qed.

(** One step of a proof that a computation issues only requests in [P]:
    the shape of the computation decides the lemma. *)
Ltac issues_step :=
  match goal with
  | |- issues _ (bind _ _) => apply issues_bind; [| intros]
  | |- issues _ (ret _) => apply issues_ret
  | |- issues _ (fail _) => apply issues_fail
  | |- issues _ (panic _) => apply issues_panic
  | |- issues _ (tell _ _) => apply issues_tell
  | |- issues _ (stream _ _) => apply issues_stream
  | |- issues _ (when _ _) => apply issues_when
  | |- issues _ (lift _) => apply issues_lift
  | |- issues _ (check _) => apply issues_check
  | |- issues _ get_client => apply issues_get_client
  | |- issues _ (attempt _) => apply issues_attempt
  | |- issues _ (invoke _ _) => apply issues_invoke
  | |- issues _ (match ?x with _ => _ end) => destruct x
  end.

Ltac issues_auto := repeat issues_step; auto.


Ltac no_pods := issues_auto; try (intros ? [=]).

Section Requests.

Context `{Collaborators}.
Variable cfg : Config.




Lemma tell_each_issues P format messages : issues P (tell_each format messages).
Proof. induction messages; simpl; issues_auto. Qed.

Lemma createDeployTimeoutError_issues P a processName timeout label :
  issues P (createDeployTimeoutError a processName timeout label).
Proof.
  unfold createDeployTimeoutError. issues_auto. apply tell_each_issues.
Qed.








End Requests.


Section RollbackTheorem.

Context `{Collaborators}.
Variable cfg : Config.


Lemma Deployments_Rollback_actions name cl :
  cc_Actions (Deployments_Rollback name cl).1.1 = cc_Actions cl ++ [rollbackOf name]
  /\ output_of (Deployments_Rollback name) cl = []
  /\ forall s, result_of (Deployments_Rollback name) cl <> Panics s.
Proof.
  unfold Deployments_Rollback, invoke, output_of, result_of.
  destruct (cc_Reactor cl (cc_Actions cl) _); [repeat split; discriminate |].
  destruct (tr_Deployments _ !! name); repeat split; discriminate.
Qed.









End RollbackTheorem.


Section Monitor.

Context `{Collaborators}.
Variable cfg : Config.

Lemma deadlineExceeded_true conditions :
  deadlineExceeded conditions = true
  <-> exists c, In c conditions
                /\ cond_Type c = DeploymentProgressing
                /\ cond_Reason c = deadlineExeceededProgressCond.
Proof.
  induction conditions as [| c rest IH]; simpl.
  - split; [discriminate | intros (c & [] & _)].
  - destruct (String.eqb (cond_Type c) DeploymentProgressing) eqn:Et;
      destruct (String.eqb (cond_Reason c) deadlineExeceededProgressCond) eqn:Er; simpl.
    + apply String.eqb_eq in Et, Er. split; [| reflexivity].
      intros _. exists c. auto.
    + rewrite IH. apply String.eqb_neq in Er.
      split; intros (c' & Hin & Ht & Hr); exists c'; [auto |].
      destruct Hin as [<- | Hin]; [contradiction | auto].
    + rewrite IH. apply String.eqb_neq in Et.
      split; intros (c' & Hin & Ht & Hr); exists c'; [auto |].
      destruct Hin as [<- | Hin]; [contradiction | auto].
    + rewrite IH. apply String.eqb_neq in Et.
      split; intros (c' & Hin & Ht & Hr); exists c'; [auto |].
      destruct Hin as [<- | Hin]; [contradiction | auto].
Qed.

Lemma monitorDeployment_status_deadline a pn spec maxWait st dep cl :
  deadlineExceeded (st_Conditions (dep_Status dep)) = true ->
  monitorDeployment_status a pn spec maxWait st dep cl = (cl, [], Errors (deadlineError dep)).
Proof. intros Hd. unfold monitorDeployment_status. rewrite Hd. reflexivity. Qed.


Lemma monitorDeployment_status_run a pn spec maxWait st dep cl :
  deadlineExceeded (st_Conditions (dep_Status dep)) = false ->
  let s := dep_Status dep in
  let armedNow := armsTimer a pn spec st s cl in
  monitorDeployment_status a pn spec maxWait st dep cl
  = (cl, statusLines spec st s armedNow,
     Returns (statusNext maxWait st s armedNow,
              Z.eqb (readyUnitsOf s) spec && Z.eqb (st_Replicas s) spec)).
Proof.
  intros Hd s armedNow. subst s armedNow.
  unfold monitorDeployment_status, statusLines, statusNext, armsTimer, readyUnitsOf,
    pendingTerminationOf.
  rewrite Hd. unfold bind, when, tell, ret, get_client. cbv beta.
  repeat (match goal with
          | |- context [match ?x with _ => _ end] =>
              lazymatch x with
              | context [match _ with _ => _ end] => fail
              | _ => destruct x eqn:?
              end
          end; cbv beta iota; cbn [andb]).
  all: reflexivity.
Qed.







Lemma monitorDeployment_converge_deadline a pn spec maxWait schedule st dep cl :
  deadlineExceeded (st_Conditions (dep_Status dep)) = true ->
  monitorDeployment_converge a pn spec maxWait schedule st dep cl
  = (cl, [], Errors (deadlineError dep)).
Proof.
  intros Hd. destruct schedule; simpl; unfold bind;
    rewrite monitorDeployment_status_deadline by assumption; reflexivity.
Qed.




(** C4 (amended). At any pass of the convergence loop, a status condition of
    type Progressing whose reason is ProgressDeadlineExceeded makes the
    monitor fail at once with an error that names the deployment: nothing is
    written, nothing is requested, and neither the counters nor the schedule
    matter. *)
Theorem monitorDeployment_progress_deadline_fails a pn spec maxWait schedule st dep cl c :
  In c (st_Conditions (dep_Status dep)) ->
  cond_Type c = DeploymentProgressing ->
  cond_Reason c = deadlineExeceededProgressCond ->
  monitorDeployment_converge a pn spec maxWait schedule st dep cl
  = (cl, [],
     Errors (Errorf "deployment %q exceeded its progress deadline"
               [ArgString (om_Name (dep_Meta dep))])).
Proof.
  intros Hin Ht Hr. apply monitorDeployment_converge_deadline.
  apply deadlineExceeded_true. exists c. auto.
Qed.








End Monitor.


Section Pods.

Context `{Collaborators}.
Variable cfg : Config.

Lemma ensureServiceAccountForApp_pods Q a : issues (podsSatisfy Q) (ensureServiceAccountForApp a).
Proof.
  unfold ensureServiceAccountForApp, ensureServiceAccount, ServiceAccounts_Create. no_pods.
Qed.

Lemma getImagePullSecrets_pods Q images : issues (podsSatisfy Q) (getImagePullSecrets cfg images).
Proof.
  unfold getImagePullSecrets, ensureAuthSecret, Secrets_Update, Secrets_Create. no_pods.
Qed.

Lemma filteredPodEvents_pods Q rv podName : issues (podsSatisfy Q) (filteredPodEvents rv podName).
Proof. unfold filteredPodEvents, Events_Watch. no_pods. Qed.

Lemma doAttach_issues P stdin podName container tty :
  issues P (doAttach stdin podName container tty).
Proof. unfold doAttach. issues_auto. Qed.

Lemma cleanupPod_pods Q podName : issues (podsSatisfy Q) (cleanupPod podName).
Proof. unfold cleanupPod, Pods_Delete. no_pods. Qed.

(** Every pod [createPod] asks the cluster to create is its pod literal. *)
Lemma createPod_pods params :
  issues (podsSatisfy (fun p => exists d0 l an v mo ps c,
                                  p = createPod_pod cfg params d0 l an v mo ps c))
         (createPod cfg params).
Proof.
  unfold createPod, Pods_Create.
  repeat first [ apply ensureServiceAccountForApp_pods | apply getImagePullSecrets_pods
               | apply filteredPodEvents_pods | apply doAttach_issues | issues_step ].
  intros p [= <-]. repeat eexists.
Qed.

Lemma runInspectSidecar_pods params :
  issues (podsSatisfy (fun p => exists d0 l an ps c,
                                  p = runInspectSidecar_pod cfg params d0 l an ps c))
         (runInspectSidecar cfg params).
Proof.
  unfold runInspectSidecar, runInspectSidecar_create, Pods_Create.
  repeat first [ apply ensureServiceAccountForApp_pods | apply getImagePullSecrets_pods
               | apply cleanupPod_pods | apply doAttach_issues | issues_step ].
  intros p [= <-]. repeat eexists.
Qed.

Lemma createPod_pod_shape params d0 l an v mo ps c :
  sidecarShape buildIntercontainerPath (createPod_pod cfg params d0 l an v mo ps c).
Proof.
  unfold sidecarShape, createPod_pod. destruct (registryAuth cfg d0) as [[u pw] d].
  do 2 eexists. split; [reflexivity |]. split; reflexivity.
Qed.

Lemma runInspectSidecar_pod_shape params d0 l an ps c :
  sidecarShape buildIntercontainerPath (runInspectSidecar_pod cfg params d0 l an ps c).
Proof.
  unfold sidecarShape, runInspectSidecar_pod. destruct (registryAuth cfg d0) as [[u pw] d].
  do 2 eexists. split; [reflexivity |]. split; reflexivity.
Qed.

Lemma podsSatisfy_issued {A} Q (m : M A) cl r p :
  issues (podsSatisfy Q) m -> In r (issued m cl) -> act_Object r = Some (ObjPod p) -> Q p.
Proof.
  intros Hm Hin Hobj. pose proof (issues_issued _ m cl Hm) as F.
  rewrite Forall_forall in F. apply (F r); [apply list_elem_of_In; assumption | assumption].
Qed.

(** C6. Every pod that [createPod] or [runInspectSidecar] asks the cluster
    to create has exactly two containers, and both mount the scratch volume
    of the sentinel file at the same path, [buildIntercontainerPath]. *)
Theorem sidecar_pods_have_two_containers :
  (forall params cl r p,
      In r (issued (createPod cfg params) cl) ->
      act_Object r = Some (ObjPod p) ->
      sidecarShape buildIntercontainerPath p)
  /\ (forall params cl r p,
        In r (issued (runInspectSidecar cfg params) cl) ->
        act_Object r = Some (ObjPod p) ->
        sidecarShape buildIntercontainerPath p).
Proof.
  split; intros params cl r p Hin Hobj.
  - destruct (podsSatisfy_issued _ _ cl r p (createPod_pods params) Hin Hobj)
      as (d0 & l & an & v & mo & ps & c & ->).
    apply createPod_pod_shape.
  - destruct (podsSatisfy_issued _ _ cl r p (runInspectSidecar_pods params) Hin Hobj)
      as (d0 & l & an & ps & c & ->).
    apply runInspectSidecar_pod_shape.
Qed.

(** C5. [createPod] with a command list that does not have exactly three
    elements returns an error at once: the cluster is left as it was, and no
    request, hence no creation of a pod, is issued. *)
Theorem createPod_rejects_cmds params cl :
  length (cp_cmds params) <> 3%nat ->
  createPod cfg params cl
  = (cl, [], Errors (Errorf "unexpected cmds list: %#v" [ArgStrings (cp_cmds params)]))
  /\ issued (createPod cfg params) cl = [].
Proof.
  intros Hlen. apply Nat.eqb_neq in Hlen.
  assert (createPod cfg params cl
          = (cl, [], Errors (Errorf "unexpected cmds list: %#v" [ArgStrings (cp_cmds params)])))
    as E by (unfold createPod; rewrite Hlen; reflexivity).
  split; [assumption |].
  unfold issued. rewrite E. cbn [fst]. apply drop_all.
Qed.

(** The build pipeline: when the commands of the archive build are not three,
    [createBuildPod] fails, and the cluster is left as it was. *)
Lemma createBuildPod_rejects_cmds params cl :
  length (ArchiveBuildCmds (cp_app params) "file:///home/application/archive.tar.gz") <> 3%nat ->
  exists e, createBuildPod cfg params cl = (cl, [], Errors e).
Proof.
  intros Hlen. unfold createBuildPod.
  set (cmds := ArchiveBuildCmds _ _) in *.
  assert (forall podName,
             createPod cfg (with_podName_cmds podName cmds params) cl
             = (cl, [], Errors (Errorf "unexpected cmds list: %#v" [ArgStrings cmds]))) as Hpod.
  { intros podName. unfold createPod. cbn [cp_cmds with_podName_cmds].
    apply Nat.eqb_neq in Hlen. rewrite Hlen. reflexivity. }
  destruct (String.eqb (cp_podName params) EmptyString).
  - destruct (buildPodNameForApp (cp_app params) EmptyString) as [podName | e];
      cbn [lift]; unfold bind; cbn [ret fail].
    + rewrite Hpod. eexists. reflexivity.
    + eexists. reflexivity.
  - unfold bind. cbn [ret]. rewrite Hpod. eexists. reflexivity.
Qed.

(** C9. [CurrentLabels] for a deployment the cluster does not hold returns
    nil labels and a nil error, as it does for any not-found answer; any
    other failure of the read is returned as an error. *)
Theorem CurrentLabels_absent_is_not_an_error a process cl :
  let depName := deploymentNameForApp a process in
  let get := {| act_Verb := VerbGet; act_Resource := ResDeployments; act_Name := depName;
                act_Object := None |} in
  (cc_Reactor cl (cc_Actions cl) get = None ->
   tr_Deployments (cc_Background cl (cc_Actions cl) (cc_Tracker cl)) !! depName = None ->
   result_of (CurrentLabels a process) cl = Returns None)
  /\ (forall e,
        result_of (Deployments_Get depName) cl = Errors e ->
        result_of (CurrentLabels a process) cl
        = if IsNotFound e then Returns None else Errors (WithStack e)).
Proof.
  intros depName get. subst get. unfold CurrentLabels. fold depName. split.
  - intros Hr Ha. unfold result_of, bind, attempt, Deployments_Get, invoke.
    rewrite Hr, Ha. reflexivity.
  - intros e. unfold result_of, bind, attempt.
    destruct (Deployments_Get depName cl) as [[cl1 o1] [d | e1 | s]]; cbn [fst snd];
      try discriminate.
    intros [= ->]. destruct (IsNotFound e); reflexivity.
Qed.

End Pods.


Section PullSecrets.

Context `{Collaborators}.
Variable cfg : Config.


Lemma credentials_absent :
  Nat.eqb (String.length (docker_registry_auth_username cfg)) 0
  && Nat.eqb (String.length (docker_registry_auth_password cfg)) 0 = true
  <-> ~ credentialsConfigured cfg.
Proof.
  unfold credentialsConfigured. rewrite andb_true_iff, !Nat.eqb_eq.
  split.
  - intros [Hu Hp] [Hn | Hn]; apply Hn.
    + destruct (docker_registry_auth_username cfg); [reflexivity | discriminate].
    + destruct (docker_registry_auth_password cfg); [reflexivity | discriminate].
  - intros Hn. split.
    + destruct (docker_registry_auth_username cfg) eqn:E; [reflexivity |].
      exfalso. apply Hn. left. discriminate.
    + destruct (docker_registry_auth_password cfg) eqn:E; [reflexivity |].
      exfalso. apply Hn. right. discriminate.
Qed.

Lemma classic_credentials : credentialsConfigured cfg \/ ~ credentialsConfigured cfg.
Proof.
  unfold credentialsConfigured.
  destruct (docker_registry_auth_username cfg) eqn:Eu;
    destruct (docker_registry_auth_password cfg) eqn:Ep.
  - right. intros [Hn | Hn]; apply Hn; reflexivity.
  - left. right. discriminate.
  - left. left. discriminate.
  - left. left. discriminate.
Qed.




End PullSecrets.


Section Images.

Context `{Collaborators}.
Variable cfg : Config.

Lemma bind_ret {A B} (a : A) (k : A -> M B) cl : bind (ret a) k cl = k a cl.
Proof. unfold bind, ret. destruct (k a cl) as [[cl2 out2] r]. reflexivity. Qed.

Lemma createPod_pod_destinationImages params d0 l an v mo ps c :
  destinationImagesOf (createPod_pod cfg params d0 l an v mo ps c)
  = Some (Go.Join (cp_destinationImages params) ",").
Proof.
  unfold destinationImagesOf, createPod_pod. destruct (registryAuth cfg d0) as [[u pw] d].
  reflexivity.
Qed.

Lemma runInspectSidecar_pod_destinationImages params d0 l an ps c :
  destinationImagesOf (runInspectSidecar_pod cfg params d0 l an ps c)
  = Some (Go.Join (ip_destinationImages params) ",").
Proof.
  unfold destinationImagesOf, runInspectSidecar_pod. destruct (registryAuth cfg d0) as [[u pw] d].
  reflexivity.
Qed.

(** C10. [createDeployPod] calls [createPod], and [imageTagAndPush] calls
    [runInspectSidecar], with the destination images they were given followed
    by [repository:latest] when the tag of the first image is not [latest],
    and with nothing more when it is; that list is what the sidecar of every
    pod they create receives. *)
Theorem latest_tag_is_added_to_destination_images :
  (forall params first rest repository tag,
      cp_destinationImages params = first :: rest ->
      SplitImageName first = (repository, tag) ->
      let used := if String.eqb tag "latest" then first :: rest
                  else (first :: rest) ++ [repository +:+ ":latest"] in
      (forall cl,
          createDeployPod cfg params cl
          = (let* podName :=
               if String.eqb (cp_podName params) EmptyString
               then lift (deployPodNameForApp (cp_app params))
               else ret (cp_podName params) in
             createPod cfg
               (with_destinationImages used
                  (with_podName_cmds podName (DeployCmds (cp_app params)) params))) cl)
      /\ (forall cl r p,
            In r (issued (createDeployPod cfg params) cl) ->
            act_Object r = Some (ObjPod p) ->
            destinationImagesOf p = Some (Go.Join used ",")))
  /\ (forall a oldImage newImage repository tag,
        SplitImageName newImage = (repository, tag) ->
        let used := if String.eqb tag "latest" then [newImage]
                    else [newImage] ++ [repository +:+ ":latest"] in
        (forall cl deployPodName labels,
            deployPodNameForApp a = Ok deployPodName ->
            ServiceLabels a true tsuruLabelPrefix provisionerName = Ok labels ->
            imageTagAndPush cfg a oldImage newImage cl
            = (let* inspected :=
                 runInspectSidecar cfg {| ip_sourceImage := oldImage;
                                          ip_podName := deployPodName;
                                          ip_destinationImages := used;
                                          ip_labels := labels;
                                          ip_app := a |} in
               imageTagAndPush_decode inspected) cl)
        /\ (forall cl r p,
              In r (issued (imageTagAndPush cfg a oldImage newImage) cl) ->
              act_Object r = Some (ObjPod p) ->
              destinationImagesOf p = Some (Go.Join used ","))).
Proof.
  split.
  - intros params first rest repository tag Hdest Hsplit used.
    assert (forall podName,
               (if negb (String.eqb tag "latest")
                then with_destinationImages
                       (cp_destinationImages
                          (with_podName_cmds podName (DeployCmds (cp_app params)) params)
                        ++ [repository +:+ ":latest"])
                       (with_podName_cmds podName (DeployCmds (cp_app params)) params)
                else with_podName_cmds podName (DeployCmds (cp_app params)) params)
               = with_destinationImages used
                   (with_podName_cmds podName (DeployCmds (cp_app params)) params)) as Hparams.
    { intros podName. subst used. unfold with_destinationImages, with_podName_cmds.
      cbn [cp_app cp_podName cp_cmds cp_sourceImage cp_destinationImages cp_inputFile
             cp_attachInput].
      rewrite Hdest. destruct (String.eqb tag "latest"); reflexivity. }
    assert (forall cl,
               createDeployPod cfg params cl
               = (let* podName :=
                    if String.eqb (cp_podName params) EmptyString
                    then lift (deployPodNameForApp (cp_app params))
                    else ret (cp_podName params) in
                  createPod cfg
                    (with_destinationImages used
                       (with_podName_cmds podName (DeployCmds (cp_app params)) params))) cl)
      as Hrun.
    { intros cl. unfold createDeployPod. rewrite Hdest, Hsplit. unfold bind.
      destruct ((if String.eqb (cp_podName params) EmptyString
                 then lift (deployPodNameForApp (cp_app params))
                 else ret (cp_podName params)) cl) as [[cl1 o1] [podName | e | s]];
        try reflexivity.
      rewrite Hparams. reflexivity. }
    split; [exact Hrun |].
    intros cl r p Hin Hobj.
    assert (issues (podsSatisfy (fun p => destinationImagesOf p = Some (Go.Join used ",")))
              (createDeployPod cfg params)) as Hissues.
    { intros cl'. rewrite Hrun. revert cl'.
      apply issues_bind; [issues_auto |]. intros podName.
      eapply issues_weaken; [| apply createPod_pods].
      intros action HQ p' Hobj'.
      destruct (HQ p' Hobj') as (d0 & l & an & v & mo & ps & c & ->).
      apply createPod_pod_destinationImages. }
    exact (podsSatisfy_issued _ _ cl r p Hissues Hin Hobj).
  - intros a oldImage newImage repository tag Hsplit used.
    split.
    + intros cl deployPodName labels Hname Hlabels.
      unfold imageTagAndPush. rewrite Hname, Hlabels, Hsplit. cbn [lift].
      rewrite !bind_ret. subst used.
      destruct (String.eqb tag "latest"); reflexivity.
    + intros cl r p Hin Hobj.
      assert (issues (podsSatisfy (fun p => destinationImagesOf p = Some (Go.Join used ",")))
                (imageTagAndPush cfg a oldImage newImage)) as Hissues.
      { unfold imageTagAndPush, imageTagAndPush_decode. rewrite Hsplit.
        apply issues_bind; [issues_auto |]. intros podName.
        apply issues_bind; [issues_auto |]. intros labels.
        apply issues_bind; [| intros [[out errOut] err]; issues_auto ].
        eapply issues_weaken; [| apply runInspectSidecar_pods].
        intros action HQ p' Hobj'.
        destruct (HQ p' Hobj') as (d0 & l & an & ps & c & ->).
        rewrite runInspectSidecar_pod_destinationImages.
        subst used. destruct (String.eqb tag "latest"); reflexivity. }
      exact (podsSatisfy_issued _ _ cl r p Hissues Hin Hobj).
Qed.

(** C7, at the failing input.  When the lookup of the overcommit factor
    answers 0 with no error and the application declares memory,
    [createAppDeployment] reaches the division and panics: no error is
    returned before it. *)
Theorem createAppDeployment_zero_overcommit_panics
    old a process imageName replicas labels cl cmds webProcessName :
  LeanContainerCmdsWithExtra process imageName a [extraRegisterCmds cfg a] = Ok cmds ->
  GetImageWebProcessName imageName = Ok webProcessName ->
  (String.eqb process webProcessName = false
   \/ exists hc probe,
        GetImageTsuruYamlData imageName = Ok hc
        /\ probeFromHC hc (getTargetPortForImage imageName) = Ok probe) ->
  OvercommitFactor cl (app_Pool a) = (0, None) ->
  app_Memory a <> 0 ->
  createAppDeployment cfg old a process imageName replicas labels cl
  = (cl, [], Panics "runtime error: integer divide by zero").
Proof.
  intros Hcmds Hweb Hprobe Hover Hmem. apply Z.eqb_neq in Hmem.
  unfold createAppDeployment. rewrite Hcmds, Hweb. cbn [lift_WithStack].
  unfold bind at 1 2. cbn [ret].
  destruct Hprobe as [Hp | (hc & probe & Hy & Hp)].
  - rewrite Hp. unfold bind, get_client, ret. rewrite Hover, Hmem. reflexivity.
  - destruct (String.eqb process webProcessName).
    + rewrite Hy. cbv [bind get_client ret lift_WithStack lift].
      rewrite Hp. cbv [bind get_client ret lift_WithStack lift].
      rewrite Hover, Hmem. reflexivity.
    + unfold bind, get_client, ret. rewrite Hover, Hmem. reflexivity.
Qed.

(** The guard the source does have: an error of the lookup is returned, with
    its message, before any division. *)
Lemma createAppDeployment_overcommit_error
    old a process imageName replicas labels cl cmds webProcessName factor e :
  LeanContainerCmdsWithExtra process imageName a [extraRegisterCmds cfg a] = Ok cmds ->
  GetImageWebProcessName imageName = Ok webProcessName ->
  String.eqb process webProcessName = false ->
  OvercommitFactor cl (app_Pool a) = (factor, Some e) ->
  createAppDeployment cfg old a process imageName replicas labels cl
  = (cl, [], Errors (WithMessage e "misconfigured cluster overcommit factor")).
Proof.
  intros Hcmds Hweb Hp Hover.
  unfold createAppDeployment. rewrite Hcmds, Hweb. cbn [lift_WithStack].
  unfold bind at 1 2. cbn [ret]. rewrite Hp.
  unfold bind, get_client, ret. rewrite Hover. reflexivity.
Qed.

End Images.


(** ** What a computation leaves alone, writes, and whether it can panic *)

Lemma sameCluster_refl cl : sameCluster cl cl.
Proof. repeat split. Qed.

Lemma sameCluster_trans cl1 cl2 cl3 :
  sameCluster cl1 cl2 -> sameCluster cl2 cl3 -> sameCluster cl1 cl3.
Proof. intros (N1 & B1 & R1) (N2 & B2 & R2). repeat split; congruence. Qed.

Lemma idleControllers_same cl cl' : sameCluster cl cl' -> idleControllers cl -> idleControllers cl'.
Proof. intros (_ & B & _) Hi history t. rewrite B. apply Hi. Qed.

Lemma noFaults_same cl cl' : sameCluster cl cl' -> noFaults cl -> noFaults cl'.
Proof. intros (_ & _ & R) Hn history a. rewrite R. apply Hn. Qed.

Lemma statusFaults_same cl cl' : sameCluster cl cl' -> statusFaults cl -> statusFaults cl'.
Proof. intros (_ & _ & R) Hn history a e. rewrite R. apply Hn. Qed.

Section Stable.

Context {A B : Type}.

Lemma stable_ret (a : A) : stable (ret a).
Proof. intros cl. apply sameCluster_refl. Qed.

Lemma stable_fail (e : error) : stable (@fail A e).
Proof. intros cl. apply sameCluster_refl. Qed.

Lemma stable_panic (s : string) : stable (@panic A s).
Proof. intros cl. apply sameCluster_refl. Qed.

Lemma stable_lift (r : result A) : stable (lift r).
Proof. destruct r; [apply stable_ret | apply stable_fail]. Qed.

Lemma stable_bind (m : M A) (k : A -> M B) :
  stable m -> (forall a, stable (k a)) -> stable (bind m k).
Proof.
  intros Hm Hk cl. unfold bind. specialize (Hm cl).
  destruct (m cl) as [[cl1 o1] [a | e | s]]; cbn [fst snd] in *; try assumption.
  specialize (Hk a cl1). destruct (k a cl1) as [[cl2 o2] r2]; cbn [fst snd] in *.
  eapply sameCluster_trans; eassumption.
Qed.

Lemma stable_attempt (m : M A) : stable m -> stable (attempt m).
Proof.
  intros Hm cl. unfold attempt. specialize (Hm cl).
  destruct (m cl) as [[cl1 o1] [a | e | s]]; assumption.
Qed.

Lemma stable_invoke (a : Action) (handler : Tracker -> Tracker * result A) :
  stable (invoke a handler).
Proof.
  intros cl. unfold invoke.
  destruct (cc_Reactor cl (cc_Actions cl) a); [repeat split |].
  destruct (handler _) as [t' [v | e]]; repeat split.
Qed.

End Stable.

Lemma stable_check (e : option error) : stable (check e).
Proof. destruct e; [apply stable_fail | apply stable_ret]. Qed.

Lemma stable_get_client : stable get_client.
Proof. intros cl. apply sameCluster_refl. Qed.

Lemma stable_tell (format : string) (args : list FmtArg) : stable (tell format args).
Proof. intros cl. apply sameCluster_refl. Qed.

Lemma stable_stream (out errOut : string) : stable (stream out errOut).
Proof. intros cl. apply sameCluster_refl. Qed.

Lemma stable_when (b : bool) (m : M unit) : stable m -> stable (when b m).
Proof. intros Hm. destruct b; [assumption | apply stable_ret]. Qed.

Ltac stable_step :=
  match goal with
  | |- stable (bind _ _) => apply stable_bind; [| intros]
  | |- stable (ret _) => apply stable_ret
  | |- stable (fail _) => apply stable_fail
  | |- stable (panic _) => apply stable_panic
  | |- stable (tell _ _) => apply stable_tell
  | |- stable (stream _ _) => apply stable_stream
  | |- stable (when _ _) => apply stable_when
  | |- stable (lift _) => apply stable_lift
  | |- stable (check _) => apply stable_check
  | |- stable get_client => apply stable_get_client
  | |- stable (attempt _) => apply stable_attempt
  | |- stable (invoke _ _) => apply stable_invoke
  | |- stable (match ?x with _ => _ end) => destruct x
  end.

Ltac stable_auto := repeat stable_step.

Section Writes.

Context {A B : Type} (L : Line -> Prop).

Lemma writes_ret (a : A) : writes L (ret a).
Proof. intros cl. constructor. Qed.

Lemma writes_fail (e : error) : writes L (@fail A e).
Proof. intros cl. constructor. Qed.

Lemma writes_panic (s : string) : writes L (@panic A s).
Proof. intros cl. constructor. Qed.

Lemma writes_lift (r : result A) : writes L (lift r).
Proof. destruct r; [apply writes_ret | apply writes_fail]. Qed.

Lemma writes_bind (m : M A) (k : A -> M B) :
  writes L m -> (forall a, writes L (k a)) -> writes L (bind m k).
Proof.
  intros Hm Hk cl. unfold bind. specialize (Hm cl).
  destruct (m cl) as [[cl1 o1] [a | e | s]]; cbn [fst snd] in *; try assumption.
  specialize (Hk a cl1). destruct (k a cl1) as [[cl2 o2] r2]; cbn [fst snd] in *.
  apply Forall_app; auto.
Qed.

Lemma writes_attempt (m : M A) : writes L m -> writes L (attempt m).
Proof.
  intros Hm cl. unfold attempt. specialize (Hm cl).
  destruct (m cl) as [[cl1 o1] [a | e | s]]; assumption.
Qed.

Lemma writes_invoke (a : Action) (handler : Tracker -> Tracker * result A) :
  writes L (invoke a handler).
Proof.
  intros cl. unfold invoke.
  destruct (cc_Reactor cl (cc_Actions cl) a); [constructor |].
  destruct (handler _) as [t' [v | e]]; constructor.
Qed.

End Writes.

Lemma writes_check L (e : option error) : writes L (check e).
Proof. destruct e; [apply writes_fail | apply writes_ret]. Qed.

Lemma writes_get_client L : writes L get_client.
Proof. intros cl. constructor. Qed.

Lemma writes_tell (L : Line -> Prop) (format : string) (args : list FmtArg) :
  L (Fprintf format args) -> writes L (tell format args).
Proof. intros HL cl. repeat constructor. assumption. Qed.

Lemma writes_stream (L : Line -> Prop) (out errOut : string) :
  L (Stream out errOut) -> writes L (stream out errOut).
Proof. intros HL cl. repeat constructor. assumption. Qed.

Lemma writes_when (L : Line -> Prop) (b : bool) (m : M unit) :
  (b = true -> writes L m) -> writes L (when b m).
Proof. intros Hm. destruct b; [auto | apply writes_ret]. Qed.

Lemma writes_weaken {A} (L L' : Line -> Prop) (m : M A) :
  (forall l, L l -> L' l) -> writes L m -> writes L' m.
Proof. intros HL Hm cl. eapply Forall_impl; eauto. Qed.

Ltac writes_step :=
  match goal with
  | |- writes _ (bind _ _) => apply writes_bind; [| intros]
  | |- writes _ (ret _) => apply writes_ret
  | |- writes _ (fail _) => apply writes_fail
  | |- writes _ (panic _) => apply writes_panic
  | |- writes _ (tell _ _) => apply writes_tell
  | |- writes _ (stream _ _) => apply writes_stream
  | |- writes _ (when _ _) => apply writes_when; intros
  | |- writes _ (lift _) => apply writes_lift
  | |- writes _ (check _) => apply writes_check
  | |- writes _ get_client => apply writes_get_client
  | |- writes _ (attempt _) => apply writes_attempt
  | |- writes _ (invoke _ _) => apply writes_invoke
  | |- writes _ (match ?x with _ => _ end) => destruct x eqn:?
  end.

Section NoPanic.

Context {A B : Type}.







End NoPanic.








Lemma bind_fail {A B} (e : error) (k : A -> M B) cl : bind (fail e) k cl = (cl, [], Errors e).
Proof. reflexivity. Qed.

Lemma bind_run {A B} (m : M A) (k : A -> M B) cl :
  bind m k cl
  = match m cl with
    | (cl1, out1, Returns a) => let '(cl2, out2, r) := k a cl1 in (cl2, out1 ++ out2, r)
    | (cl1, out1, Errors e) => (cl1, out1, Errors e)
    | (cl1, out1, Panics s) => (cl1, out1, Panics s)
    end.
Proof. reflexivity. Qed.

Lemma issues_bind_ret {A B} (P : Action -> Prop) (a : A) (k : A -> M B) :
  issues P (k a) -> issues P (bind (ret a) k).
Proof. intros Hk cl. rewrite bind_ret. apply Hk. Qed.

Lemma issues_bind_fail {A B} (P : Action -> Prop) (e : error) (k : A -> M B) :
  issues P (bind (fail e) k).
Proof. intros cl. rewrite bind_fail. apply issues_fail. Qed.

(** ** The pods of the build and deploy pipelines *)

Section PodInputs.

Context `{Collaborators}.
Variable cfg : Config.

Lemma createPod_no_destination params cl :
  length (cp_cmds params) = 3%nat ->
  cp_destinationImages params = [] ->
  createPod cfg params cl = (cl, [], Errors (Errorf "no destination images provided" [])).
Proof.
  intros Hlen Hdest. unfold createPod. rewrite Hlen, Hdest. reflexivity.
Qed.

(** X1. With an empty list of destination images, [createDeployPod], [createPod]
    (handed three commands) and [createBuildPod] return an error and leave
    the cluster as it was; [runInspectSidecar] does the same. *)
Theorem empty_destination_images_are_rejected :
  (forall params cl,
      cp_destinationImages params = [] ->
      createDeployPod cfg params cl
      = (cl, [], Errors (Errorf "no destination images provided" []))
      /\ (length (cp_cmds params) = 3%nat ->
          createPod cfg params cl
          = (cl, [], Errors (Errorf "no destination images provided" [])))
      /\ exists e, createBuildPod cfg params cl = (cl, [], Errors e))
  /\ (forall params cl,
        ip_destinationImages params = [] ->
        runInspectSidecar cfg params cl
        = (cl, [], Returns (EmptyString, EmptyString,
                            Some (Errorf "no destination images provided" [])))).
Proof.
  split.
  - intros params cl Hdest. split; [| split].
    + unfold createDeployPod. rewrite Hdest. reflexivity.
    + intros Hlen. apply createPod_no_destination; assumption.
    + unfold createBuildPod.
      set (cmds := ArchiveBuildCmds _ _).
      assert (forall podName,
                 exists e, createPod cfg (with_podName_cmds podName cmds params) cl
                           = (cl, [], Errors e)) as Hpod.
      { intros podName.
        destruct (Nat.eq_dec (length cmds) 3%nat) as [Hlen | Hlen].
        - eexists. apply createPod_no_destination; assumption.
        - eexists. unfold createPod. cbn [cp_cmds with_podName_cmds].
          apply Nat.eqb_neq in Hlen. rewrite Hlen. reflexivity. }
      destruct (String.eqb (cp_podName params) EmptyString).
      * destruct (buildPodNameForApp (cp_app params) EmptyString) as [podName | e];
          cbn [lift]; unfold bind; cbn [ret fail].
        -- destruct (Hpod podName) as (e & ->). eexists. reflexivity.
        -- eexists. reflexivity.
      * unfold bind. cbn [ret]. destruct (Hpod (cp_podName params)) as (e & ->).
        eexists. reflexivity.
  - intros params cl Hdest. unfold runInspectSidecar. rewrite Hdest. reflexivity.
Qed.

(** Of the three commands [createPod] is handed, only the third reaches the
    pod: two lists of commands that agree on it give the same run. *)
Lemma createPod_runs_third_command_only params podName c0 c1 c0' c1' c2 cl :
  createPod cfg (with_podName_cmds podName [c0; c1; c2] params) cl
  = createPod cfg (with_podName_cmds podName [c0'; c1'; c2] params) cl.
Proof. reflexivity. Qed.

Lemma createPod_pod_name params d0 l an v mo ps c :
  let p := createPod_pod cfg params d0 l an v mo ps c in
  om_Name (pod_Meta p) = cp_podName params
  /\ exists target sidecar,
       ps_Containers (pod_Spec p) = [target; sidecar]
       /\ c_Name target = cp_podName params
       /\ c_Image target = cp_sourceImage params
       /\ c_Name sidecar = "committer-cont"
       /\ c_Image sidecar = DeploySidecarImage getKubeConfig.
Proof.
  unfold createPod_pod. destruct (registryAuth cfg d0) as [[u pw] d].
  split; [reflexivity |]. eexists _, _. repeat split.
Qed.

(** X2. Every pod [createBuildPod] asks for carries the name it was given, or the
    name [buildPodNameForApp] generates when none was given, runs the source
    image in a container of that name, and hands its sidecar the destination
    images as they were given: no [latest] tag is added. *)
Theorem createBuildPod_pod_name_and_images params cl r p :
  In r (issued (createBuildPod cfg params) cl) ->
  act_Object r = Some (ObjPod p) ->
  (if String.eqb (cp_podName params) EmptyString
   then buildPodNameForApp (cp_app params) EmptyString = Ok (om_Name (pod_Meta p))
   else om_Name (pod_Meta p) = cp_podName params)
  /\ destinationImagesOf p = Some (Go.Join (cp_destinationImages params) ",")
  /\ exists target sidecar,
       ps_Containers (pod_Spec p) = [target; sidecar]
       /\ c_Name target = om_Name (pod_Meta p)
       /\ c_Image target = cp_sourceImage params.
Proof.
  intros Hin Hobj.
  assert (issues (podsSatisfy (fun p =>
            (if String.eqb (cp_podName params) EmptyString
             then buildPodNameForApp (cp_app params) EmptyString = Ok (om_Name (pod_Meta p))
             else om_Name (pod_Meta p) = cp_podName params)
            /\ destinationImagesOf p = Some (Go.Join (cp_destinationImages params) ",")
            /\ exists target sidecar,
                 ps_Containers (pod_Spec p) = [target; sidecar]
                 /\ c_Name target = om_Name (pod_Meta p)
                 /\ c_Image target = cp_sourceImage params))
            (createBuildPod cfg params)) as Hissues.
  { unfold createBuildPod.
    set (cmds := ArchiveBuildCmds _ _).
    assert (forall podName,
               (if String.eqb (cp_podName params) EmptyString
                then buildPodNameForApp (cp_app params) EmptyString = Ok podName
                else podName = cp_podName params) ->
               issues (podsSatisfy (fun p =>
                 (if String.eqb (cp_podName params) EmptyString
                  then buildPodNameForApp (cp_app params) EmptyString = Ok (om_Name (pod_Meta p))
                  else om_Name (pod_Meta p) = cp_podName params)
                 /\ destinationImagesOf p = Some (Go.Join (cp_destinationImages params) ",")
                 /\ exists target sidecar,
                      ps_Containers (pod_Spec p) = [target; sidecar]
                      /\ c_Name target = om_Name (pod_Meta p)
                      /\ c_Image target = cp_sourceImage params))
                 (createPod cfg (with_podName_cmds podName cmds params))) as Hpod.
    { intros podName Hname.
      eapply issues_weaken; [| apply createPod_pods].
      intros action HQ p' Hobj'.
      destruct (HQ p' Hobj') as (d0 & l & an & v & mo & ps & c & ->).
      destruct (createPod_pod_name (with_podName_cmds podName cmds params) d0 l an v mo ps c)
        as (En & target & sidecar & Ec & Et & Ei & _).
      rewrite createPod_pod_destinationImages. rewrite En.
      cbn [cp_podName cp_destinationImages cp_sourceImage with_podName_cmds] in *.
      split; [| split; [reflexivity |]].
      - destruct (String.eqb (cp_podName params) EmptyString); assumption.
      - exists target, sidecar. auto. }
    destruct (String.eqb (cp_podName params) EmptyString) eqn:En.
    - destruct (buildPodNameForApp (cp_app params) EmptyString) as [podName | e] eqn:Eb;
        cbn [lift].
      + apply issues_bind_ret. apply Hpod. reflexivity.
      + apply issues_bind_fail.
    - apply issues_bind_ret. apply Hpod. reflexivity. }
  exact (podsSatisfy_issued _ _ cl r p Hissues Hin Hobj).
Qed.

End PodInputs.

(** ** Registry credentials in the sidecar *)

Section Credentials.

Context `{Collaborators}.
Variable cfg : Config.

Lemma credentials_present :
  Nat.eqb (String.length (docker_registry_auth_username cfg)) 0
  && Nat.eqb (String.length (docker_registry_auth_password cfg)) 0 = false
  <-> credentialsConfigured cfg.
Proof.
  pose proof (credentials_absent cfg) as Ha.
  destruct (_ && _).
  - split; [discriminate |]. intros Hc. exfalso. apply (proj1 Ha); auto.
  - split; [| reflexivity]. intros _.
    destruct (classic_credentials cfg) as [Hc | Hc]; [assumption |].
    apply Ha in Hc. discriminate.
Qed.

(** [registryAuth] answers with the configured user and password, and with
    the registry itself, when the image is on the configured registry and a
    user or a password is configured; with three empty strings otherwise. *)
Lemma registryAuth_cases img :
  (imgDomainOf img = docker_registry cfg -> credentialsConfigured cfg ->
   registryAuth cfg img
   = (docker_registry_auth_username cfg, docker_registry_auth_password cfg,
      docker_registry cfg))
  /\ (imgDomainOf img <> docker_registry cfg ->
      registryAuth cfg img = (EmptyString, EmptyString, EmptyString))
  /\ (~ credentialsConfigured cfg ->
      registryAuth cfg img = (EmptyString, EmptyString, EmptyString)).
Proof.
  unfold registryAuth. split; [| split].
  - intros Hd Hc. rewrite Hd, String.eqb_refl. cbn [negb].
    apply credentials_present in Hc. rewrite Hc. reflexivity.
  - intros Hd. apply String.eqb_neq in Hd. rewrite Hd. reflexivity.
  - intros Hc. apply credentials_absent in Hc. rewrite Hc.
    destruct (negb _); reflexivity.
Qed.

(** Every pod [createPod] asks for is its pod literal, built for the first of
    the destination images. *)
Lemma createPod_pods_first params :
  issues (podsSatisfy (fun p => exists d0 rest l an v mo ps c,
                                  cp_destinationImages params = d0 :: rest
                                  /\ p = createPod_pod cfg params d0 l an v mo ps c))
         (createPod cfg params).
Proof.
  unfold createPod, Pods_Create.
  destruct (negb _); [apply issues_fail |].
  destruct (cp_destinationImages params) as [| d0 rest] eqn:Hdest; [apply issues_fail |].
  repeat first [ apply ensureServiceAccountForApp_pods | apply getImagePullSecrets_pods
               | apply filteredPodEvents_pods | apply doAttach_issues | issues_step ].
  intros p [= <-]. repeat eexists.
Qed.

Lemma runInspectSidecar_pods_first params :
  issues (podsSatisfy (fun p => exists d0 rest l an ps c,
                                  ip_destinationImages params = d0 :: rest
                                  /\ p = runInspectSidecar_pod cfg params d0 l an ps c))
         (runInspectSidecar cfg params).
Proof.
  unfold runInspectSidecar, runInspectSidecar_create, Pods_Create.
  destruct (ip_destinationImages params) as [| d0 rest] eqn:Hdest; [apply issues_ret |].
  repeat first [ apply ensureServiceAccountForApp_pods | apply getImagePullSecrets_pods
               | apply cleanupPod_pods | apply doAttach_issues | issues_step ].
  intros p [= <-]. repeat eexists.
Qed.

Lemma createPod_pod_registryEnv params d0 l an v mo ps c :
  registryEnvOf (createPod_pod cfg params d0 l an v mo ps c) = Some (registryAuth cfg d0).
Proof.
  unfold registryEnvOf, sidecarOf, createPod_pod.
  destruct (registryAuth cfg d0) as [[u pw] d]. reflexivity.
Qed.

Lemma runInspectSidecar_pod_registryEnv params d0 l an ps c :
  registryEnvOf (runInspectSidecar_pod cfg params d0 l an ps c) = Some (registryAuth cfg d0).
Proof.
  unfold registryEnvOf, sidecarOf, runInspectSidecar_pod.
  destruct (registryAuth cfg d0) as [[u pw] d]. reflexivity.
Qed.

(** X3. The sidecar of every pod [createPod] or [runInspectSidecar] asks for
    receives the registry user, password and address [registryAuth] gives for
    the first destination image: the configured ones when that image is on
    the configured registry and a user or a password is configured, and empty
    strings when the image is on another registry. *)
Theorem sidecar_credentials_follow_first_destination :
  (forall params d0 rest cl r p,
      cp_destinationImages params = d0 :: rest ->
      In r (issued (createPod cfg params) cl) ->
      act_Object r = Some (ObjPod p) ->
      (imgDomainOf d0 <> docker_registry cfg ->
       registryEnvOf p = Some (EmptyString, EmptyString, EmptyString))
      /\ (imgDomainOf d0 = docker_registry cfg -> credentialsConfigured cfg ->
          registryEnvOf p
          = Some (docker_registry_auth_username cfg, docker_registry_auth_password cfg,
                  docker_registry cfg)))
  /\ (forall params d0 rest cl r p,
        ip_destinationImages params = d0 :: rest ->
        In r (issued (runInspectSidecar cfg params) cl) ->
        act_Object r = Some (ObjPod p) ->
        (imgDomainOf d0 <> docker_registry cfg ->
         registryEnvOf p = Some (EmptyString, EmptyString, EmptyString))
        /\ (imgDomainOf d0 = docker_registry cfg -> credentialsConfigured cfg ->
            registryEnvOf p
            = Some (docker_registry_auth_username cfg, docker_registry_auth_password cfg,
                    docker_registry cfg))).
Proof.
  split; intros params d0 rest cl r p Hdest Hin Hobj.
  - destruct (podsSatisfy_issued _ _ cl r p (createPod_pods_first params) Hin Hobj)
      as (d0' & rest' & l & an & v & mo & ps & c & Hdest' & ->).
    rewrite Hdest in Hdest'. injection Hdest' as <- <-.
    rewrite createPod_pod_registryEnv.
    destruct (registryAuth_cases d0) as (Hyes & Hno & _).
    split; [intros Hd; rewrite (Hno Hd) | intros Hd Hc; rewrite (Hyes Hd Hc)]; reflexivity.
  - destruct (podsSatisfy_issued _ _ cl r p (runInspectSidecar_pods_first params) Hin Hobj)
      as (d0' & rest' & l & an & ps & c & Hdest' & ->).
    rewrite Hdest in Hdest'. injection Hdest' as <- <-.
    rewrite runInspectSidecar_pod_registryEnv.
    destruct (registryAuth_cases d0) as (Hyes & Hno & _).
    split; [intros Hd; rewrite (Hno Hd) | intros Hd Hc; rewrite (Hyes Hd Hc)]; reflexivity.
Qed.

End Credentials.

(** ** The service account and the registry secret *)

Section Accounts.

Context `{Collaborators}.
Variable cfg : Config.

(** X4. [ensureServiceAccount] issues one request, the creation of the account.
    When the cluster serves it, the call returns no error whether or not the
    account existed: an account the cluster already holds is kept as it is,
    with the labels it has, and no other account is touched.  An
    already-exists answer is no error, and any other error of the request is
    returned with a stack. *)
Theorem ensureServiceAccount_keeps_existing_account name labels cl :
  let account := {| sa_Name := name; sa_Labels := ToLabels labels |} in
  let create := {| act_Verb := VerbCreate; act_Resource := ResServiceAccounts;
                   act_Name := name; act_Object := Some (ObjServiceAccount account) |} in
  let before := tr_ServiceAccounts (cc_Background cl (cc_Actions cl) (cc_Tracker cl)) in
  let run := ensureServiceAccount name labels cl in
  issued (ensureServiceAccount name labels) cl = [create]
  /\ (cc_Reactor cl (cc_Actions cl) create = None ->
      run.2 = Returns tt
      /\ tr_ServiceAccounts (cc_Tracker run.1.1) !! name
         = Some (default account (before !! name))
      /\ forall other, other <> name ->
           tr_ServiceAccounts (cc_Tracker run.1.1) !! other = before !! other)
  /\ (forall e, cc_Reactor cl (cc_Actions cl) create = Some e ->
        run.2 = if IsAlreadyExists e then Returns tt else Errors (WithStack e)).
Proof.
  intros account create before run. subst run before create account.
  unfold issued, ensureServiceAccount, bind, attempt, ServiceAccounts_Create, invoke.
  cbn [sa_Name].
  destruct (cc_Reactor cl (cc_Actions cl) _) as [e |] eqn:Hr.
  - cbn [fst snd]. split; [| split].
    + destruct (negb (IsAlreadyExists e)); cbn -[drop length];
        rewrite drop_app_length; reflexivity.
    + discriminate.
    + intros e' [= <-]. destruct (IsAlreadyExists e); reflexivity.
  - destruct (tr_ServiceAccounts _ !! name) as [existing |] eqn:Hl;
      cbn -[drop length lookup insert]; rewrite drop_app_length.
    + split; [reflexivity |]. split; [| discriminate].
      intros _. split; [reflexivity |]. split; [exact Hl | reflexivity].
    + split; [reflexivity |]. split; [| discriminate].
      intros _. split; [reflexivity |]. split; [apply lookup_insert_eq |].
      intros other Hother. apply lookup_insert_ne. congruence.
Qed.

(** X5. With a user or a password configured, on a cluster that serves every
    request and whose controllers are idle, [ensureAuthSecret] returns no
    error and leaves the registry secret in the store with the credentials
    serialized now, whether or not a secret of that name existed: it asks for
    an update, and for a creation after it only when the secret did not
    exist.  No other secret is touched. *)
Theorem ensureAuthSecret_updates_or_creates cl conf :
  credentialsConfigured cfg ->
  json_Marshal (authConf cfg) = Ok conf ->
  idleControllers cl ->
  noFaults cl ->
  let secret := authSecret cfg conf in
  let name := registrySecretName (docker_registry cfg) in
  let request verb := {| act_Verb := verb; act_Resource := ResSecrets; act_Name := name;
                         act_Object := Some (ObjSecret secret) |} in
  let run := ensureAuthSecret cfg cl in
  run.2 = Returns tt
  /\ issued (ensureAuthSecret cfg) cl
     = match tr_Secrets (cc_Tracker cl) !! name with
       | Some _ => [request VerbUpdate]
       | None => [request VerbUpdate; request VerbCreate]
       end
  /\ tr_Secrets (cc_Tracker run.1.1) !! name = Some secret
  /\ forall other, other <> name ->
       tr_Secrets (cc_Tracker run.1.1) !! other = tr_Secrets (cc_Tracker cl) !! other.
Proof.
  intros Hc Hconf Hidle Hserve secret name request run. subst run request.
  apply credentials_present in Hc.
  unfold issued, ensureAuthSecret. rewrite Hc, Hconf. cbn [lift].
  rewrite !bind_ret. fold secret.
  unfold bind, attempt, Secrets_Update, Secrets_Create, invoke.
  replace (secret_Name secret) with name by reflexivity.
  rewrite !Hserve, !Hidle.
  destruct (tr_Secrets (cc_Tracker cl) !! name) as [existing |] eqn:Hl.
  - cbn -[drop length lookup insert]. rewrite drop_app_length.
    split; [reflexivity |]. split; [reflexivity |]. split; [apply lookup_insert_eq |].
    intros other Hother. apply lookup_insert_ne. congruence.
  - cbn -[drop length lookup insert].
    rewrite !Hserve, !Hidle, Hl.
    cbn -[drop length lookup insert].
    rewrite <- app_assoc, drop_app_length.
    split; [reflexivity |]. split; [reflexivity |]. split; [apply lookup_insert_eq |].
    intros other Hother. apply lookup_insert_ne. congruence.
Qed.

End Accounts.

(** ** The deployment [createAppDeployment] sends *)

Lemma issues_bind_yields {A B} (P : Action -> Prop) (R : A -> Prop) (m : M A) (k : A -> M B) :
  issues P m -> yields R m -> (forall a, R a -> issues P (k a)) -> issues P (bind m k).
Proof.
  intros Hm Hy Hk cl. unfold bind.
  destruct (Hm cl) as (n1 & E1 & F1). specialize (Hy cl).
  destruct (m cl) as [[cl1 o1] [a | e | s]]; cbn [fst snd] in *.
  - destruct (Hk a (Hy cl1 o1 a eq_refl) cl1) as (n2 & E2 & F2).
    destruct (k a cl1) as [[cl2 o2] r2]; cbn [fst snd] in *.
    exists (n1 ++ n2). rewrite E2, E1, app_assoc. split; [reflexivity |].
    apply Forall_app; auto.
  - exists n1; auto.
  - exists n1; auto.
Qed.

Lemma yields_ret {A} (R : A -> Prop) (a : A) : R a -> yields R (ret a).
Proof. intros Ha cl cl' out a' [= _ _ <-]. assumption. Qed.

Lemma yields_fail {A} (R : A -> Prop) (e : error) : yields R (@fail A e).
Proof. intros cl cl' out a' [=]. Qed.

Lemma yields_panic {A} (R : A -> Prop) (s : string) : yields R (@panic A s).
Proof. intros cl cl' out a' [=]. Qed.

Lemma yields_bind {A B} (R : B -> Prop) (m : M A) (k : A -> M B) :
  (forall a, yields R (k a)) -> yields R (bind m k).
Proof.
  intros Hk cl cl' out b. unfold bind.
  destruct (m cl) as [[cl1 o1] [a | e | s]]; try discriminate.
  specialize (Hk a cl1). destruct (k a cl1) as [[cl2 o2] r2].
  intros [= <- <- ->]. eapply Hk. reflexivity.
Qed.

Lemma deploymentsSatisfy_issued {A} Q (m : M A) cl r d :
  issues (deploymentsSatisfy Q) m -> In r (issued m cl) ->
  act_Object r = Some (ObjDeployment d) -> Q (act_Verb r) d.
Proof.
  intros Hm Hin Hobj. pose proof (issues_issued _ m cl Hm) as F.
  rewrite Forall_forall in F. apply (F r); [apply list_elem_of_In; assumption | assumption].
Qed.

Ltac no_deployments := issues_auto; try (intros ? [=]).

Section AppDeployment.

Context `{Collaborators}.
Variable cfg : Config.

Lemma getImagePullSecrets_deployments Q images :
  issues (deploymentsSatisfy Q) (getImagePullSecrets cfg images).
Proof.
  unfold getImagePullSecrets, ensureAuthSecret, Secrets_Update, Secrets_Create. no_deployments.
Qed.

(** Every deployment [createAppDeployment] sends is its deployment literal:
    the request is a creation without an old deployment and an update with
    one, and the commands, the probe and the resources are those the function
    computed. *)
Lemma createAppDeployment_deployments old a process imageName replicas labels :
  issues (deploymentsSatisfy (fun verb d =>
            verb = match old with None => VerbCreate | Some _ => VerbUpdate end
            /\ exists l an cmds probe limits requests v mo ps c,
                 d = createAppDeployment_deployment a process imageName (Go.int32 replicas)
                       l an cmds probe limits requests v mo ps c
                 /\ SplitServiceLabelsAnnotations
                      (ExtendServiceLabels labels provisionerName tsuruLabelPrefix) = (l, an)
                 /\ LeanContainerCmdsWithExtra process imageName a [extraRegisterCmds cfg a]
                    = Ok cmds
                 /\ probeFor process imageName probe
                 /\ resourcesFor a limits requests))
         (createAppDeployment cfg old a process imageName replicas labels).
Proof.
  unfold createAppDeployment.
  destruct (LeanContainerCmdsWithExtra process imageName a [extraRegisterCmds cfg a])
    as [cmds | e] eqn:Hcmds; cbn [lift_WithStack]; [| apply issues_bind_fail].
  apply issues_bind_ret.
  destruct (GetImageWebProcessName imageName) as [webProcessName | e] eqn:Hweb;
    cbn [lift_WithStack]; [| apply issues_bind_fail].
  apply issues_bind_ret.
  apply (issues_bind_yields _ (probeFor process imageName)).
  { destruct (String.eqb process webProcessName); unfold lift_WithStack; issues_auto. }
  { unfold probeFor. rewrite Hweb.
    destruct (String.eqb process webProcessName) eqn:Hp.
    - destruct (GetImageTsuruYamlData imageName) as [hc | e] eqn:Hy; cbn [lift_WithStack].
      + intros cl cl' out probe. rewrite bind_ret.
        destruct (probeFromHC hc (getTargetPortForImage imageName)) as [p | e] eqn:Hprobe;
          cbn [lift]; intros [= _ _ <-].
        exists webProcessName. split; [reflexivity |]. rewrite Hp. exists hc. auto.
      + intros cl cl' out probe. rewrite bind_fail. discriminate.
    - intros cl cl' out probe [= _ _ <-]. exists webProcessName. rewrite Hp. auto. }
  intros probe Hprobe.
  apply issues_bind; [apply issues_get_client |]. intros cl0.
  destruct (OvercommitFactor cl0 (app_Pool a)) as [overcommit [e |]] eqn:Hover;
    [apply issues_fail |].
  apply (issues_bind_yields _ (fun lr => resourcesFor a lr.1 lr.2)).
  { destruct (negb _); unfold divide; issues_auto. }
  { unfold resourcesFor. destruct (Z.eqb (app_Memory a) 0) eqn:Hmem; cbn [negb].
    - apply yields_ret. cbn [fst snd]. auto.
    - unfold divide. destruct (Go.div64 (app_Memory a) overcommit) as [q |] eqn:Hq.
      + intros cl cl' out lr. rewrite bind_ret. intros [= _ _ <-]. cbn [fst snd].
        exists cl0, overcommit, q. auto.
      + intros cl cl' out lr. unfold bind, panic. discriminate. }
  intros [limits requests] Hres. cbn [fst snd] in Hres.
  apply issues_bind; [apply issues_get_client |]. intros cl1.
  apply issues_bind; [apply issues_lift |]. intros [volumes mounts].
  apply issues_bind; [apply getImagePullSecrets_deployments |]. intros pullSecrets.
  destruct (SplitServiceLabelsAnnotations _) as [l an] eqn:Hsplit.
  apply issues_bind; [apply issues_get_client |]. intros cl2.
  apply issues_bind.
  - apply issues_attempt. destruct old as [old |]; unfold Deployments_Create, Deployments_Update;
      apply issues_invoke; intros dep [= <-]; (split; [reflexivity |]);
      exists l, an, cmds, probe, limits, requests, volumes, mounts, pullSecrets, cl2; auto.
  - intros applied. destruct applied; [apply issues_ret | apply issues_fail].
Qed.

(** X6. [createAppDeployment] asks for the creation of the deployment when it is
    handed no old deployment and for its update when it is handed one, and
    nothing else of the old deployment matters: the deployment sent is named
    after the application and the process, asks for the replicas converted to
    32 bits, and runs one container, of the same name, with the image, whose
    readiness probe and liveness probe are the same. *)
Theorem createAppDeployment_creates_or_updates old a process imageName replicas labels cl r d :
  In r (issued (createAppDeployment cfg old a process imageName replicas labels) cl) ->
  act_Object r = Some (ObjDeployment d) ->
  act_Verb r = match old with None => VerbCreate | Some _ => VerbUpdate end
  /\ om_Name (dep_Meta d) = deploymentNameForApp a process
  /\ ds_Replicas (dep_Spec d) = Some (Go.int32 replicas)
  /\ exists c,
       containerOf d = Some c
       /\ c_Name c = deploymentNameForApp a process
       /\ c_Image c = imageName
       /\ c_ReadinessProbe c = c_LivenessProbe c.
Proof.
  intros Hin Hobj.
  destruct (deploymentsSatisfy_issued _ _ cl r d
              (createAppDeployment_deployments old a process imageName replicas labels)
              Hin Hobj)
    as (Hverb & l & an & cmds & probe & limits & requests & v & mo & ps & c & -> & _).
  split; [assumption |]. split; [reflexivity |]. split; [reflexivity |].
  eexists. split; [reflexivity |]. repeat split.
Qed.

Lemma int64_small z : - 2 ^ 63 <= z < 2 ^ 63 -> Go.int64 z = z.
Proof.
  intros Hz. unfold Go.int64. rewrite Z.mod_small by lia. lia.
Qed.

(** X7. The memory resources of the container [createAppDeployment] sends: none
    for an application that declares no memory; for an application that
    declares memory, on a pool whose overcommit factor is at least 1, the
    limit is the declared memory and the request is its quotient by the
    factor, which is at most the limit. *)
Theorem createAppDeployment_memory_request_within_limit
    old a process imageName replicas labels cl r d c :
  In r (issued (createAppDeployment cfg old a process imageName replicas labels) cl) ->
  act_Object r = Some (ObjDeployment d) ->
  containerOf d = Some c ->
  (app_Memory a = 0 -> c_Limits c = ∅ /\ c_Requests c = ∅)
  /\ (0 < app_Memory a < 2 ^ 63 ->
      (forall cl0, 1 <= (OvercommitFactor cl0 (app_Pool a)).1) ->
      exists cl0 request,
        c_Limits c = {[ ResourceMemory := app_Memory a ]}
        /\ c_Requests c = {[ ResourceMemory := request ]}
        /\ request = Z.quot (app_Memory a) (OvercommitFactor cl0 (app_Pool a)).1
        /\ 0 <= request <= app_Memory a).
Proof.
  intros Hin Hobj Hc.
  destruct (deploymentsSatisfy_issued _ _ cl r d
              (createAppDeployment_deployments old a process imageName replicas labels)
              Hin Hobj)
    as (_ & l & an & cmds & probe & limits & requests & v & mo & ps & c0 & -> & _ & _ & _ & Hres).
  injection Hc as <-. cbn [c_Limits c_Requests]. unfold resourcesFor in Hres.
  split.
  - intros Hmem. rewrite Hmem in Hres. exact Hres.
  - intros Hmem Hover. destruct (Z.eqb_spec (app_Memory a) 0) as [E | E]; [lia |].
    destruct Hres as (cl0 & overcommit & request & Ho & Hq & -> & ->).
    specialize (Hover cl0). rewrite Ho in Hover. cbn [fst] in Hover.
    unfold Go.div64 in Hq. destruct (Z.eqb_spec overcommit 0) as [E0 | E0]; [lia |].
    injection Hq as <-.
    assert (0 <= Z.quot (app_Memory a) overcommit <= app_Memory a) as Hbound.
    { rewrite Z.quot_div_nonneg by lia. split.
      - apply Z.div_pos; lia.
      - apply Z.div_le_upper_bound; nia. }
    exists cl0, (Z.quot (app_Memory a) overcommit). rewrite Ho. cbn [fst].
    rewrite int64_small by lia. auto.
Qed.

End AppDeployment.



Section AppDeploymentChecks.

Context `{Collaborators}.
Variable cfg : Config.



Lemma probeFromHC_cases hc port :
  let method := strings_ToUpper (hc_Method hc) in
  (hc_Path hc = EmptyString -> probeFromHC hc port = Ok None)
  /\ (hc_Path hc <> EmptyString -> method <> EmptyString -> method <> "GET" ->
      probeFromHC hc port
      = Err (Errorf "healthcheck: only GET method is supported in kubernetes provisioner" []))
  /\ (hc_Path hc <> EmptyString -> method = EmptyString \/ method = "GET" ->
      probeFromHC hc port
      = Ok (Some {| probe_FailureThreshold := Go.int32 (hc_AllowedFailures hc);
                    probe_Path := hc_Path hc;
                    probe_Port := port;
                    probe_Scheme :=
                      strings_ToUpper (if String.eqb (hc_Scheme hc) EmptyString
                                       then DefaultHealthcheckScheme else hc_Scheme hc) |})).
Proof.
  intros method. subst method. unfold probeFromHC. split; [| split].
  - intros ->. reflexivity.
  - intros Hp Hm Hg. apply String.eqb_neq in Hp, Hm, Hg. rewrite Hp, Hm, Hg. reflexivity.
  - intros Hp Hm. apply String.eqb_neq in Hp. rewrite Hp.
    destruct Hm as [-> | ->]; reflexivity.
Qed.

(** X9. The container of the deployment [createAppDeployment] sends has probes
    only for the web process of the image, and only when the health check of
    the image names a path: the readiness and the liveness probe then ask for
    that path on the target port of the image, with the allowed failures as
    threshold.  For another process the health check of the image is not
    even read. *)
Theorem createAppDeployment_probes_for_web_process_only
    old a process imageName replicas labels cl r d c :
  In r (issued (createAppDeployment cfg old a process imageName replicas labels) cl) ->
  act_Object r = Some (ObjDeployment d) ->
  containerOf d = Some c ->
  exists webProcessName,
    GetImageWebProcessName imageName = Ok webProcessName
    /\ (process <> webProcessName -> c_ReadinessProbe c = None /\ c_LivenessProbe c = None)
    /\ (process = webProcessName ->
        exists hc,
          GetImageTsuruYamlData imageName = Ok hc
          /\ (hc_Path hc = EmptyString ->
              c_ReadinessProbe c = None /\ c_LivenessProbe c = None)
          /\ (hc_Path hc <> EmptyString ->
              exists p,
                c_ReadinessProbe c = Some p /\ c_LivenessProbe c = Some p
                /\ probe_Path p = hc_Path hc
                /\ probe_Port p = getTargetPortForImage imageName
                /\ probe_FailureThreshold p = Go.int32 (hc_AllowedFailures hc))).
Proof.
  intros Hin Hobj Hc.
  destruct (deploymentsSatisfy_issued _ _ cl r d
              (createAppDeployment_deployments cfg old a process imageName replicas labels)
              Hin Hobj)
    as (_ & l & an & cmds & probe & limits & requests & v & mo & ps & c0 & -> & _ & _
        & (webProcessName & Hweb & Hprobe) & _).
  injection Hc as <-. cbn [c_ReadinessProbe c_LivenessProbe].
  exists webProcessName. split; [assumption |].
  destruct (String.eqb_spec process webProcessName) as [Ep | Ep].
  - split; [contradiction |]. intros _.
    destruct Hprobe as (hc & Hy & Hp). exists hc. split; [assumption |].
    destruct (probeFromHC_cases hc (getTargetPortForImage imageName)) as (Hnone & Herr & Hsome).
    split.
    + intros Hpath. rewrite (Hnone Hpath) in Hp. injection Hp as <-. auto.
    + intros Hpath.
      destruct (String.eqb_spec (strings_ToUpper (hc_Method hc)) EmptyString) as [Em | Em].
      * rewrite (Hsome Hpath (or_introl Em)) in Hp. injection Hp as <-.
        eexists. repeat split.
      * destruct (String.eqb_spec (strings_ToUpper (hc_Method hc)) "GET") as [Eg | Eg].
        -- rewrite (Hsome Hpath (or_intror Eg)) in Hp. injection Hp as <-.
           eexists. repeat split.
        -- rewrite (Herr Hpath Em Eg) in Hp. discriminate.
  - split; [| contradiction]. intros _. subst probe. auto.
Qed.

(** X10. [probeFromHC] fails exactly for a health check that names a path and a
    method which, in upper case, is neither empty nor GET; for the web
    process of an image with such a health check, [createAppDeployment]
    returns that error and leaves the cluster as it was. *)
Theorem unsupported_healthcheck_method_is_rejected :
  (forall hc port,
      (exists e, probeFromHC hc port = Err e)
      <-> hc_Path hc <> EmptyString
          /\ strings_ToUpper (hc_Method hc) <> EmptyString
          /\ strings_ToUpper (hc_Method hc) <> "GET")
  /\ (forall old a process imageName replicas labels cl cmds hc,
        LeanContainerCmdsWithExtra process imageName a [extraRegisterCmds cfg a] = Ok cmds ->
        GetImageWebProcessName imageName = Ok process ->
        GetImageTsuruYamlData imageName = Ok hc ->
        hc_Path hc <> EmptyString ->
        strings_ToUpper (hc_Method hc) <> EmptyString ->
        strings_ToUpper (hc_Method hc) <> "GET" ->
        createAppDeployment cfg old a process imageName replicas labels cl
        = (cl, [],
           Errors (Errorf "healthcheck: only GET method is supported in kubernetes provisioner"
                     []))).
Proof.
  split.
  - intros hc port.
    destruct (probeFromHC_cases hc port) as (Hnone & Herr & Hsome).
    split.
    + intros (e & He).
      destruct (String.eqb_spec (hc_Path hc) EmptyString) as [Ep | Ep];
        [rewrite (Hnone Ep) in He; discriminate |].
      destruct (String.eqb_spec (strings_ToUpper (hc_Method hc)) EmptyString) as [Em | Em];
        [rewrite (Hsome Ep (or_introl Em)) in He; discriminate |].
      destruct (String.eqb_spec (strings_ToUpper (hc_Method hc)) "GET") as [Eg | Eg];
        [rewrite (Hsome Ep (or_intror Eg)) in He; discriminate |].
      auto.
    + intros (Hp & Hm & Hg). eexists. apply Herr; assumption.
  - intros old a process imageName replicas labels cl cmds hc Hcmds Hweb Hy Hp Hm Hg.
    unfold createAppDeployment. rewrite Hcmds, Hweb. cbn [lift_WithStack].
    rewrite !bind_ret. rewrite String.eqb_refl, Hy. cbn [lift_WithStack].
    destruct (probeFromHC_cases hc (getTargetPortForImage imageName)) as (_ & Herr & _).
    unfold bind at 1 2. cbn [ret]. rewrite (Herr Hp Hm Hg). reflexivity.
Qed.

End AppDeploymentChecks.

(** ** Reading back what was applied *)

Lemma ensures_bind {A B} (Post : ClusterClient -> B -> Prop) (m : M A) (k : A -> M B) :
  (forall a, ensures Post (k a)) -> ensures Post (bind m k).
Proof.
  intros Hk cl cl' out b. unfold bind.
  destruct (m cl) as [[cl1 o1] [a | e | s]]; try discriminate.
  specialize (Hk a cl1). destruct (k a cl1) as [[cl2 o2] r2].
  intros [= <- <- ->]. eapply Hk. reflexivity.
Qed.

Lemma ensures_fail {A} (Post : ClusterClient -> A -> Prop) (e : error) : ensures Post (fail e).
Proof. intros cl cl' out a [=]. Qed.

Section ReadBack.

Context `{Collaborators}.
Variable cfg : Config.

Lemma getImagePullSecrets_stable images : stable (getImagePullSecrets cfg images).
Proof.
  unfold getImagePullSecrets, ensureAuthSecret, Secrets_Update, Secrets_Create. stable_auto.
Qed.

Lemma createAppDeployment_stable old a process imageName replicas labels :
  stable (createAppDeployment cfg old a process imageName replicas labels).
Proof.
  unfold createAppDeployment, lift_WithStack, divide, Deployments_Create, Deployments_Update.
  repeat first [apply getImagePullSecrets_stable | stable_step].
Qed.

(** When [createAppDeployment] returns, the store holds the deployment it
    returns under the name of the deployment, and the pod template of that
    deployment carries the labels and the annotations returned with it. *)
Lemma createAppDeployment_applied old a process imageName replicas labels :
  ensures (fun cl' applied =>
             let '(dep, l, an) := applied in
             tr_Deployments (cc_Tracker cl') !! deploymentNameForApp a process = Some dep
             /\ ds_TemplateMeta (dep_Spec dep)
                = {| om_Name := EmptyString; om_Namespace := EmptyString;
                     om_Labels := ToLabels l; om_Annotations := ToLabels an |})
          (createAppDeployment cfg old a process imageName replicas labels).
Proof.
  unfold createAppDeployment.
  do 4 (apply ensures_bind; intros ?).
  destruct (OvercommitFactor _ _) as [overcommit [e |]]; [apply ensures_fail |].
  apply ensures_bind. intros [limits requests].
  apply ensures_bind. intros cl1.
  apply ensures_bind. intros [volumes mounts].
  apply ensures_bind. intros pullSecrets.
  destruct (SplitServiceLabelsAnnotations _) as [l an].
  apply ensures_bind. intros cl2.
  intros cl3 cl' out [[dep l'] an'].
  unfold bind, attempt, Deployments_Create, Deployments_Update, invoke.
  destruct old as [old |];
    (destruct (cc_Reactor cl3 (cc_Actions cl3) _); [discriminate |]);
    destruct (tr_Deployments _ !! _) eqn:Hl; cbn -[lookup insert]; try discriminate;
    intros [= <- _ <- <- <-]; cbn -[lookup insert];
    (split; [apply lookup_insert_eq | reflexivity]).
Qed.

(** X11. On a cluster that serves every request and whose controllers are idle,
    [CurrentLabels], called once [createAppDeployment] has returned, gives
    the label set of the pod template just applied: the labels and the
    annotations [createAppDeployment] returned. *)
Theorem CurrentLabels_after_createAppDeployment
    old a process imageName replicas labels cl cl' out dep l an :
  idleControllers cl ->
  noFaults cl ->
  createAppDeployment cfg old a process imageName replicas labels cl
  = (cl', out, Returns (dep, l, an)) ->
  result_of (CurrentLabels a process) cl'
  = Returns (Some (labelSetFromMeta
                     {| om_Name := EmptyString; om_Namespace := EmptyString;
                        om_Labels := ToLabels l; om_Annotations := ToLabels an |})).
Proof.
  intros Hidle Hserve Hrun.
  pose proof (createAppDeployment_stable old a process imageName replicas labels cl) as Hsame.
  rewrite Hrun in Hsame. cbn [fst] in Hsame.
  pose proof (idleControllers_same _ _ Hsame Hidle) as Hidle'.
  pose proof (noFaults_same _ _ Hsame Hserve) as Hserve'.
  destruct (createAppDeployment_applied old a process imageName replicas labels
              cl cl' out (dep, l, an) Hrun) as (Hstore & Hmeta).
  unfold result_of, CurrentLabels, bind, attempt, Deployments_Get, invoke.
  rewrite Hserve', Hidle', Hstore. cbn [snd ret]. rewrite Hmeta. reflexivity.
Qed.

(** ** The timeout error of the monitor *)

Lemma tell_each_run format messages cl :
  tell_each format messages cl
  = (cl, map (fun m => Fprintf format [ArgString m]) messages, Returns tt).
Proof.
  induction messages as [| m rest IH]; [reflexivity |].
  cbn [tell_each map]. unfold bind, tell. rewrite IH. reflexivity.
Qed.


End ReadBack.

(** ** Events of a deployment *)

Lemma prefix_append p s : String.prefix p (p +:+ s) = true.
Proof.
  induction p as [| c p IH]; [destruct s; reflexivity |].
  change (String.prefix (String c p) (String c (p +:+ s)) = true).
  cbn [String.prefix]. destruct (ascii_dec c c); [exact IH | contradiction].
Qed.

Lemma prefix_split p s : String.prefix p s = true -> exists suffix, s = p +:+ suffix.
Proof.
  revert s. induction p as [| c p IH]; intros s Hp.
  - exists s. reflexivity.
  - destruct s as [| c' s]; [discriminate |]. cbn [String.prefix] in Hp.
    destruct (ascii_dec c c') as [<- |]; [| discriminate].
    destruct (IH s Hp) as (suffix & ->). exists suffix. reflexivity.
Qed.

Lemma isDeploymentEvent_prefix msg dep :
  isDeploymentEvent msg dep = true
  <-> evt_IsEvent msg = true
      /\ exists suffix, evt_Name msg = om_Name (dep_Meta dep) +:+ suffix.
Proof.
  unfold isDeploymentEvent, Go.HasPrefix. rewrite andb_true_iff.
  split; intros [He Hp]; (split; [assumption |]).
  - apply prefix_split. assumption.
  - destruct Hp as (suffix & ->). apply prefix_append.
Qed.

(** ** What the rollout monitor asks for and writes *)

Section MonitorRequests.

Context `{Collaborators}.
Variable cfg : Config.

Ltac monitor_requests :=
  repeat first [apply createDeployTimeoutError_issues | issues_step];
  try (split; [reflexivity | auto]).

Lemma filteredPodEvents_requests rv podName : issues monitorRequest (filteredPodEvents rv podName).
Proof. unfold filteredPodEvents, Events_Watch. monitor_requests. Qed.

Lemma monitorDeployment_status_requests a pn spec maxWait st dep :
  issues monitorRequest (monitorDeployment_status a pn spec maxWait st dep).
Proof. unfold monitorDeployment_status. monitor_requests. Qed.

Lemma monitorDeployment_select_requests a pn st dep fired :
  issues monitorRequest (monitorDeployment_select a pn st dep fired).
Proof. unfold monitorDeployment_select, Deployments_Get. monitor_requests. Qed.

Lemma monitorDeployment_converge_requests a pn spec maxWait schedule :
  forall st dep, issues monitorRequest (monitorDeployment_converge a pn spec maxWait schedule st dep).
Proof.
  induction schedule as [| fired schedule IH]; intros st dep; simpl.
  - repeat first [apply monitorDeployment_status_requests | issues_step].
  - repeat first [apply monitorDeployment_status_requests
                 | apply monitorDeployment_select_requests | apply IH | issues_step].
Qed.

Lemma monitorDeployment_generation_requests schedule :
  forall dep, issues monitorRequest (monitorDeployment_generation schedule dep).
Proof.
  induction schedule as [| fired schedule IH]; intros dep; simpl; unfold Deployments_Get.
  - monitor_requests.
  - repeat first [apply IH | issues_step]; try (split; [reflexivity | auto]).
Qed.

Lemma monitorDeployment_requests schedule dep a pn rv :
  issues monitorRequest (monitorDeployment cfg schedule dep a pn rv).
Proof.
  unfold monitorDeployment.
  repeat first [apply filteredPodEvents_requests | apply monitorDeployment_generation_requests
               | apply monitorDeployment_converge_requests | issues_step].
Qed.


End MonitorRequests.

Section MonitorLines.

Context `{Collaborators}.
Variable cfg : Config.

Lemma tell_each_writes L format messages :
  (forall m, L (Fprintf format [ArgString m])) -> writes L (tell_each format messages).
Proof.
  intros HL. induction messages as [| m rest IH]; cbn [tell_each]; [apply writes_ret |].
  apply writes_bind; [apply writes_tell, HL | intros; apply IH].
Qed.

Lemma createDeployTimeoutError_writes a pn timeout label :
  writes progressLine (createDeployTimeoutError a pn timeout label).
Proof.
  unfold createDeployTimeoutError.
  repeat first [apply tell_each_writes; intros; apply line_podNotReady | writes_step].
Qed.

Lemma filteredPodEvents_writes L rv podName : writes L (filteredPodEvents rv podName).
Proof. unfold filteredPodEvents, Events_Watch. repeat writes_step. Qed.

Lemma monitorDeployment_status_writes a pn spec maxWait st dep :
  writes progressLine (monitorDeployment_status a pn spec maxWait st dep).
Proof.
  unfold monitorDeployment_status.
  repeat writes_step.
  - apply line_updated.
  - apply line_healthcheck.
  - apply line_ready.
    match goal with Hb : _ && _ = true |- _ => apply andb_true_iff in Hb; destruct Hb end.
    apply Z.leb_le. assumption.
  - apply line_pending.
    match goal with Hb : _ && _ = true |- _ => apply andb_true_iff in Hb; destruct Hb end.
    apply Z.ltb_lt. assumption.
Qed.

Lemma monitorDeployment_select_writes a pn st dep fired :
  writes progressLine (monitorDeployment_select a pn st dep fired).
Proof.
  unfold monitorDeployment_select, Deployments_Get.
  repeat first [apply createDeployTimeoutError_writes | writes_step].
  apply line_event.
Qed.

Lemma monitorDeployment_converge_writes a pn spec maxWait schedule :
  forall st dep, writes progressLine (monitorDeployment_converge a pn spec maxWait schedule st dep).
Proof.
  induction schedule as [| fired schedule IH]; intros st dep; simpl.
  - repeat first [apply monitorDeployment_status_writes | writes_step].
  - repeat first [apply monitorDeployment_status_writes
                 | apply monitorDeployment_select_writes | apply IH | writes_step].
Qed.

Lemma monitorDeployment_generation_writes L schedule :
  forall dep, writes L (monitorDeployment_generation schedule dep).
Proof.
  induction schedule as [| fired schedule IH]; intros dep; simpl; unfold Deployments_Get.
  - repeat writes_step.
  - repeat first [apply IH | writes_step].
Qed.

Lemma format_neq (f g : string) : String.eqb f g = false -> f <> g.
Proof. apply String.eqb_neq. Qed.

Lemma progressLine_not_done l : progressLine l -> l <> Fprintf doneLine [].
Proof.
  intros Hl E. apply (f_equal line_format) in E. cbn [line_format] in E.
  destruct Hl; cbn [line_format] in E; revert E; apply format_neq; vm_compute; reflexivity.
Qed.

(** The monitor up to the end of the convergence loop writes progress lines
    only. *)
Lemma monitorDeployment_lines schedule dep a pn rv :
  writes (fun l => progressLine l \/ l = Fprintf doneLine [])
         (monitorDeployment cfg schedule dep a pn rv).
Proof.
  unfold monitorDeployment.
  apply writes_bind; [apply filteredPodEvents_writes |]. intros _.
  apply writes_bind; [apply writes_tell; left; apply line_header |]. intros _.
  apply writes_bind; [apply monitorDeployment_generation_writes |]. intros [[schedule' dep'] |];
    [| apply writes_ret].
  apply writes_bind.
  - eapply writes_weaken; [| apply monitorDeployment_converge_writes]. auto.
  - intros [|]; [| apply writes_ret].
    apply writes_bind; [apply writes_tell; right; reflexivity | intros; apply writes_ret].
Qed.

(** X15. Every line [monitorDeployment] writes is the header, the line of a
    counter or of the health-check timer, an event of the deployment, the
    message of a pod that is not ready, or the closing line.  The line of the
    ready units never reports a negative number, and the line of the units
    pending termination reports a positive one. *)
Theorem monitorDeployment_writes_progress_lines schedule dep a pn rv cl :
  let out := output_of (monitorDeployment cfg schedule dep a pn rv) cl in
  Forall (fun l => progressLine l \/ l = Fprintf doneLine []) out
  /\ (forall ready spec, In (Fprintf readyLine [ArgInt ready; ArgInt spec]) out -> 0 <= ready)
  /\ (forall pending, In (Fprintf pendingLine [ArgInt pending]) out -> 0 < pending).
Proof.
  intros out. subst out.
  pose proof (monitorDeployment_lines schedule dep a pn rv cl) as F.
  split; [exact F |]. unfold output_of. rewrite Forall_forall in F.
  split.
  - intros ready spec Hin. apply list_elem_of_In, F in Hin.
    destruct Hin as [Hl | E].
    + inversion Hl; subst; try assumption;
        match goal with
        | E : _ = readyLine |- _ => exfalso; revert E; apply format_neq; vm_compute; reflexivity
        end.
    + apply (f_equal line_format) in E. cbn [line_format] in E.
      exfalso; revert E; apply format_neq; vm_compute; reflexivity.
  - intros pending Hin. apply list_elem_of_In, F in Hin.
    destruct Hin as [Hl | E].
    + inversion Hl; subst; try assumption;
        match goal with
        | E : _ = pendingLine |- _ => exfalso; revert E; apply format_neq; vm_compute; reflexivity
        end.
    + apply (f_equal line_format) in E. cbn [line_format] in E.
      exfalso; revert E; apply format_neq; vm_compute; reflexivity.
Qed.

End MonitorLines.

Section MonitorEnd.

Context `{Collaborators}.
Variable cfg : Config.

Lemma endsWithDone_bind {A} (m : M A) (k : A -> M Completion) :
  writes progressLine m -> (forall a, endsWithDone (k a)) -> endsWithDone (bind m k).
Proof.
  intros Hm Hk cl. unfold bind. specialize (Hm cl).
  destruct (m cl) as [[cl1 o1] [a | e | s]]; cbn [fst snd] in *; try assumption.
  specialize (Hk a cl1). destruct (k a cl1) as [[cl2 o2] [[|] | e | s]]; cbn [fst snd] in *;
    try (apply Forall_app; auto).
  destruct Hk as (lines & -> & Hlines). exists (o1 ++ lines).
  rewrite app_assoc. split; [reflexivity | apply Forall_app; auto].
Qed.

Lemma endsWithDone_blocked : endsWithDone (ret Blocked).
Proof. intros cl. constructor. Qed.

Lemma monitorDeployment_endsWithDone schedule dep a pn rv :
  endsWithDone (monitorDeployment cfg schedule dep a pn rv).
Proof.
  unfold monitorDeployment.
  apply endsWithDone_bind; [apply filteredPodEvents_writes |]. intros _.
  apply endsWithDone_bind; [apply writes_tell, line_header |]. intros _.
  apply endsWithDone_bind; [apply monitorDeployment_generation_writes |].
  intros [[schedule' dep'] |]; [| apply endsWithDone_blocked].
  apply endsWithDone_bind; [apply monitorDeployment_converge_writes |].
  intros [|]; [| apply endsWithDone_blocked].
  intros cl. exists []. split; [reflexivity | constructor].
Qed.

Lemma bind_tell_output {A} format args (k : unit -> M A) cl :
  (bind (tell format args) k cl).1.2 = Fprintf format args :: (k tt cl).1.2.
Proof. unfold bind, tell. destruct (k tt cl) as [[cl2 o2] r2]. reflexivity. Qed.

Lemma filteredPodEvents_silent rv podName cl : (filteredPodEvents rv podName cl).1.2 = [].
Proof.
  pose proof (filteredPodEvents_writes (fun _ => False) rv podName cl) as F.
  destruct ((filteredPodEvents rv podName cl).1.2) as [| l out]; [reflexivity |].
  inversion F as [| ? ? Hl]. destruct Hl.
Qed.

(** X16. [monitorDeployment] writes the header first, once the watch is open, and
    the closing line exactly when it returns successfully, and then as its
    last line: a monitor that fails, or that is still waiting, has not
    written it. *)
Theorem monitorDeployment_done_line_iff_completed schedule dep a pn rv cl :
  let out := output_of (monitorDeployment cfg schedule dep a pn rv) cl in
  let result := result_of (monitorDeployment cfg schedule dep a pn rv) cl in
  (In (Fprintf doneLine []) out <-> result = Returns Completed)
  /\ (result = Returns Completed -> exists lines, out = lines ++ [Fprintf doneLine []])
  /\ (out = [] \/ exists lines, out = Fprintf headerLine [ArgString pn] :: lines).
Proof.
  intros out result. subst out result. unfold output_of, result_of.
  pose proof (monitorDeployment_endsWithDone schedule dep a pn rv cl) as Hend.
  assert ((monitorDeployment cfg schedule dep a pn rv cl).1.2 = []
          \/ exists lines, (monitorDeployment cfg schedule dep a pn rv cl).1.2
                           = Fprintf headerLine [ArgString pn] :: lines) as Hhead.
  { unfold monitorDeployment. rewrite bind_run.
    pose proof (filteredPodEvents_silent rv EmptyString cl) as Hsilent.
    destruct (filteredPodEvents rv EmptyString cl) as [[cl1 o1] [[] | e | s]];
      cbn [fst snd] in *; subst o1; [| left; reflexivity | left; reflexivity].
    right.
    match goal with
    | |- context [bind (tell ?f ?args) ?k cl1] =>
        pose proof (bind_tell_output f args k cl1) as Hout;
        destruct (bind (tell f args) k cl1) as [[cl2 o2] r2]
    end.
    cbn [fst snd app] in *. rewrite Hout. eexists. reflexivity. }
  destruct (monitorDeployment cfg schedule dep a pn rv cl) as [[cl' out] r]; cbn [fst snd] in *.
  assert (Forall progressLine out -> ~ In (Fprintf doneLine []) out) as Hnot.
  { intros F Hin. rewrite Forall_forall in F. apply list_elem_of_In, F in Hin.
    exact (progressLine_not_done _ Hin eq_refl). }
  split; [| split; [| exact Hhead]].
  - destruct r as [[|] | e | s];
      try (split; [intros Hin; destruct (Hnot Hend Hin) | discriminate]).
    destruct Hend as (lines & -> & Hlines).
    split; [reflexivity |]. intros _. apply in_app_iff. right. left. reflexivity.
  - destruct r as [[|] | e | s]; try discriminate.
    destruct Hend as (lines & -> & Hlines). intros _. exists lines. reflexivity.
Qed.

(** X17. The loop that waits for the generation of the deployment to be observed
    hands over to the convergence loop only a deployment whose observed
    generation has reached its generation.  Until then it reads the deployment
    once for every tick it consumes, consumes nothing but ticks, and writes
    nothing. *)
Theorem monitorDeployment_generation_waits_for_observation schedule :
  forall dep cl cl' out rest dep',
    monitorDeployment_generation schedule dep cl = (cl', out, Returns (Some (rest, dep'))) ->
    dep_Generation dep' <= st_ObservedGeneration (dep_Status dep')
    /\ out = []
    /\ exists n reads,
         schedule = repeat Tick n ++ rest
         /\ cc_Actions cl' = cc_Actions cl ++ reads
         /\ length reads = n
         /\ Forall (fun r => act_Verb r = VerbGet /\ act_Resource r = ResDeployments) reads.
Proof.
  induction schedule as [| fired schedule IH]; intros dep cl cl' out rest dep'; simpl.
  - destruct (Z.ltb_spec (st_ObservedGeneration (dep_Status dep)) (dep_Generation dep)).
    + unfold bind. destruct (Deployments_Get _ cl) as [[cl1 o1] [d | e | s]]; discriminate.
    + intros [= <- <- <- <-]. split; [lia |]. split; [reflexivity |].
      exists 0%nat, []. cbn [repeat app length]. rewrite app_nil_r. repeat split. constructor.
  - destruct (Z.ltb_spec (st_ObservedGeneration (dep_Status dep)) (dep_Generation dep)).
    + unfold bind, Deployments_Get, invoke.
      destruct (cc_Reactor cl (cc_Actions cl) _); [discriminate |].
      destruct (tr_Deployments _ !! _) as [d |]; [| discriminate].
      destruct fired; try discriminate.
      destruct (monitorDeployment_generation schedule d _) as [[cl2 o2] r2] eqn:Hrec.
      intros [= <- <- ->].
      destruct (IH _ _ _ _ _ _ Hrec) as (Hgen & -> & n & reads & -> & Hact & Hlen & Hreads).
      split; [assumption |]. split; [reflexivity |].
      eexists (S n), (_ :: reads). cbn [with_Tracker with_Actions cc_Actions] in Hact.
      rewrite Hact, <- app_assoc. repeat split.
      * cbn [length]. congruence.
      * constructor; [split; reflexivity | assumption].
    + intros [= <- <- <- <-]. split; [lia |]. split; [reflexivity |].
      exists 0%nat, []. cbn [repeat app length]. rewrite app_nil_r. repeat split. constructor.
Qed.

End MonitorEnd.

Section HealthcheckTimer.

Context `{Collaborators}.
Variable cfg : Config.

Lemma createDeployTimeoutError_returns a pn timeout label cl :
  exists out err,
    createDeployTimeoutError a pn timeout label cl = (cl, out, Returns err)
    /\ isTimeoutOf label err
    /\ Forall (fun l => line_format l = podNotReadyLine) out.
Proof.
  unfold createDeployTimeoutError. unfold bind at 1. cbn [get_client].
  destruct (notReadyPodEvents cl a pn) as [messages | e0].
  - unfold bind. rewrite tell_each_run. cbn [ret]. eexists _, _.
    split; [reflexivity |]. split; [eexists _, _; reflexivity |].
    rewrite !app_nil_r. apply Forall_forall. intros l Hl.
    apply list_elem_of_In, in_map_iff in Hl. destruct Hl as (m & <- & _). reflexivity.
  - cbn [ret]. eexists _, _. split; [reflexivity |]. split; [eexists _, _; reflexivity |].
    constructor.
Qed.

Lemma isTimeoutOf_label label label' e : isTimeoutOf label e -> isTimeoutOf label' e -> label = label'.
Proof. intros (t & p & ->) (t' & p' & [= -> _ _]). reflexivity. Qed.

Lemma tell_each_stable format messages : stable (tell_each format messages).
Proof. induction messages; cbn [tell_each]; stable_auto. assumption. Qed.

Lemma monitorDeployment_select_stable a pn st dep fired :
  stable (monitorDeployment_select a pn st dep fired).
Proof.
  unfold monitorDeployment_select, createDeployTimeoutError, Deployments_Get.
  repeat first [apply tell_each_stable | stable_step].
Qed.

Lemma monitorDeployment_select_other_lines a pn st dep fired :
  writes (fun l => line_format l <> healthcheckLine) (monitorDeployment_select a pn st dep fired).
Proof.
  unfold monitorDeployment_select, createDeployTimeoutError, Deployments_Get.
  repeat first [apply tell_each_writes; intros | writes_step];
    cbn [line_format]; apply format_neq; vm_compute; reflexivity.
Qed.

(** What the select of the convergence loop leaves of the timer, and how it
    can fail. *)
Lemma monitorDeployment_select_timer a pn st dep fired cl :
  statusFaults cl ->
  match (monitorDeployment_select a pn st dep fired cl).2 with
  | Returns (Some (st', _)) => healthcheckTimeout st' = healthcheckTimeout st
  | Errors e => isTimeoutOf "healthcheck" e -> healthcheckTimeout st <> None
  | _ => True
  end.
Proof.
  intros Hf.
  assert (forall st0 cl0,
             statusFaults cl0 ->
             match ((let* dep := Deployments_Get (om_Name (dep_Meta dep)) in
                     ret (Some (st0, dep))) cl0).2 with
             | Returns (Some (st', _)) => healthcheckTimeout st' = healthcheckTimeout st0
             | Errors e => isTimeoutOf "healthcheck" e -> healthcheckTimeout st <> None
             | _ => True
             end) as Hrefresh.
  { intros st0 cl0 Hf0. unfold bind, Deployments_Get, invoke.
    destruct (cc_Reactor cl0 (cc_Actions cl0) _) as [e |] eqn:Hr; cbn [snd].
    - destruct (Hf0 _ _ _ Hr) as (reason & message & ->). intros (t & p & [=]).
    - destruct (tr_Deployments _ !! _); cbn [snd ret]; [reflexivity |].
      intros (t & p & [=]). }
  assert (forall label elapsed,
             label <> "healthcheck" \/ healthcheckTimeout st <> None ->
             match ((let* err := createDeployTimeoutError a pn elapsed label in
                     @fail (option (rollout * Deployment)) err) cl).2 with
             | Returns (Some (st', _)) => healthcheckTimeout st' = healthcheckTimeout st
             | Errors e => isTimeoutOf "healthcheck" e -> healthcheckTimeout st <> None
             | _ => True
             end) as Htimeout.
  { intros label elapsed Hlabel. unfold bind.
    destruct (createDeployTimeoutError_returns a pn elapsed label cl) as (out & err & -> & Ht & Ho).
    cbn [fail fst snd].
    intros Ht'. destruct Hlabel as [Hlabel | Harmed]; [| assumption].
    exfalso. apply Hlabel. apply (isTimeoutOf_label _ _ _ Ht Ht'). }
  unfold monitorDeployment_select.
  destruct fired as [| msg | | elapsed | elapsed].
  - apply Hrefresh. assumption.
  - destruct (watchCh st); [| exact I].
    unfold bind at 1, when, tell.
    destruct (isDeploymentEvent msg dep); cbn [ret].
    + specialize (Hrefresh st cl Hf).
      destruct ((let* dep0 := Deployments_Get (om_Name (dep_Meta dep)) in ret (Some (st, dep0))) cl)
        as [[cl1 o1] r1]; cbn [fst snd] in *. assumption.
    + specialize (Hrefresh st cl Hf).
      destruct ((let* dep0 := Deployments_Get (om_Name (dep_Meta dep)) in ret (Some (st, dep0))) cl)
        as [[cl1 o1] r1]; cbn [fst snd] in *. assumption.
  - destruct (watchCh st); [| exact I].
    exact (Hrefresh (Build_rollout (oldUpdatedReplicas st) (oldReadyUnits st)
                       (oldPendingTermination st) (healthcheckTimeout st) false) cl Hf).
  - destruct (healthcheckTimeout st) eqn:Harmed; [| exact I].
    apply Htimeout. right. discriminate.
  - apply Htimeout. left. discriminate.
Qed.

Lemma emits_app format out1 out2 :
  emits format (out1 ++ out2) <-> emits format out1 \/ emits format out2.
Proof.
  unfold emits. split.
  - intros (args & Hin). apply in_app_iff in Hin. destruct Hin; [left | right]; eauto.
  - intros [(args & Hin) | (args & Hin)]; exists args; apply in_app_iff; auto.
Qed.

(** In the convergence loop, an error of the health-check timer is returned
    only when the timer is armed: it was armed as the loop was entered, or
    the loop wrote the line that announces the wait for the health check. *)
Lemma monitorDeployment_converge_healthcheck a pn spec maxWait schedule :
  forall st dep cl e,
    statusFaults cl ->
    result_of (monitorDeployment_converge a pn spec maxWait schedule st dep) cl = Errors e ->
    isTimeoutOf "healthcheck" e ->
    healthcheckTimeout st <> None
    \/ emits healthcheckLine
         (output_of (monitorDeployment_converge a pn spec maxWait schedule st dep) cl).
Proof.
  assert (forall st s armedNow,
             healthcheckTimeout (statusNext maxWait st s armedNow) <> None ->
             healthcheckTimeout st <> None \/ emits healthcheckLine (statusLines spec st s armedNow))
    as Harmed.
  { intros st s armedNow. unfold statusNext, statusLines, emits. cbn [healthcheckTimeout].
    destruct (healthcheckTimeout st); [left; discriminate |].
    destruct armedNow; [| intros Hn; destruct Hn; reflexivity].
    intros _. right. eexists. rewrite !in_app_iff. right. left. left. reflexivity. }
  induction schedule as [| fired schedule IH]; intros st dep cl e Hf; simpl;
    unfold result_of, output_of, bind;
    destruct (deadlineExceeded (st_Conditions (dep_Status dep))) eqn:Hd.
  - rewrite monitorDeployment_status_deadline by assumption. cbn [fst snd].
    intros [= <-] (t & p & [=]).
  - rewrite monitorDeployment_status_run by assumption.
    destruct (_ && _); discriminate.
  - rewrite monitorDeployment_status_deadline by assumption. cbn [fst snd].
    intros [= <-] (t & p & [=]).
  - rewrite monitorDeployment_status_run by assumption.
    destruct (_ && _); [discriminate |].
    set (st1 := statusNext maxWait st (dep_Status dep) _).
    set (lines := statusLines spec st (dep_Status dep) _).
    pose proof (monitorDeployment_select_timer a pn st1 dep fired cl Hf) as Hr.
    pose proof (monitorDeployment_select_stable a pn st1 dep fired cl) as Hs.
    destruct (monitorDeployment_select a pn st1 dep fired cl) as [[cl1 o1] r1];
      cbn [fst snd] in *.
    destruct r1 as [[[st2 dep2] |] | e1 | s1]; cbn [fst snd ret]; try discriminate.
    + specialize (IH st2 dep2 cl1 e (statusFaults_same _ _ Hs Hf)).
      unfold result_of, output_of in IH.
      destruct (monitorDeployment_converge a pn spec maxWait schedule st2 dep2 cl1)
        as [[cl2 o2] r2]; cbn [fst snd] in *.
      intros Hres Ht. destruct (IH Hres Ht) as [Hst2 | Hem].
      * rewrite Hr in Hst2. destruct (Harmed _ _ _ Hst2) as [Hst | Hlines]; [left; assumption |].
        right. apply emits_app. left. assumption.
      * right. apply emits_app. right. apply emits_app. right. assumption.
    + intros [= <-] Ht. destruct (Harmed _ _ _ (Hr Ht)) as [Hst | Hlines]; [left; assumption |].
      right. apply emits_app. left. assumption.
Qed.

End HealthcheckTimer.

Section HealthcheckTimeout.

Context `{Collaborators}.
Variable cfg : Config.

Lemma filteredPodEvents_stable rv podName : stable (filteredPodEvents rv podName).
Proof. unfold filteredPodEvents, Events_Watch. stable_auto. Qed.

Lemma monitorDeployment_generation_stable schedule :
  forall dep, stable (monitorDeployment_generation schedule dep).
Proof.
  induction schedule as [| fired schedule IH]; intros dep; simpl; unfold Deployments_Get.
  - stable_auto.
  - repeat first [apply IH | stable_step].
Qed.

(** The wait for the generation fails with an error of the cluster or with its
    own timeout, never with the error of a timer of the convergence loop. *)
Lemma monitorDeployment_generation_errors schedule label :
  forall dep cl e,
    statusFaults cl ->
    result_of (monitorDeployment_generation schedule dep) cl = Errors e ->
    ~ isTimeoutOf label e.
Proof.
  induction schedule as [| fired schedule IH]; intros dep cl e Hf; simpl;
    (destruct (Z.ltb _ _); [| discriminate]);
    unfold result_of, bind, Deployments_Get, invoke;
    destruct (cc_Reactor cl (cc_Actions cl) _) as [e0 |] eqn:Hr; cbn [fst snd].
  - intros [= <-]. destruct (Hf _ _ _ Hr) as (reason & message & ->). intros (t & p & [=]).
  - destruct (tr_Deployments _ !! _); cbn [fst snd ret]; [discriminate |].
    intros [= <-] (t & p & [=]).
  - intros [= <-]. destruct (Hf _ _ _ Hr) as (reason & message & ->). intros (t & p & [=]).
  - destruct (tr_Deployments _ !! _) as [d |]; cbn [fst snd ret];
      [| intros [= <-] (t & p & [=])].
    destruct fired; cbn [fst snd ret fail]; try discriminate.
    + match goal with
      | |- context [monitorDeployment_generation schedule d ?c] =>
          specialize (IH d c e); unfold result_of in IH;
          destruct (monitorDeployment_generation schedule d c) as [[cl2 o2] r2]
      end.
      cbn [fst snd] in *. apply IH. intros history action e1. apply Hf.
    + intros [= <-] (t & p & [=]).
Qed.

(** X18. A monitor that fails with the error of the health-check timer has
    written, earlier, the line that announces the wait for the health check:
    the timer fires only once every new unit is created and the pods of the
    new generation are running.  (The errors of the cluster are API status
    errors, which the timeout error is not.) *)
Theorem monitorDeployment_healthcheck_timeout_follows_wait
    schedule dep a pn rv cl cl1 e :
  statusFaults cl ->
  filteredPodEvents rv EmptyString cl = (cl1, [], Returns tt) ->
  result_of (monitorDeployment cfg schedule dep a pn rv) cl = Errors e ->
  isTimeoutOf "healthcheck" e ->
  emits healthcheckLine (output_of (monitorDeployment cfg schedule dep a pn rv) cl).
Proof.
  intros Hf Hw Hres Ht.
  pose proof (filteredPodEvents_stable rv EmptyString cl) as Hs1.
  rewrite Hw in Hs1. cbn [fst] in Hs1.
  pose proof (statusFaults_same _ _ Hs1 Hf) as Hf1.
  unfold result_of, output_of in *.
  destruct (monitorDeployment cfg schedule dep a pn rv cl) as [[clf outf] rf] eqn:Hrun.
  cbn [fst snd] in *. subst rf.
  unfold monitorDeployment in Hrun.
  unfold bind at 1 in Hrun. rewrite Hw in Hrun.
  unfold bind at 1 in Hrun. cbn [tell] in Hrun.
  unfold bind at 1 in Hrun.
  pose proof (monitorDeployment_generation_errors schedule "healthcheck" dep cl1) as Hgen.
  pose proof (monitorDeployment_generation_stable schedule dep cl1) as Hs2.
  unfold result_of in Hgen.
  destruct (monitorDeployment_generation schedule dep cl1) as [[cl2 o2] r2];
    cbn [fst snd] in *.
  destruct r2 as [[[schedule' dep'] |] | e2 | s2]; cbn [fst snd ret] in *; try discriminate.
  - pose proof (statusFaults_same _ _ Hs2 Hf1) as Hf2.
    unfold bind in Hrun.
    pose proof (monitorDeployment_converge_healthcheck a pn
                  (default 0 (ds_Replicas (dep_Spec dep'))) (maxWaitTimeDuration cfg)
                  schedule' initialRollout dep' cl2) as Hconv.
    unfold result_of, output_of in Hconv.
    destruct (monitorDeployment_converge _ _ _ _ schedule' initialRollout dep' cl2)
      as [[cl3 o3] r3]; cbn [fst snd] in *.
    destruct r3 as [[|] | e3 | s3]; cbn [fst snd ret tell] in *; try discriminate.
    injection Hrun as <- <- ->.
    destruct (Hconv e Hf2 eq_refl Ht) as [Harmed | Hem]; [destruct Harmed; reflexivity |].
    destruct Hem as (args & Hin). exists args. right. apply in_app_iff. right. assumption.
  - injection Hrun as <- <- ->. destruct (Hgen e Hf1 eq_refl Ht).
Qed.

End HealthcheckTimeout.

(** ** [DeployService]: order of the requests, exposure of the services *)

Section Exposure.

Context `{Collaborators}.
Variable cfg : Config.







Lemma DeployService_apply_noService a process labels replicas img :
  issues noService (DeployService_apply cfg a process labels replicas img).
Proof.
  unfold DeployService_apply, ensureServiceAccountForApp, ensureServiceAccount,
    ServiceAccounts_Create, Deployments_Get, Events_List, createAppDeployment,
    lift_WithStack, divide, getImagePullSecrets, ensureAuthSecret, Secrets_Update,
    Secrets_Create, Deployments_Create, Deployments_Update.
  issues_auto; discriminate.
Qed.

Lemma monitorDeployment_noService schedule dep a pn rv :
  issues noService (monitorDeployment cfg schedule dep a pn rv).
Proof.
  eapply issues_weaken; [| apply monitorDeployment_requests].
  intros r (_ & [(_ & Hr) | (_ & Hr)]); unfold noService; rewrite Hr; discriminate.
Qed.

(** X21. [DeployService] touches the services only after a rollout that
    converged: a request on a service is the creation of the service of the
    process or of its headless service, and it is issued only when the
    deployment was applied and [monitorDeployment] returned successfully. *)
Theorem DeployService_exposes_after_convergence
    (m : serviceManager) schedule a process labels replicas img r :
  let run := DeployService cfg m schedule a process labels replicas img in
  let requests := drop (length (cc_Actions (sm_client m))) (cc_Actions (sm_client run.1)) in
  In r requests ->
  act_Resource r = ResServices ->
  act_Verb r = VerbCreate
  /\ (act_Name r = deploymentNameForApp a process
      \/ act_Name r = headlessServiceNameForApp a process)
  /\ exists cl1 out1 dep labels' annotations rv cl2 out2,
       DeployService_apply cfg a process labels replicas img (sm_client m)
       = (cl1, out1, Returns (dep, labels', annotations, rv))
       /\ monitorDeployment cfg schedule dep a process rv cl1 = (cl2, out2, Returns Completed).
Proof.
  intros run requests. subst run requests. unfold DeployService.
  destruct (DeployService_apply_noService a process labels replicas img (sm_client m))
    as (n1 & E1 & F1).
  assert (forall n, Forall noService n -> In r n -> act_Resource r = ResServices -> False)
    as Hquiet.
  { intros n F Hin Hr. rewrite Forall_forall in F. apply list_elem_of_In in Hin.
    exact (F r Hin Hr). }
  destruct (DeployService_apply cfg a process labels replicas img (sm_client m))
    as [[cl1 out1] [[[[dep labels'] annotations] rv] | e | s]]; cbn [fst snd] in *.
  - unfold DeployService_rollout, bind at 1, attempt.
    destruct (monitorDeployment_noService schedule dep a process rv cl1) as (n2 & E2 & F2).
    destruct (monitorDeployment cfg schedule dep a process rv cl1)
      as [[cl2 out2] [[|] | err | s]] eqn:Hmon; cbn [fst snd] in *.
    + assert (issues (fun r => act_Resource r = ResServices ->
                               act_Verb r = VerbCreate
                               /\ (act_Name r = deploymentNameForApp a process
                                   \/ act_Name r = headlessServiceNameForApp a process))
                (DeployService_expose a process img labels' annotations)) as Hexpose.
      { unfold DeployService_expose, Services_Create. issues_auto; intros _; cbn; auto. }
      destruct (Hexpose cl2) as (n3 & E3 & F3).
      destruct (DeployService_expose a process img labels' annotations cl2) as [[cl3 o3] r3].
      cbn [fst snd sm_client] in *.
      rewrite E3, E2, E1, <- !app_assoc, drop_app_length.
      intros Hin Hr. rewrite !in_app_iff in Hin.
      destruct Hin as [Hin | [Hin | Hin]];
        [destruct (Hquiet _ F1 Hin Hr) | destruct (Hquiet _ F2 Hin Hr) |].
      rewrite Forall_forall in F3. apply list_elem_of_In in Hin.
      destruct (F3 r Hin Hr) as (Hv & Hn). split; [assumption |]. split; [assumption |].
      eexists _, _, _, _, _, _, _, _. split; [reflexivity | exact Hmon].
    + unfold ret. cbn [fst snd sm_client]. rewrite E2, E1, <- app_assoc, drop_app_length.
      intros Hin Hr. rewrite in_app_iff in Hin.
      destruct Hin as [Hin | Hin];
        [destruct (Hquiet _ F1 Hin Hr) | destruct (Hquiet _ F2 Hin Hr)].
    + unfold bind, tell.
      destruct (Deployments_Rollback_actions (deploymentNameForApp a process) cl2)
        as (Hact & _ & _).
      destruct (Deployments_Rollback (deploymentNameForApp a process) cl2)
        as [[cl3 o3] [[] | e3 | s3]]; cbn [fst snd sm_client tell ret fail] in *;
        rewrite Hact, E2, E1, <- !app_assoc, drop_app_length;
        intros Hin Hr; rewrite !in_app_iff in Hin;
        (destruct Hin as [Hin | [Hin | [<- | []]]];
         [destruct (Hquiet _ F1 Hin Hr) | destruct (Hquiet _ F2 Hin Hr) | discriminate]).
    + cbn [sm_client]. rewrite E2, E1, <- app_assoc, drop_app_length.
      intros Hin Hr. rewrite in_app_iff in Hin.
      destruct Hin as [Hin | Hin];
        [destruct (Hquiet _ F1 Hin Hr) | destruct (Hquiet _ F2 Hin Hr)].
  - cbn [sm_client]. rewrite E1, drop_app_length. intros Hin Hr. destruct (Hquiet _ F1 Hin Hr).
  - cbn [sm_client]. rewrite E1, drop_app_length. intros Hin Hr. destruct (Hquiet _ F1 Hin Hr).
Qed.

End Exposure.

Section ExposeTwice.

Context `{Collaborators}.
Variable cfg : Config.

(** X22. On a cluster that serves every request and whose controllers are idle,
    the exposure step of [DeployService] succeeds whether or not the services
    exist: afterwards the store holds a service under the name of the process
    and one under the name of its headless service, and every service the
    store held before is kept as it was, so a service that already exists is
    not brought up to date. *)
Theorem DeployService_expose_keeps_existing_services a process img labels annotations cl :
  noFaults cl ->
  idleControllers cl ->
  let run := DeployService_expose a process img labels annotations cl in
  run.2 = Returns Completed
  /\ is_Some (tr_Services (cc_Tracker run.1.1) !! deploymentNameForApp a process)
  /\ is_Some (tr_Services (cc_Tracker run.1.1) !! headlessServiceNameForApp a process)
  /\ forall name existing,
       tr_Services (cc_Tracker cl) !! name = Some existing ->
       tr_Services (cc_Tracker run.1.1) !! name = Some existing.
Proof.
  intros Hserve Hidle run. subst run.
  unfold DeployService_expose, bind, attempt, get_client, Services_Create, invoke.
  cbn -[lookup insert]. rewrite !Hserve, !Hidle.
  destruct (tr_Services (cc_Tracker cl) !! deploymentNameForApp a process)
    as [s1 |] eqn:H1; cbn -[lookup insert]; rewrite !Hserve, !Hidle; cbn -[lookup insert].
  - destruct (tr_Services (cc_Tracker cl) !! headlessServiceNameForApp a process)
      as [s2 |] eqn:H2; cbn -[lookup insert].
    + rewrite H1, H2. repeat split; eauto.
    + rewrite lookup_insert_eq.
      destruct (decide (headlessServiceNameForApp a process = deploymentNameForApp a process))
        as [E | E].
      * rewrite E in H2. congruence.
      * rewrite lookup_insert_ne by congruence. rewrite H1.
        repeat split; eauto. intros name existing Hl.
        rewrite lookup_insert_ne; [assumption | congruence].
  - destruct (decide (headlessServiceNameForApp a process = deploymentNameForApp a process))
      as [E | E].
    + rewrite E, lookup_insert_eq. cbn -[lookup insert]. rewrite lookup_insert_eq.
      repeat split; eauto. intros name existing Hl.
      rewrite lookup_insert_ne; [assumption | congruence].
    + rewrite lookup_insert_ne by congruence.
      destruct (tr_Services (cc_Tracker cl) !! headlessServiceNameForApp a process)
        as [s2 |] eqn:H2; cbn -[lookup insert].
      * rewrite lookup_insert_eq, lookup_insert_ne, H2 by congruence.
        repeat split; eauto. intros name existing Hl.
        rewrite lookup_insert_ne; [assumption | congruence].
      * rewrite lookup_insert_eq, lookup_insert_ne, lookup_insert_eq by congruence.
        repeat split; eauto. intros name existing Hl.
        rewrite !lookup_insert_ne; [assumption | congruence | congruence].
Qed.

End ExposeTwice.

(** ** [RemoveService] *)

Section RemovalTheorems.

Context `{Collaborators} `{RemovalCollaborators}.

Lemma Services_Delete_actions name cl :
  cc_Actions (Services_Delete name cl).1.1 = cc_Actions cl ++ [deleteOf ResServices name]
  /\ (Services_Delete name cl).1.2 = []
  /\ forall s, (Services_Delete name cl).2 <> Panics s.
Proof.
  unfold Services_Delete, invoke.
  destruct (cc_Reactor cl (cc_Actions cl) _); [repeat split; discriminate |].
  destruct (tr_Services _ !! name); repeat split; discriminate.
Qed.

(** X23. [RemoveService] always goes through its three steps: after
    [cleanupDeployment], whatever it returned, it asks for the deletion of
    the service of the process and then, whatever the answer, for the
    deletion of the headless service.  The error it returns is what [ToError]
    makes of the errors of the three steps that are not not-found answers, in
    that order, those of the two deletions with a stack; not-found answers
    and successes add nothing. *)
Theorem RemoveService_attempts_every_step a process cl :
  let depName := deploymentNameForApp a process in
  let headless := headlessServiceNameForApp a process in
  let cleaned := cleanupDeployment cl a process in
  let first := Services_Delete depName cleaned.1 in
  let second := Services_Delete headless first.1.1 in
  let collected :=
    addUnlessNotFound [] (fun e => e) cleaned.2
    ++ addUnlessNotFound [] WithStack (outcome_error first.2)
    ++ addUnlessNotFound [] WithStack (outcome_error second.2) in
  RemoveService a process cl
  = (second.1.1, [],
     match MultiError_ToError collected with
     | Some e => Errors e
     | None => Returns tt
     end)
  /\ cc_Actions second.1.1
     = cc_Actions cleaned.1 ++ [deleteOf ResServices depName; deleteOf ResServices headless].
Proof.
  intros depName headless cleaned first second collected.
  subst collected second first cleaned depName headless.
  pose proof (Services_Delete_actions (deploymentNameForApp a process)
                (cleanupDeployment cl a process).1) as (A1 & O1 & P1).
  pose proof (Services_Delete_actions (headlessServiceNameForApp a process)
                (Services_Delete (deploymentNameForApp a process)
                   (cleanupDeployment cl a process).1).1.1) as (A2 & O2 & P2).
  split.
  - unfold RemoveService. cbv zeta. unfold bind, attempt.
    destruct (cleanupDeployment cl a process) as [cl1 err0]. cbn [fst snd] in *.
    assert (forall (l1 l2 : list error) wrap err,
               addUnlessNotFound (l1 ++ l2) wrap err = l1 ++ addUnlessNotFound l2 wrap err)
      as Hadd.
    { intros l1 l2 wrap [e |]; cbn [addUnlessNotFound]; [| reflexivity].
      destruct (negb (IsNotFound e)); [rewrite app_assoc |]; reflexivity. }
    assert (forall (l : list error) wrap err,
               addUnlessNotFound l wrap err = l ++ addUnlessNotFound [] wrap err) as Hadd0.
    { intros l wrap err. rewrite <- (app_nil_r l) at 1. apply Hadd. }
    destruct (Services_Delete (deploymentNameForApp a process) cl1) as [[cl2 o2] r2].
    cbn [fst snd] in *. subst o2.
    destruct r2 as [[] | e2 | s2]; [| | destruct (P1 s2); reflexivity];
      cbv beta iota zeta;
      destruct (Services_Delete (headlessServiceNameForApp a process) cl2) as [[cl3 o3] r3];
      cbn [fst snd] in *; subst o3;
      (destruct r3 as [[] | e3 | s3]; [| | destruct (P2 s3); reflexivity]);
      cbv beta iota zeta; cbn [result_error outcome_error];
      rewrite (Hadd0 (addUnlessNotFound _ WithStack _)),
        (Hadd0 (addUnlessNotFound _ (fun e => e) _)), <- app_assoc;
      unfold check;
      match goal with
      | |- context [MultiError_ToError ?l] => destruct (MultiError_ToError l)
      end; reflexivity.
  - rewrite A2, A1, <- app_assoc. reflexivity.
Qed.

End RemovalTheorems.

(** ** The target port and the register command *)

Lemma Split_no_separator s sep :
  ~ In sep (list_ascii_of_string s) -> Go.Split s sep = [s].
Proof.
  induction s as [| c s IH]; [reflexivity |]. cbn [list_ascii_of_string Go.Split In].
  intros Hn. destruct (Ascii.eqb_spec c sep) as [E | E]; [destruct Hn; auto |].
  rewrite IH by auto. reflexivity.
Qed.

Lemma Split_first_separator p rest sep :
  ~ In sep (list_ascii_of_string p) ->
  Go.Split (p +:+ String sep rest) sep = p :: Go.Split rest sep.
Proof.
  induction p as [| c p IH]; cbn [list_ascii_of_string In].
  - intros _. change (EmptyString +:+ String sep rest) with (String sep rest).
    cbn [Go.Split]. rewrite Ascii.eqb_refl. reflexivity.
  - intros Hn. change (String c p +:+ String sep rest) with (String c (p +:+ String sep rest)).
    cbn [Go.Split]. destruct (Ascii.eqb_spec c sep) as [E | E]; [destruct Hn; auto |].
    rewrite IH by auto. reflexivity.
Qed.

Section TargetPort.

Context `{Collaborators}.
Variable cfg : Config.

(** X24. [getTargetPortForImage] takes the port of the image from the text before
    the first slash of its exposed port; an exposed port that is empty or
    holds no slash is ignored, and the default port of the web process is
    used. *)
Theorem getTargetPortForImage_reads_port_before_slash imgName :
  (forall port protocol,
      GetImageExposedPort imgName = port +:+ String "/"%char protocol ->
      noSlash port ->
      getTargetPortForImage imgName = strconv_Atoi port)
  /\ (noSlash (GetImageExposedPort imgName) ->
      getTargetPortForImage imgName = strconv_Atoi WebProcessDefaultPort).
Proof.
  unfold getTargetPortForImage, SplitN2, noSlash. split.
  - intros port protocol -> Hn.
    rewrite Split_first_separator by assumption.
    destruct (String.eqb_spec (port +:+ String "/"%char protocol) EmptyString) as [E | E].
    + destruct port; discriminate.
    + cbn [negb]. pose proof (Split_not_nil protocol "/"%char) as Hne.
      destruct (Go.Split protocol "/"%char) as [| w ws]; [contradiction | reflexivity].
  - intros Hn. rewrite Split_no_separator by assumption.
    destruct (negb _); reflexivity.
Qed.

Lemma HasSuffix_append_slash s : Go.HasSuffix (s +:+ "/") "/" = true.
Proof.
  unfold Go.HasSuffix.
  assert (String.length (s +:+ "/") = S (String.length s)) as ->.
  { induction s as [| c s IH]; [reflexivity |].
    change (String c s +:+ "/") with (String c (s +:+ "/")).
    cbn [String.length]. f_equal. exact IH. }
  cbn [String.length Nat.leb Nat.sub]. rewrite Nat.sub_0_r.
  assert (String.substring (String.length s) 1 (s +:+ "/") = "/") as ->; [| reflexivity].
  induction s as [| c s IH]; [reflexivity |].
  change (String c s +:+ "/") with (String c (s +:+ "/")).
  cbn [String.length String.substring]. exact IH.
Qed.

Lemma append_assoc (a b c : string) : (a +:+ b) +:+ c = a +:+ (b +:+ c).
Proof.
  induction a as [| x a IH]; [reflexivity |].
  change ((String x a +:+ b) +:+ c) with (String x ((a +:+ b) +:+ c)).
  rewrite IH. reflexivity.
Qed.

Lemma HasSuffix_slash_split s : Go.HasSuffix s "/" = true -> exists t, s = t +:+ "/".
Proof.
  induction s as [| c s IH]; [discriminate |].
  destruct s as [| c' s'].
  - unfold Go.HasSuffix. cbn. intros E. exists EmptyString.
    destruct (Ascii.eqb_spec c "/"%char) as [-> |]; [reflexivity | discriminate].
  - intros Hs. destruct IH as (t & ->).
    + unfold Go.HasSuffix in *. cbn [String.length Nat.leb Nat.sub] in *.
      rewrite Nat.sub_0_r in *. exact Hs.
    + exists (String c t). reflexivity.
Qed.

Lemma HasSuffix_prepend p s : Go.HasSuffix s "/" = true -> Go.HasSuffix (p +:+ s) "/" = true.
Proof.
  intros Hs. destruct (HasSuffix_slash_split s Hs) as (t & ->).
  rewrite <- append_assoc. apply HasSuffix_append_slash.
Qed.

Lemma HasPrefix_append s p t : Go.HasPrefix s p = true -> Go.HasPrefix (s +:+ t) p = true.
Proof.
  unfold Go.HasPrefix. intros Hp. destruct (prefix_split _ _ Hp) as (suffix & ->).
  rewrite append_assoc. apply prefix_append.
Qed.

(** X25. The command [extraRegisterCmds] builds posts to the register URL of the
    application on the configured host, made into a base URL: the host is
    given the prefix [http://] unless it starts with [http], and a final
    slash unless it ends with one, so the base starts with [http] and ends
    with a slash, and a host that already does is used as it is.  The token is
    that of the environment of the application, empty when it has none. *)
Theorem extraRegisterCmds_posts_to_normalized_host a :
  exists base,
    extraRegisterCmds cfg a
    = "curl -sSL -m15 -XPOST -d" +:+ dquote +:+ "hostname=$(hostname)" +:+ dquote
      +:+ " -o/dev/null -H" +:+ dquote +:+ "Content-Type:application/x-www-form-urlencoded"
      +:+ dquote +:+ " -H" +:+ dquote +:+ "Authorization:bearer "
      +:+ default EmptyString (app_Envs a !! "TSURU_APP_TOKEN") +:+ dquote
      +:+ " " +:+ base +:+ "apps/" +:+ app_Name a +:+ "/units/register || true"
    /\ Go.HasPrefix base "http" = true
    /\ Go.HasSuffix base "/" = true
    /\ (Go.HasPrefix (host cfg) "http" = true -> Go.HasSuffix (host cfg) "/" = true ->
        base = host cfg)
    /\ (Go.HasPrefix (host cfg) "http" = false -> Go.HasSuffix (host cfg) "/" = true ->
        base = "http://" +:+ host cfg).
Proof.
  unfold extraRegisterCmds.
  set (h1 := if negb (Go.HasPrefix (host cfg) "http") then "http://" +:+ host cfg else host cfg).
  set (h2 := if negb (Go.HasSuffix h1 "/") then h1 +:+ "/" else h1).
  exists h2. split; [reflexivity |].
  assert (Go.HasPrefix h1 "http" = true) as Hp1.
  { subst h1. destruct (Go.HasPrefix (host cfg) "http") eqn:E; cbn [negb]; [assumption |].
    reflexivity. }
  split; [| split; [| split]].
  - subst h2. destruct (Go.HasSuffix h1 "/"); cbn [negb]; [assumption |].
    apply HasPrefix_append. assumption.
  - subst h2. destruct (Go.HasSuffix h1 "/") eqn:E; cbn [negb]; [assumption |].
    apply HasSuffix_append_slash.
  - intros Hp Hs. subst h2 h1. rewrite Hp. cbn [negb]. rewrite Hs. reflexivity.
  - intros Hp Hs. subst h2 h1. rewrite Hp. cbn [negb].
    rewrite (HasSuffix_prepend "http://" _ Hs). reflexivity.
Qed.

End TargetPort.

(** ** The inspect sidecar *)

Section Inspect.

Context `{Collaborators}.
Variable cfg : Config.



End Inspect.

(** ** The event watch in the convergence loop *)

Section WatchClosed.

Context `{Collaborators}.
Variable cfg : Config.

Lemma monitorDeployment_status_closeWatch a pn spec maxWait st dep cl :
  monitorDeployment_status a pn spec maxWait (closeWatch st) dep cl
  = match monitorDeployment_status a pn spec maxWait st dep cl with
    | (cl', out, Returns (st1, done)) => (cl', out, Returns (closeWatch st1, done))
    | other => other
    end.
Proof.
  destruct (deadlineExceeded (st_Conditions (dep_Status dep))) eqn:Hd.
  - rewrite !monitorDeployment_status_deadline by assumption. reflexivity.
  - rewrite !monitorDeployment_status_run by assumption. reflexivity.
Qed.

Lemma monitorDeployment_status_watchCh a pn spec maxWait st dep cl cl' out st1 done :
  monitorDeployment_status a pn spec maxWait st dep cl = (cl', out, Returns (st1, done)) ->
  watchCh st1 = watchCh st.
Proof.
  destruct (deadlineExceeded (st_Conditions (dep_Status dep))) eqn:Hd.
  - rewrite monitorDeployment_status_deadline by assumption. discriminate.
  - rewrite monitorDeployment_status_run by assumption. intros [= _ _ <- _]. reflexivity.
Qed.

(** Without a delivery of the watch in the schedule, the convergence loop
    runs the same whether the channel of the watch is open or nil. *)
Lemma monitorDeployment_converge_closeWatch a pn spec maxWait schedule :
  Forall (fun s => isWatchSelect s = false) schedule ->
  forall st dep cl,
    monitorDeployment_converge a pn spec maxWait schedule (closeWatch st) dep cl
    = monitorDeployment_converge a pn spec maxWait schedule st dep cl.
Proof.
  induction 1 as [| fired schedule Hfired Hrest IH]; intros st dep cl; simpl;
    rewrite !bind_run, monitorDeployment_status_closeWatch;
    destruct (monitorDeployment_status a pn spec maxWait st dep cl)
      as [[cl1 o1] [[st1 done] | e | s]]; try reflexivity.
  destruct done; [reflexivity |].
  destruct fired as [| msg | | elapsed | elapsed]; try discriminate;
    cbn [monitorDeployment_select closeWatch healthcheckTimeout].
  - unfold bind.
    destruct (Deployments_Get (om_Name (dep_Meta dep)) cl1) as [[cl2 o2] [d | e | s]];
      cbn [ret fst snd]; try reflexivity.
    rewrite IH. reflexivity.
  - destruct (healthcheckTimeout st1); reflexivity.
  - reflexivity.
Qed.

(** X19. The monitor goes on when the event watch is closed: in the convergence
    loop, the closing of the watch is handled as a tick of the poll, the
    deployment is read again and the loop continues, for every schedule that
    delivers nothing more from the closed watch. *)
Theorem monitorDeployment_goes_on_after_watch_closes a pn spec maxWait schedule st dep cl :
  watchCh st = true ->
  Forall (fun s => isWatchSelect s = false) schedule ->
  monitorDeployment_converge a pn spec maxWait (WatchClosed :: schedule) st dep cl
  = monitorDeployment_converge a pn spec maxWait (Tick :: schedule) st dep cl.
Proof.
  intros Hopen Hfree. simpl. rewrite !bind_run.
  destruct (monitorDeployment_status a pn spec maxWait st dep cl)
    as [[cl1 o1] [[st1 done] | e | s]] eqn:Hstatus; try reflexivity.
  destruct done; [reflexivity |].
  rewrite (monitorDeployment_status_watchCh _ _ _ _ _ _ _ _ _ _ _ Hstatus), Hopen.
  unfold bind.
  destruct (Deployments_Get (om_Name (dep_Meta dep)) cl1) as [[cl2 o2] [d | e | s]];
    cbn [ret fst snd]; try reflexivity.
  change {| oldUpdatedReplicas := oldUpdatedReplicas st1;
            oldReadyUnits := oldReadyUnits st1;
            oldPendingTermination := oldPendingTermination st1;
            healthcheckTimeout := healthcheckTimeout st1;
            watchCh := false |} with (closeWatch st1).
  rewrite monitorDeployment_converge_closeWatch by assumption. reflexivity.
Qed.

(** X13. [isDeploymentEvent] matches on a prefix: a message of the watch belongs
    to a deployment exactly when its object is an event whose name starts
    with the name of the deployment, so the events of a deployment whose name
    extends that name belong to it as well.  In the convergence loop, a
    message of the open watch is echoed exactly when it belongs to the
    deployment, as one line made of the message without the path of its
    sub-object, and no other line is written. *)
Theorem monitorDeployment_echoes_events_by_name_prefix a pn st dep msg cl :
  (isDeploymentEvent msg dep = true
   <-> evt_IsEvent msg = true
       /\ exists suffix, evt_Name msg = om_Name (dep_Meta dep) +:+ suffix)
  /\ (watchCh st = true ->
      output_of (monitorDeployment_select a pn st dep (WatchMessage msg)) cl
      = if isDeploymentEvent msg dep
        then [Fprintf eventLine [ArgString (formatEvtMessage msg false)]]
        else []).
Proof.
  split; [apply isDeploymentEvent_prefix |].
  intros Hopen. unfold output_of, monitorDeployment_select. rewrite Hopen.
  unfold bind, when, tell, Deployments_Get, invoke.
  destruct (isDeploymentEvent msg dep); cbn [ret];
    (destruct (cc_Reactor cl (cc_Actions cl) _); [reflexivity |]);
    destruct (tr_Deployments _ !! _); reflexivity.
Qed.

End WatchClosed.

(** ** The registry of an image *)

Lemma Split_head s sep :
  (~ In sep (list_ascii_of_string s) /\ Go.Split s sep = [s])
  \/ exists p rest,
       s = p +:+ String sep rest
       /\ ~ In sep (list_ascii_of_string p)
       /\ Go.Split s sep = p :: Go.Split rest sep.
Proof.
  induction s as [| c s IH].
  - left. split; [intros [] | reflexivity].
  - destruct (Ascii.eqb_spec c sep) as [-> | Hc].
    + right. exists EmptyString, s. split; [reflexivity |]. split; [intros [] |].
      cbn [Go.Split]. rewrite Ascii.eqb_refl. reflexivity.
    + apply Ascii.eqb_neq in Hc.
      destruct IH as [(Hn & Hs) | (p & rest & -> & Hn & Hs)].
      * left. split.
        -- cbn [list_ascii_of_string In]. intros [E | Hin]; [| contradiction].
           subst. rewrite Ascii.eqb_refl in Hc. discriminate.
        -- cbn [Go.Split]. rewrite Hc, Hs. reflexivity.
      * right. exists (String c p), rest. split; [reflexivity |]. split.
        -- cbn [list_ascii_of_string In]. intros [E | Hin]; [| contradiction].
           subst. rewrite Ascii.eqb_refl in Hc. discriminate.
        -- change (String c p +:+ String sep rest) with (String c (p +:+ String sep rest)).
           cbn [Go.Split]. rewrite Hc, Hs. reflexivity.
Qed.

Section ImageDomain.

Context `{Collaborators}.
Variable cfg : Config.

Lemma imgDomainOf_cases image :
  (noSlash image /\ imgDomainOf image = image)
  \/ exists domain rest,
       image = domain +:+ String "/"%char rest
       /\ noSlash domain
       /\ imgDomainOf image = domain.
Proof.
  unfold imgDomainOf, noSlash.
  destruct (Split_head image "/"%char) as [(Hn & ->) | (p & rest & -> & Hn & ->)].
  - left. auto.
  - right. exists p, rest. auto.
Qed.

Lemma imgDomainOf_noSlash image : noSlash (imgDomainOf image).
Proof.
  destruct (imgDomainOf_cases image) as [(Hn & ->) | (domain & rest & _ & Hn & ->)]; assumption.
Qed.

Lemma append_slash_inj d1 d2 r1 r2 :
  noSlash d1 -> noSlash d2 ->
  d1 +:+ String "/"%char r1 = d2 +:+ String "/"%char r2 -> d1 = d2.
Proof.
  unfold noSlash. revert d2. induction d1 as [| c d1 IH]; intros [| c2 d2] H1 H2 E.
  - reflexivity.
  - injection E as <- _. destruct H2. left. reflexivity.
  - injection E as -> _. destruct H1. left. reflexivity.
  - injection E as <- E. f_equal. apply IH; [| | assumption].
    + intros Hin. apply H1. right. assumption.
    + intros Hin. apply H2. right. assumption.
Qed.

(** X27. The registry of an image is the text before its first slash, the whole
    reference when it holds none.  So an image is on the configured registry
    exactly when it is the registry itself or the registry followed by a
    slash; and a registry configured with a slash in it matches no image:
    [getImagePullSecrets] then never references the secret and [registryAuth]
    never gives the credentials. *)
Theorem registry_of_an_image_is_text_before_first_slash :
  (forall image,
      imgDomainOf image = docker_registry cfg
      <-> noSlash (docker_registry cfg)
          /\ (image = docker_registry cfg
              \/ exists rest, image = docker_registry cfg +:+ String "/"%char rest))
  /\ (~ noSlash (docker_registry cfg) ->
      (forall images cl, getImagePullSecrets cfg images cl = (cl, [], Returns []))
      /\ forall image, registryAuth cfg image = (EmptyString, EmptyString, EmptyString)).
Proof.
  assert (forall image,
             imgDomainOf image = docker_registry cfg
             <-> noSlash (docker_registry cfg)
                 /\ (image = docker_registry cfg
                     \/ exists rest, image = docker_registry cfg +:+ String "/"%char rest))
    as Hdomain.
  { intros image. split.
    - intros E. split; [rewrite <- E; apply imgDomainOf_noSlash |].
      destruct (imgDomainOf_cases image) as [(Hn & Hd) | (domain & rest & Hi & Hn & Hd)].
      + left. congruence.
      + right. exists rest. congruence.
    - intros (Hn & [-> | (rest & ->)]).
      + destruct (imgDomainOf_cases (docker_registry cfg))
          as [(_ & Hd) | (domain & rest & Hi & Hn' & Hd)]; [assumption |].
        exfalso. apply Hn. rewrite Hi. clear.
        induction domain as [| c domain IH]; [left; reflexivity | right; exact IH].
      + destruct (imgDomainOf_cases (docker_registry cfg +:+ String "/"%char rest))
          as [(Hn' & _) | (domain & rest' & Hi & Hn' & Hd)].
        * exfalso. apply Hn'. clear.
          induction (docker_registry cfg) as [| c domain IH];
            [left; reflexivity | right; exact IH].
        * rewrite Hd. symmetry. eapply append_slash_inj; eassumption. }
  split; [exact Hdomain |].
  intros Hslash.
  assert (forall image, String.eqb (imgDomainOf image) (docker_registry cfg) = false) as Hnever.
  { intros image. apply String.eqb_neq. intros E. apply Hdomain in E. destruct E as [Hn _].
    contradiction. }
  split.
  - intros images cl. unfold getImagePullSecrets.
    assert (useSecret (docker_registry cfg) images = false) as ->; [| reflexivity].
    induction images as [| image images IH]; [reflexivity |].
    cbn [useSecret]. rewrite Hnever. exact IH.
  - intros image. unfold registryAuth. rewrite Hnever. reflexivity.
Qed.

End ImageDomain.

(** ** The theorems on the concrete cluster *)

#[local] Existing Instance Demo.collab.



Lemma monitorDeployment_progress_deadline_fails_witness :
  let dep := Demo.deployment 3 (Demo.statusOf 3 3 0 [Demo.deadlineExceededCondition]) in
  In Demo.deadlineExceededCondition (st_Conditions (dep_Status dep))
  /\ monitorDeployment_converge Demo.myapp "web" 3 (120 * Second) [Tick] initialRollout dep
       Demo.cluster
     = (Demo.cluster, [],
        Errors (Errorf "deployment %q exceeded its progress deadline" [ArgString "myapp-web"])).
Proof.
  intros dep.
  assert (Hin : In Demo.deadlineExceededCondition (st_Conditions (dep_Status dep)))
    by (left; reflexivity).
  split; [exact Hin |].
  exact (monitorDeployment_progress_deadline_fails Demo.myapp "web" 3 (120 * Second) [Tick]
           initialRollout dep Demo.cluster Demo.deadlineExceededCondition Hin eq_refl eq_refl).
Defined.

(** A condition of type Available reports the reason ProgressDeadlineExceeded,
    and the monitor ends successfully. *)
Lemma monitorDeployment_reason_on_other_condition :
  let dep := Demo.deployment 3 (Demo.statusOf 3 3 0 [Demo.availableCondition]) in
  (exists c, In c (st_Conditions (dep_Status dep))
             /\ cond_Reason c = deadlineExeceededProgressCond)
  /\ result_of (monitorDeployment Demo.config [] dep Demo.myapp "web" "1") Demo.cluster
     = Returns Completed.
Proof.
  intros dep. split.
  - exists Demo.availableCondition. split; [left; reflexivity | reflexivity].
  - vm_compute. reflexivity.
Qed.



Lemma createPod_rejects_cmds_witness :
  let params := Demo.podParams ["download"; "build"] in
  length (cp_cmds params) <> 3%nat
  /\ createPod Demo.config params Demo.cluster
     = (Demo.cluster, [],
        Errors (Errorf "unexpected cmds list: %#v" [ArgStrings ["download"; "build"]]))
  /\ issued (createPod Demo.config params) Demo.cluster = [].
Proof.
  intros params.
  assert (Hlen : length (cp_cmds params) <> 3%nat) by (cbn; lia).
  split; [exact Hlen |].
  exact (createPod_rejects_cmds Demo.config params Demo.cluster Hlen).
Defined.

Lemma sidecar_pods_have_two_containers_witness :
  (exists r p,
      In r (issued (createPod Demo.config (Demo.podParams ["download"; "extract"; "build"]))
              Demo.cluster)
      /\ act_Object r = Some (ObjPod p)
      /\ sidecarShape "/tmp/intercontainer" p)
  /\ (exists r p,
        In r (issued (runInspectSidecar Demo.config Demo.inspectionParams) Demo.cluster)
        /\ act_Object r = Some (ObjPod p)
        /\ sidecarShape "/tmp/intercontainer" p).
Proof.
  destruct (sidecar_pods_have_two_containers Demo.config) as [Hbuild Hinspect].
  split.
  - assert (Hr : exists r p,
               In r (issued (createPod Demo.config
                               (Demo.podParams ["download"; "extract"; "build"])) Demo.cluster)
               /\ act_Object r = Some (ObjPod p)).
    { vm_compute. eexists _, _. split; [right; left; reflexivity | reflexivity]. }
    destruct Hr as (r & p & Hin & Hobj). exists r, p.
    split; [exact Hin |]. split; [exact Hobj |].
    exact (Hbuild _ _ r p Hin Hobj).
  - assert (Hr : exists r p,
               In r (issued (runInspectSidecar Demo.config Demo.inspectionParams) Demo.cluster)
               /\ act_Object r = Some (ObjPod p)).
    { vm_compute. eexists _, _. split; [right; left; reflexivity | reflexivity]. }
    destruct Hr as (r & p & Hin & Hobj). exists r, p.
    split; [exact Hin |]. split; [exact Hobj |].
    exact (Hinspect _ _ r p Hin Hobj).
Defined.

Lemma CurrentLabels_absent_is_not_an_error_witness :
  result_of (CurrentLabels Demo.myapp "web") Demo.cluster = Returns None
  /\ result_of (CurrentLabels Demo.myapp "web")
       (Demo.clusterWith Demo.forbidDeploymentGet Demo.emptyTracker)
     = Errors (WithStack (StatusError StatusReasonForbidden "deployments is forbidden")).
Proof.
  split.
  - exact (proj1 (CurrentLabels_absent_is_not_an_error Demo.myapp "web" Demo.cluster)
             eq_refl eq_refl).
  - exact (proj2 (CurrentLabels_absent_is_not_an_error Demo.myapp "web"
                    (Demo.clusterWith Demo.forbidDeploymentGet Demo.emptyTracker))
             (StatusError StatusReasonForbidden "deployments is forbidden") eq_refl).
Defined.



Lemma createAppDeployment_zero_overcommit_panics_witness :
  OvercommitFactor (Collaborators := Demo.collabZeroOvercommit) Demo.cluster "pool1" = (0, None)
  /\ app_Memory Demo.myapp <> 0
  /\ createAppDeployment (H := Demo.collabZeroOvercommit) Demo.config None Demo.myapp "web"
       "tsuru/app-myapp:v2" 1 Demo.labels Demo.cluster
     = (Demo.cluster, [], Panics "runtime error: integer divide by zero").
Proof.
  assert (Hmem : app_Memory Demo.myapp <> 0) by (cbn; lia).
  split; [reflexivity |]. split; [exact Hmem |].
  refine (createAppDeployment_zero_overcommit_panics (H := Demo.collabZeroOvercommit) Demo.config
            None Demo.myapp "web" "tsuru/app-myapp:v2" 1 Demo.labels Demo.cluster _ "web"
            eq_refl eq_refl _ eq_refl Hmem).
  right. eexists _, _. split; reflexivity.
Defined.

Lemma latest_tag_is_added_to_destination_images_witness :
  (exists r p,
      In r (issued (createDeployPod Demo.config (Demo.podParams [])) Demo.cluster)
      /\ act_Object r = Some (ObjPod p)
      /\ destinationImagesOf p = Some "tsuru/app-myapp:v2,tsuru/app-myapp:latest")
  /\ (exists r p,
        In r (issued (imageTagAndPush Demo.config Demo.myapp "tsuru/app-myapp:v1"
                        "tsuru/app-myapp:latest") Demo.cluster)
        /\ act_Object r = Some (ObjPod p)
        /\ destinationImagesOf p = Some "tsuru/app-myapp:latest").
Proof.
  destruct (latest_tag_is_added_to_destination_images Demo.config) as [Hdeploy Hinspect].
  split.
  - assert (Hr : exists r p,
               In r (issued (createDeployPod Demo.config (Demo.podParams [])) Demo.cluster)
               /\ act_Object r = Some (ObjPod p)).
    { vm_compute. eexists _, _. split; [right; left; reflexivity | reflexivity]. }
    destruct Hr as (r & p & Hin & Hobj). exists r, p.
    split; [exact Hin |]. split; [exact Hobj |].
    exact (proj2 (Hdeploy (Demo.podParams []) "tsuru/app-myapp:v2" [] "tsuru/app-myapp" "v2"
                    eq_refl eq_refl) Demo.cluster r p Hin Hobj).
  - assert (Hr : exists r p,
               In r (issued (imageTagAndPush Demo.config Demo.myapp "tsuru/app-myapp:v1"
                               "tsuru/app-myapp:latest") Demo.cluster)
               /\ act_Object r = Some (ObjPod p)).
    { vm_compute. eexists _, _. split; [right; left; reflexivity | reflexivity]. }
    destruct Hr as (r & p & Hin & Hobj). exists r, p.
    split; [exact Hin |]. split; [exact Hobj |].
    exact (proj2 (Hinspect Demo.myapp "tsuru/app-myapp:v1" "tsuru/app-myapp:latest"
                    "tsuru/app-myapp" "latest" eq_refl) Demo.cluster r p Hin Hobj).
Defined.



(** ** The further theorems on the concrete cluster *)

Lemma empty_destination_images_are_rejected_witness :
  let params := with_destinationImages [] (Demo.podParams ["download"; "extract"; "build"]) in
  createDeployPod Demo.config params Demo.cluster
  = (Demo.cluster, [], Errors (Errorf "no destination images provided" []))
  /\ createPod Demo.config params Demo.cluster
     = (Demo.cluster, [], Errors (Errorf "no destination images provided" [])).
Proof.
  intros params.
  destruct (proj1 (empty_destination_images_are_rejected Demo.config) params Demo.cluster
              eq_refl) as (Hdeploy & Hpod & _).
  split; [exact Hdeploy | exact (Hpod eq_refl)].
Defined.

Lemma createBuildPod_pod_name_and_images_witness :
  exists r p,
    In r (issued (createBuildPod Demo.config (Demo.podParams [])) Demo.cluster)
    /\ act_Object r = Some (ObjPod p)
    /\ om_Name (pod_Meta p) = "myapp-v2-build"
    /\ destinationImagesOf p = Some "tsuru/app-myapp:v2".
Proof.
  assert (Hr : exists r p,
             In r (issued (createBuildPod Demo.config (Demo.podParams [])) Demo.cluster)
             /\ act_Object r = Some (ObjPod p)).
  { vm_compute. eexists _, _. split; [right; left; reflexivity | reflexivity]. }
  destruct Hr as (r & p & Hin & Hobj). exists r, p.
  split; [exact Hin |]. split; [exact Hobj |].
  destruct (createBuildPod_pod_name_and_images Demo.config (Demo.podParams []) Demo.cluster
              r p Hin Hobj) as (Hname & Himages & _).
  split; [exact Hname | exact Himages].
Defined.

Lemma sidecar_credentials_follow_first_destination_witness :
  let onRegistry :=
    with_destinationImages ["registry.example.com/tsuru/app-myapp:v2"]
      (Demo.podParams ["download"; "extract"; "build"]) in
  let elsewhere := Demo.podParams ["download"; "extract"; "build"] in
  (exists r p,
      In r (issued (createPod Demo.config onRegistry) Demo.cluster)
      /\ act_Object r = Some (ObjPod p)
      /\ registryEnvOf p = Some ("user", "secret", "registry.example.com"))
  /\ (exists r p,
        In r (issued (createPod Demo.config elsewhere) Demo.cluster)
        /\ act_Object r = Some (ObjPod p)
        /\ registryEnvOf p = Some (EmptyString, EmptyString, EmptyString)).
Proof.
  intros onRegistry elsewhere.
  destruct (sidecar_credentials_follow_first_destination Demo.config) as [Hpod _].
  split.
  - assert (Hr : exists r p,
               In r (issued (createPod Demo.config onRegistry) Demo.cluster)
               /\ act_Object r = Some (ObjPod p)).
    { vm_compute. eexists _, _. split; [right; left; reflexivity | reflexivity]. }
    destruct Hr as (r & p & Hin & Hobj). exists r, p.
    split; [exact Hin |]. split; [exact Hobj |].
    refine (proj2 (Hpod onRegistry _ [] Demo.cluster r p eq_refl Hin Hobj) eq_refl _).
    left. discriminate.
  - assert (Hr : exists r p,
               In r (issued (createPod Demo.config elsewhere) Demo.cluster)
               /\ act_Object r = Some (ObjPod p)).
    { vm_compute. eexists _, _. split; [right; left; reflexivity | reflexivity]. }
    destruct Hr as (r & p & Hin & Hobj). exists r, p.
    split; [exact Hin |]. split; [exact Hobj |].
    refine (proj1 (Hpod elsewhere _ [] Demo.cluster r p eq_refl Hin Hobj) _).
    discriminate.
Defined.

Lemma ensureAuthSecret_updates_or_creates_witness :
  let secret := authSecret Demo.config "{auths}" in
  let request verb := {| act_Verb := verb; act_Resource := ResSecrets;
                         act_Name := "registry-registry.example.com";
                         act_Object := Some (ObjSecret secret) |} in
  credentialsConfigured Demo.config
  /\ idleControllers Demo.cluster
  /\ noFaults Demo.cluster
  /\ issued (ensureAuthSecret Demo.config) Demo.cluster
     = [request VerbUpdate; request VerbCreate]
  /\ tr_Secrets (cc_Tracker (ensureAuthSecret Demo.config Demo.cluster).1.1)
       !! "registry-registry.example.com" = Some secret.
Proof.
  intros secret request.
  assert (Hc : credentialsConfigured Demo.config) by (left; discriminate).
  assert (Hi : idleControllers Demo.cluster) by (intros history t; reflexivity).
  assert (Hn : noFaults Demo.cluster) by (intros history a; reflexivity).
  split; [exact Hc |]. split; [exact Hi |]. split; [exact Hn |].
  destruct (ensureAuthSecret_updates_or_creates (H := Demo.collab) Demo.config Demo.cluster
              "{auths}" Hc eq_refl Hi Hn) as (_ & Hissued & Hstore & _).
  split; [exact Hissued | exact Hstore].
Defined.

Lemma createAppDeployment_creates_or_updates_witness :
  (exists r d,
      In r (issued (createAppDeployment Demo.config None Demo.myapp "web" "tsuru/app-myapp:v2" 2
                      Demo.labels) Demo.cluster)
      /\ act_Object r = Some (ObjDeployment d)
      /\ act_Verb r = VerbCreate
      /\ om_Name (dep_Meta d) = "myapp-web"
      /\ ds_Replicas (dep_Spec d) = Some 2)
  /\ (exists r d,
        In r (issued (createAppDeployment Demo.config (Some (Demo.deployment 1 (Demo.statusOf 1 1 0 [])))
                        Demo.myapp "web" "tsuru/app-myapp:v2" 2 Demo.labels)
                (Demo.clusterHolding (Demo.deployment 1 (Demo.statusOf 1 1 0 []))))
        /\ act_Object r = Some (ObjDeployment d)
        /\ act_Verb r = VerbUpdate
        /\ ds_Replicas (dep_Spec d) = Some 2).
Proof.
  split.
  - assert (Hr : exists r d,
               In r (issued (createAppDeployment Demo.config None Demo.myapp "web"
                               "tsuru/app-myapp:v2" 2 Demo.labels) Demo.cluster)
               /\ act_Object r = Some (ObjDeployment d)).
    { vm_compute. eexists _, _. split; [left; reflexivity | reflexivity]. }
    destruct Hr as (r & d & Hin & Hobj). exists r, d.
    split; [exact Hin |]. split; [exact Hobj |].
    destruct (createAppDeployment_creates_or_updates Demo.config None Demo.myapp "web"
                "tsuru/app-myapp:v2" 2 Demo.labels Demo.cluster r d Hin Hobj)
      as (Hverb & Hname & Hreplicas & _).
    split; [exact Hverb |]. split; [exact Hname | exact Hreplicas].
  - assert (Hr : exists r d,
               In r (issued (createAppDeployment Demo.config
                               (Some (Demo.deployment 1 (Demo.statusOf 1 1 0 [])))
                               Demo.myapp "web" "tsuru/app-myapp:v2" 2 Demo.labels)
                       (Demo.clusterHolding (Demo.deployment 1 (Demo.statusOf 1 1 0 []))))
               /\ act_Object r = Some (ObjDeployment d)).
    { vm_compute. eexists _, _. split; [left; reflexivity | reflexivity]. }
    destruct Hr as (r & d & Hin & Hobj). exists r, d.
    split; [exact Hin |]. split; [exact Hobj |].
    destruct (createAppDeployment_creates_or_updates Demo.config
                (Some (Demo.deployment 1 (Demo.statusOf 1 1 0 []))) Demo.myapp "web"
                "tsuru/app-myapp:v2" 2 Demo.labels _ r d Hin Hobj)
      as (Hverb & _ & Hreplicas & _).
    split; [exact Hverb | exact Hreplicas].
Defined.

Lemma createAppDeployment_memory_request_within_limit_witness :
  exists r d c,
    In r (issued (createAppDeployment Demo.config None Demo.myapp "web" "tsuru/app-myapp:v2" 2
                    Demo.labels) Demo.cluster)
    /\ act_Object r = Some (ObjDeployment d)
    /\ containerOf d = Some c
    /\ c_Limits c = {[ ResourceMemory := 536870912 ]}
    /\ exists request,
         c_Requests c = {[ ResourceMemory := request ]} /\ 0 <= request <= 536870912.
Proof.
  assert (Hr : exists r d c,
             In r (issued (createAppDeployment Demo.config None Demo.myapp "web"
                             "tsuru/app-myapp:v2" 2 Demo.labels) Demo.cluster)
             /\ act_Object r = Some (ObjDeployment d)
             /\ containerOf d = Some c).
  { vm_compute. eexists _, _, _. split; [left; reflexivity |]. split; reflexivity. }
  destruct Hr as (r & d & c & Hin & Hobj & Hc). exists r, d, c.
  split; [exact Hin |]. split; [exact Hobj |]. split; [exact Hc |].
  assert (Hmem : 0 < app_Memory Demo.myapp < 2 ^ 63) by (cbn; lia).
  assert (Hover : forall cl0, 1 <= (OvercommitFactor cl0 (app_Pool Demo.myapp)).1)
    by (intros cl0; cbn; lia).
  destruct (proj2 (createAppDeployment_memory_request_within_limit Demo.config None Demo.myapp
                     "web" "tsuru/app-myapp:v2" 2 Demo.labels Demo.cluster r d c Hin Hobj Hc)
              Hmem Hover) as (cl0 & request & Hlimits & Hrequests & _ & Hbound).
  split; [exact Hlimits |]. exists request. split; [exact Hrequests | exact Hbound].
Defined.


Lemma createAppDeployment_probes_for_web_process_only_witness :
  let checked := Demo.variant (Demo.healthcheck "GET") EmptyString (Ok []) in
  (exists r d c p,
      In r (issued (createAppDeployment (H := checked) Demo.config None Demo.myapp "web"
                      "tsuru/app-myapp:v2" 2 Demo.labels) Demo.cluster)
      /\ act_Object r = Some (ObjDeployment d)
      /\ containerOf d = Some c
      /\ c_ReadinessProbe c = Some p /\ c_LivenessProbe c = Some p
      /\ probe_Path p = "/healthcheck" /\ probe_Port p = 8888
      /\ probe_FailureThreshold p = 3)
  /\ (exists r d c,
        In r (issued (createAppDeployment (H := checked) Demo.config None Demo.myapp "worker"
                        "tsuru/app-myapp:v2" 2 Demo.labels) Demo.cluster)
        /\ act_Object r = Some (ObjDeployment d)
        /\ containerOf d = Some c
        /\ c_ReadinessProbe c = None /\ c_LivenessProbe c = None).
Proof.
  intros checked. split.
  - assert (Hr : exists r d c,
               In r (issued (createAppDeployment (H := checked) Demo.config None Demo.myapp
                               "web" "tsuru/app-myapp:v2" 2 Demo.labels) Demo.cluster)
               /\ act_Object r = Some (ObjDeployment d)
               /\ containerOf d = Some c).
    { vm_compute. eexists _, _, _. split; [left; reflexivity |]. split; reflexivity. }
    destruct Hr as (r & d & c & Hin & Hobj & Hc).
    destruct (createAppDeployment_probes_for_web_process_only (H := checked) Demo.config None
                Demo.myapp "web" "tsuru/app-myapp:v2" 2 Demo.labels Demo.cluster r d c
                Hin Hobj Hc) as (webProcessName & Hweb & _ & Hprobe).
    injection Hweb as <-.
    destruct (Hprobe eq_refl) as (hc & Hy & _ & Hpath).
    injection Hy as <-.
    destruct Hpath as (p & Hr & Hl & Hp & Hport & Hthreshold); [discriminate |].
    exists r, d, c, p. repeat (split; [assumption |]). exact Hthreshold.
  - assert (Hr : exists r d c,
               In r (issued (createAppDeployment (H := checked) Demo.config None Demo.myapp
                               "worker" "tsuru/app-myapp:v2" 2 Demo.labels) Demo.cluster)
               /\ act_Object r = Some (ObjDeployment d)
               /\ containerOf d = Some c).
    { vm_compute. eexists _, _, _. split; [left; reflexivity |]. split; reflexivity. }
    destruct Hr as (r & d & c & Hin & Hobj & Hc).
    destruct (createAppDeployment_probes_for_web_process_only (H := checked) Demo.config None
                Demo.myapp "worker" "tsuru/app-myapp:v2" 2 Demo.labels Demo.cluster r d c
                Hin Hobj Hc) as (webProcessName & Hweb & Hother & _).
    injection Hweb as <-.
    exists r, d, c. repeat (split; [assumption |]). apply Hother. discriminate.
Defined.

Lemma unsupported_healthcheck_method_is_rejected_witness :
  let checked := Demo.variant (Demo.healthcheck "POST") EmptyString (Ok []) in
  createAppDeployment (H := checked) Demo.config None Demo.myapp "web" "tsuru/app-myapp:v2" 2
    Demo.labels Demo.cluster
  = (Demo.cluster, [],
     Errors (Errorf "healthcheck: only GET method is supported in kubernetes provisioner" [])).
Proof.
  intros checked.
  refine (proj2 (unsupported_healthcheck_method_is_rejected (H := checked) Demo.config) None
            Demo.myapp "web" "tsuru/app-myapp:v2" 2 Demo.labels Demo.cluster _
            (Demo.healthcheck "POST") eq_refl eq_refl eq_refl _ _ _); discriminate.
Defined.

Lemma CurrentLabels_after_createAppDeployment_witness :
  exists cl' out dep l an,
    createAppDeployment Demo.config None Demo.myapp "web" "tsuru/app-myapp:v2" 2 Demo.labels
      Demo.cluster
    = (cl', out, Returns (dep, l, an))
    /\ result_of (CurrentLabels Demo.myapp "web") cl'
       = Returns (Some {| ls_Labels := {[ "app-name" := "myapp" ]}; ls_Prefix := "tsuru.io/" |}).
Proof.
  assert (Hi : idleControllers Demo.cluster) by (intros history t; reflexivity).
  assert (Hn : noFaults Demo.cluster) by (intros history a; reflexivity).
  destruct (createAppDeployment Demo.config None Demo.myapp "web" "tsuru/app-myapp:v2" 2
              Demo.labels Demo.cluster) as [[cl' out] r] eqn:Hrun.
  assert (Hret : exists dep, r = Returns (dep, Demo.labels,
                                          {| ls_Labels := ∅; ls_Prefix := "tsuru.io/" |})).
  { apply (f_equal snd) in Hrun. cbn [snd] in Hrun. rewrite <- Hrun.
    vm_compute. eexists. reflexivity. }
  destruct Hret as (dep & ->).
  exists cl', out, dep, Demo.labels, {| ls_Labels := ∅; ls_Prefix := "tsuru.io/" |}.
  split; [reflexivity |].
  exact (CurrentLabels_after_createAppDeployment Demo.config None Demo.myapp "web"
           "tsuru/app-myapp:v2" 2 Demo.labels Demo.cluster cl' out dep _ _ Hi Hn Hrun).
Defined.


Lemma monitorDeployment_generation_waits_for_observation_witness :
  let observed := Demo.deployment 3 (Demo.statusOf 3 3 0 []) in
  exists cl',
    monitorDeployment_generation [Tick; Tick] (Demo.unobserved observed)
      (Demo.clusterHolding observed)
    = (cl', [], Returns (Some ([Tick], observed)))
    /\ dep_Generation observed <= st_ObservedGeneration (dep_Status observed)
    /\ exists n reads,
         [Tick; Tick] = repeat Tick n ++ [Tick]
         /\ cc_Actions cl' = cc_Actions (Demo.clusterHolding observed) ++ reads
         /\ length reads = n.
Proof.
  intros observed.
  assert (Hr : exists cl',
             monitorDeployment_generation [Tick; Tick] (Demo.unobserved observed)
               (Demo.clusterHolding observed)
             = (cl', [], Returns (Some ([Tick], observed)))).
  { vm_compute. eexists. reflexivity. }
  destruct Hr as (cl' & Hrun). exists cl'. split; [exact Hrun |].
  destruct (monitorDeployment_generation_waits_for_observation [Tick; Tick]
              (Demo.unobserved observed) (Demo.clusterHolding observed) cl' [] [Tick] observed
              Hrun) as (Hgen & _ & n & reads & Hsched & Hact & Hlen & _).
  split; [exact Hgen |]. exists n, reads. split; [exact Hsched |]. split; [exact Hact | exact Hlen].
Defined.

Lemma monitorDeployment_healthcheck_timeout_follows_wait_witness :
  let dep := Demo.deployment 3 (Demo.statusOf 3 3 1 []) in
  let cl := Demo.clusterHolding dep in
  statusFaults cl
  /\ isTimeoutOf "healthcheck"
       (Errorf "timeout waiting %s after %v waiting for units%s"
          [ArgString "healthcheck"; ArgDuration (120 * Second); ArgString ""])
  /\ result_of (monitorDeployment Demo.config [HealthcheckTimeout (120 * Second)] dep
                  Demo.myapp "web" "1") cl
     = Errors (Errorf "timeout waiting %s after %v waiting for units%s"
                 [ArgString "healthcheck"; ArgDuration (120 * Second); ArgString ""])
  /\ emits healthcheckLine
       (output_of (monitorDeployment Demo.config [HealthcheckTimeout (120 * Second)] dep
                     Demo.myapp "web" "1") cl).
Proof.
  intros dep cl.
  assert (Hf : statusFaults cl) by (intros history a e; discriminate).
  assert (Ht : isTimeoutOf "healthcheck"
                 (Errorf "timeout waiting %s after %v waiting for units%s"
                    [ArgString "healthcheck"; ArgDuration (120 * Second); ArgString ""]))
    by (eexists _, _; reflexivity).
  assert (Hres : result_of (monitorDeployment Demo.config [HealthcheckTimeout (120 * Second)]
                              dep Demo.myapp "web" "1") cl
                 = Errors (Errorf "timeout waiting %s after %v waiting for units%s"
                             [ArgString "healthcheck"; ArgDuration (120 * Second);
                              ArgString ""])) by (vm_compute; reflexivity).
  split; [exact Hf |]. split; [exact Ht |]. split; [exact Hres |].
  refine (monitorDeployment_healthcheck_timeout_follows_wait Demo.config
            [HealthcheckTimeout (120 * Second)] dep Demo.myapp "web" "1" cl _ _ Hf _ Hres Ht).
  vm_compute. reflexivity.
Defined.

Lemma monitorDeployment_goes_on_after_watch_closes_witness :
  let dep := Demo.deployment 3 (Demo.statusOf 3 1 1 []) in
  let rolled := Demo.deployment 3 (Demo.statusOf 3 3 0 []) in
  watchCh initialRollout = true
  /\ Forall (fun s => isWatchSelect s = false) [Tick]
  /\ monitorDeployment_converge Demo.myapp "web" 3 (120 * Second) [WatchClosed; Tick]
       initialRollout dep (Demo.clusterHolding rolled)
     = monitorDeployment_converge Demo.myapp "web" 3 (120 * Second) [Tick; Tick]
         initialRollout dep (Demo.clusterHolding rolled)
  /\ result_of (monitorDeployment_converge Demo.myapp "web" 3 (120 * Second)
                  [WatchClosed; Tick] initialRollout dep) (Demo.clusterHolding rolled)
     = Returns Completed.
Proof.
  intros dep rolled.
  assert (Hfree : Forall (fun s => isWatchSelect s = false) [Tick])
    by (repeat constructor).
  split; [reflexivity |]. split; [exact Hfree |].
  split; [| vm_compute; reflexivity].
  exact (monitorDeployment_goes_on_after_watch_closes Demo.myapp "web" 3 (120 * Second) [Tick]
           initialRollout dep (Demo.clusterHolding rolled) eq_refl Hfree).
Defined.


Lemma DeployService_exposes_after_convergence_witness :
  let m := {| sm_client := Demo.clusterRollingOut; sm_writer := Some (Buffer []) |} in
  let run := DeployService Demo.config m [Tick] Demo.myapp "web" Demo.labels 2
               "tsuru/app-myapp:v2" in
  run.2 = Returns Completed
  /\ exists r,
       In r (drop (length (cc_Actions (sm_client m))) (cc_Actions (sm_client run.1)))
       /\ act_Resource r = ResServices
       /\ act_Verb r = VerbCreate
       /\ act_Name r = "myapp-web-units".
Proof.
  intros m run.
  split; [vm_compute; reflexivity |].
  assert (Hr : exists r,
             In r (drop (length (cc_Actions (sm_client m))) (cc_Actions (sm_client run.1)))
             /\ act_Resource r = ResServices
             /\ act_Name r = "myapp-web-units").
  { vm_compute. eexists. split; [do 7 right; left; reflexivity |]. split; reflexivity. }
  destruct Hr as (r & Hin & Hres & Hname). exists r.
  split; [exact Hin |]. split; [exact Hres |].
  split; [| exact Hname].
  exact (proj1 (DeployService_exposes_after_convergence Demo.config m [Tick] Demo.myapp "web"
                  Demo.labels 2 "tsuru/app-myapp:v2" r Hin Hres)).
Defined.

Lemma DeployService_expose_keeps_existing_services_witness :
  let stale := serviceFor "myapp-web" Demo.labels Demo.labels 80 80 EmptyString
                 ServiceTypeNodePort Demo.cluster in
  let cl := Demo.clusterWith (fun _ _ => None)
              (with_Services (insert "myapp-web" stale) Demo.emptyTracker) in
  let run := DeployService_expose Demo.myapp "web" "tsuru/app-myapp:v2" Demo.labels Demo.labels
               cl in
  noFaults cl
  /\ idleControllers cl
  /\ run.2 = Returns Completed
  /\ tr_Services (cc_Tracker run.1.1) !! "myapp-web" = Some stale
  /\ is_Some (tr_Services (cc_Tracker run.1.1) !! "myapp-web-units").
Proof.
  intros stale cl run.
  assert (Hn : noFaults cl) by (intros history a; reflexivity).
  assert (Hi : idleControllers cl) by (intros history t; reflexivity).
  split; [exact Hn |]. split; [exact Hi |].
  destruct (DeployService_expose_keeps_existing_services Demo.myapp "web" "tsuru/app-myapp:v2"
              Demo.labels Demo.labels cl Hn Hi) as (Hres & _ & Hheadless & Hkept).
  split; [exact Hres |]. split; [| exact Hheadless].
  apply Hkept. reflexivity.
Defined.

Lemma RemoveService_attempts_every_step_witness :
  let refused := StatusError StatusReasonForbidden "services is forbidden" in
  let cl := Demo.clusterWith Demo.refuseServiceDelete Demo.emptyTracker in
  result_of (RemoveService (H0 := Demo.removal) Demo.myapp "web") cl
  = Errors (MultiError [WithStack refused; WithStack refused])
  /\ issued (RemoveService (H0 := Demo.removal) Demo.myapp "web") cl
     = [deleteOf ResServices "myapp-web"; deleteOf ResServices "myapp-web-units"].
Proof.
  intros refused cl.
  destruct (RemoveService_attempts_every_step (H0 := Demo.removal) Demo.myapp "web" cl)
    as (Hrun & Hactions).
  unfold result_of, issued. rewrite Hrun. cbn [fst snd].
  split; [vm_compute; reflexivity |].
  rewrite Hactions. vm_compute. reflexivity.
Defined.

Lemma getTargetPortForImage_reads_port_before_slash_witness :
  getTargetPortForImage
    (H := Demo.variant (Demo.healthcheck "GET") "8080/tcp" (Ok [])) "tsuru/app-myapp:v2" = 8080
  /\ getTargetPortForImage
       (H := Demo.variant (Demo.healthcheck "GET") "8080" (Ok [])) "tsuru/app-myapp:v2" = 8888.
Proof.
  split.
  - refine (proj1 (getTargetPortForImage_reads_port_before_slash
                     (H := Demo.variant (Demo.healthcheck "GET") "8080/tcp" (Ok []))
                     "tsuru/app-myapp:v2") "8080" "tcp" eq_refl _).
    unfold noSlash. cbn. intuition discriminate.
  - refine (proj2 (getTargetPortForImage_reads_port_before_slash
                     (H := Demo.variant (Demo.healthcheck "GET") "8080" (Ok []))
                     "tsuru/app-myapp:v2") _).
    unfold noSlash. cbn. intuition discriminate.
Defined.

